(** * ebiten: the image backing store (imageimpl.go)

    A shallow embedding of [imageImpl] and its operations: the per-image
    bookkeeping of the pixel cache, the base colour and the draw history,
    and the recovery of an image after the GL context is lost.

    Images live in a heap indexed by their address, because a history item
    names its source image by pointer.  The graphics package, the vertex
    computation and the transform values are outside imageimpl.go; they are
    taken through the interface [Platform]. *)

From Stdlib Require Import ZArith List Lia String Bool.
From stdpp Require Import gmap list.

Local Open Scope Z_scope.

(** ** Go's machine integers and slices *)

Module GoInt.

(** [int] is 64 bits wide and signed; arithmetic wraps around. *)
Definition wrap (z : Z) : Z := (z + 2 ^ 63) mod 2 ^ 64 - 2 ^ 63.
Definition add (a b : Z) : Z := wrap (a + b).
Definition mul (a b : Z) : Z := wrap (a * b).

(** The conversion [uint8(x)] keeps the low eight bits. *)
Definition uint8 (x : Z) : Z := x mod 256.

Definition in_range (z : Z) : Prop := - 2 ^ 63 <= z < 2 ^ 63.

End GoInt.

Module GoSlice.

(** [len(s)] as an [int]. *)
Definition len {A} (s : list A) : Z := Z.of_nat (length s).

(** [make([]uint8, n)]: a run-time panic when [n] is negative. *)
Definition make (n : Z) : option (list Z) :=
  if n <? 0 then None else Some (repeat 0 (Z.to_nat n)).

(** [copy(dst, src)] overwrites the first [min(len dst, len src)] elements of
    [dst]; the result is the new content of [dst]. *)
Definition copy {A} (dst src : list A) : list A :=
  take (length dst) src ++ drop (length src) dst.

(** [s[a:b]]: a run-time panic unless [0 <= a <= b <= len s]. *)
Definition slice {A} (s : list A) (a b : Z) : option (list A) :=
  if (0 <=? a) && (a <=? b) && (b <=? len s)
  then Some (take (Z.to_nat (b - a)) (drop (Z.to_nat a) s))
  else None.

(** [s[a:]] *)
Definition slice_from {A} (s : list A) (a : Z) : option (list A) :=
  slice s a (len s).

(** [s[i]]: a run-time panic when [i] is out of range. *)
Definition index {A} (s : list A) (i : Z) : option A :=
  if (0 <=? i) && (i <? len s) then s !! Z.to_nat i else None.

End GoSlice.

(** ** Colours (image/color) *)

(** The values of the interface [color.Color] that the code builds or is
    handed: [color.RGBA], [color.Alpha16] (of which [color.Transparent] is
    one) and any other implementation, given by what its method [RGBA]
    returns. *)
Inductive color :=
| color_RGBA (r g b a : Z)
| color_Alpha16 (a : Z)
| color_Other (r32 g32 b32 a32 : Z).

Definition color_Transparent : color := color_Alpha16 0.

(** The method [RGBA()] of the interface: four 16-bit channels in [uint32]. *)
Definition RGBA_of (c : color) : Z * Z * Z * Z :=
  match c with
  | color_RGBA r g b a =>
      (Z.lor r (Z.shiftl r 8), Z.lor g (Z.shiftl g 8),
       Z.lor b (Z.shiftl b 8), Z.lor a (Z.shiftl a 8))
  | color_Alpha16 a => (a, a, a, a)
  | color_Other r g b a => (r, g, b, a)
  end.

(** [image.RGBA]: [Pix], [Stride] and the bounds [Rect], here its width and
    height (its corner [Min] is the origin in all that follows). *)
Record image_RGBA := { Pix : list Z; Stride : Z; Dx : Z; Dy : Z }.

(** [image.NewRGBA(image.Rect(0, 0, w, h))]: [image.Rect] orders its corners,
    so the rectangle is [|w|] wide and [|h|] high. *)
Definition image_NewRGBA (w h : Z) : option image_RGBA :=
  match GoSlice.make (GoInt.mul (GoInt.mul 4 (Z.abs w)) (Z.abs h)) with
  | Some pix =>
      Some {| Pix := pix; Stride := GoInt.mul 4 (Z.abs w);
              Dx := Z.abs w; Dy := Z.abs h |}
  | None => None
  end.

(** The bytes of [n] pixels of one colour. *)
Fixpoint solid (n : nat) (r g b a : Z) : list Z :=
  match n with
  | O => []
  | S n' => r :: g :: b :: a :: solid n' r g b a
  end.

(** ** graphics.go *)

Inductive Filter := FilterNearest | FilterLinear.

(** ** Errors *)

(** The [error] values: [errors.New(msg)], [fmt.Errorf(format, l)] with one
    integer argument, and whatever the graphics package returns, which is an
    [error] like the others. *)
Inductive error :=
| errors_New (msg : string)
| fmt_Errorf (format : string) (l : Z).

Definition ErrAlreadyDisposed : error :=
  errors_New "ebiten: image is already disposed".
Definition ErrSameImage : error :=
  errors_New "ebiten: Image.DrawImage: image should be different from the receiver".
Definition ErrLength (l : Z) : error :=
  fmt_Errorf "ebiten: p's length must be %d" l.

(** Addresses of images.  An [*Image] holds exactly one [*imageImpl] (its
    field [impl]) and nothing else the code reads, so one address stands for
    both. *)
Definition ptr := nat.

(** ** The platform around imageimpl.go *)

(** The types of the platform: the texture handle [*graphics.Image], the
    state of the device, the GL context, the transform values, which are
    passed through untouched, and the part selections. *)
Class Types := {
  Handle : Type;
  GPU : Type;
  GLContext : Type;
  GeoM : Type;
  ColorM : Type;
  ImageParts : Type;
  LegacyParts : Type
}.

(** Modelled from the spec: the GPU texture backend of section 6 (package
    internal/graphics, not among the sources), as operations on a device
    state; the vertex computation of [textureQuads] and the [ImageParts] it
    reads; and the context that [ui.GLContext()] returns.  A backend
    function returns Go's pair (value, error) as it is. *)
Class Platform (T : Types) := {
  zero_GeoM : GeoM;
  zero_ColorM : ColorM;
  ui_GLContext : GLContext;
  (* the conversion imageParts(dparts) and the literal &wholeImage{w, h} *)
  imageParts : LegacyParts -> ImageParts;
  wholeImage : Z -> Z -> ImageParts;
  parts_Len : ImageParts -> Z;
  (* textureQuads{parts, width, height}.vertices(buf): the buffer as the call
     leaves it, and the number of quads it returns *)
  quads_vertices : ImageParts -> Z -> Z -> list Z -> list Z * Z;
  graphics_NewImage :
    Z -> Z -> Filter -> GPU -> (option Handle * option error) * GPU;
  graphics_NewImageFromImage :
    image_RGBA -> Filter -> GPU -> (option Handle * option error) * GPU;
  graphics_NewScreenFramebufferImage :
    Z -> Z -> GPU -> (option Handle * option error) * GPU;
  graphics_Fill : Handle -> color -> GPU -> option error * GPU;
  graphics_DrawImage :
    Handle -> Handle -> list Z -> GeoM -> ColorM -> Z -> GPU ->
    option error * GPU;
  graphics_Pixels :
    Handle -> GLContext -> GPU -> (option (list Z) * option error) * GPU;
  graphics_ReplacePixels : Handle -> list Z -> GPU -> option error * GPU;
  graphics_Dispose : Handle -> GPU -> option error * GPU;
  graphics_IsInvalidated : Handle -> GLContext -> GPU -> bool
}.

Section ImageImpl.

Context {T : Types}.

(** ** The data *)

Record drawImageHistoryItem := {
  item_image : ptr;
  item_vertices : list Z;
  item_geom : GeoM;
  item_colorm : ColorM;
  item_mode : Z
}.

(** [pixels] and [baseColor] are [None] when nil.  [drawImageHistory] is
    either nil or the result of [append], which is never empty, so the empty
    list stands for nil.  [m] is [true] while the mutex is held. *)
Record imageImpl := {
  image : option Handle;
  disposed : bool;
  width : Z;
  height : Z;
  filter : Filter;
  pixels : option (list Z);
  baseColor : option color;
  drawImageHistory : list drawImageHistoryItem;
  volatile : bool;
  screen : bool;
  m : bool
}.

Record DrawImageOptions := {
  opt_ImageParts : option ImageParts;
  opt_Parts : option LegacyParts;
  opt_GeoM : GeoM;
  opt_ColorM : ColorM;
  opt_CompositeMode : Z
}.

(** What the program does that can be seen from outside an image: taking and
    releasing a mutex, a call into the graphics package, and
    [runtime.SetFinalizer]. *)
Inductive gpu_call :=
| call_NewImage (w h : Z) (f : Filter)
| call_NewImageFromImage (img : image_RGBA) (f : Filter)
| call_NewScreenFramebufferImage (w h : Z)
| call_Fill (t : Handle) (c : color)
| call_DrawImage (dst src : Handle) (vs : list Z) (g : GeoM) (cm : ColorM) (mode : Z)
| call_Pixels (t : Handle)
| call_ReplacePixels (t : Handle) (p : list Z)
| call_Dispose (t : Handle).

Inductive event :=
| ev_Lock (i : ptr)
| ev_Unlock (i : ptr)
| ev_gpu (c : gpu_call)
| ev_SetFinalizer (i : ptr) (on : bool).

Record World := {
  heap : gmap ptr imageImpl;
  device : GPU;
  loop_running : bool;
  finalizers : gset ptr;
  trace : list event
}.

Inductive outcome (A : Type) :=
| Returns (a : A) (w : World)
| Panics (msg : string)
| Deadlocks.
Arguments Returns {A}.
Arguments Panics {A}.
Arguments Deadlocks {A}.

Definition Proc (A : Type) : Type := World -> outcome A.

Definition ret {A} (a : A) : Proc A := fun w => Returns a w.

Definition bind {A B} (c : Proc A) (k : A -> Proc B) : Proc B :=
  fun w =>
    match c w with
    | Returns a w' => k a w'
    | Panics msg => Panics msg
    | Deadlocks => Deadlocks
    end.

Definition panic {A} (msg : string) : Proc A := fun _ => Panics msg.

End ImageImpl.

Arguments Returns {T A}.
Arguments Panics {T A}.
Arguments Deadlocks {T A}.

Notation "x <- c ;; k" := (bind c (fun x => k))
  (at level 100, c at next level, right associativity).
Notation "c ;;; k" := (bind c (fun _ => k))
  (at level 100, right associativity).

Section Operations.

Context {T : Types} {P : Platform T}.

(** ** Assignments to the fields of an image *)

Definition set_image (v : option Handle) (s : imageImpl) : imageImpl :=
  {| image := v; disposed := disposed s; width := width s; height := height s;
     filter := filter s; pixels := pixels s; baseColor := baseColor s;
     drawImageHistory := drawImageHistory s; volatile := volatile s;
     screen := screen s; m := m s |}.

Definition set_disposed (v : bool) (s : imageImpl) : imageImpl :=
  {| image := image s; disposed := v; width := width s; height := height s;
     filter := filter s; pixels := pixels s; baseColor := baseColor s;
     drawImageHistory := drawImageHistory s; volatile := volatile s;
     screen := screen s; m := m s |}.

Definition set_pixels (v : option (list Z)) (s : imageImpl) : imageImpl :=
  {| image := image s; disposed := disposed s; width := width s;
     height := height s; filter := filter s; pixels := v;
     baseColor := baseColor s; drawImageHistory := drawImageHistory s;
     volatile := volatile s; screen := screen s; m := m s |}.

Definition set_baseColor (v : option color) (s : imageImpl) : imageImpl :=
  {| image := image s; disposed := disposed s; width := width s;
     height := height s; filter := filter s; pixels := pixels s;
     baseColor := v; drawImageHistory := drawImageHistory s;
     volatile := volatile s; screen := screen s; m := m s |}.

Definition set_drawImageHistory (v : list drawImageHistoryItem) (s : imageImpl)
  : imageImpl :=
  {| image := image s; disposed := disposed s; width := width s;
     height := height s; filter := filter s; pixels := pixels s;
     baseColor := baseColor s; drawImageHistory := v;
     volatile := volatile s; screen := screen s; m := m s |}.

Definition set_m (v : bool) (s : imageImpl) : imageImpl :=
  {| image := image s; disposed := disposed s; width := width s;
     height := height s; filter := filter s; pixels := pixels s;
     baseColor := baseColor s; drawImageHistory := drawImageHistory s;
     volatile := volatile s; screen := screen s; m := v |}.

(** ** Steps on the world *)

Definition with_heap (h : gmap ptr imageImpl) (w : World) : World :=
  {| heap := h; device := device w; loop_running := loop_running w;
     finalizers := finalizers w; trace := trace w |}.

Definition with_device (g : GPU) (w : World) : World :=
  {| heap := heap w; device := g; loop_running := loop_running w;
     finalizers := finalizers w; trace := trace w |}.

Definition with_finalizers (f : gset ptr) (w : World) : World :=
  {| heap := heap w; device := device w; loop_running := loop_running w;
     finalizers := f; trace := trace w |}.

Definition with_trace (t : list event) (w : World) : World :=
  {| heap := heap w; device := device w; loop_running := loop_running w;
     finalizers := finalizers w; trace := t |}.

Definition nil_dereference : string := "invalid memory address or nil pointer dereference".
Definition out_of_range : string := "index out of range".

(** Reading the object behind a pointer. *)
Definition load (i : ptr) : Proc imageImpl :=
  fun w =>
    match heap w !! i with
    | Some s => Returns s w
    | None => Panics nil_dereference
    end.

(** Assigning to a field of the object behind a pointer. *)
Definition store (i : ptr) (f : imageImpl -> imageImpl) : Proc unit :=
  fun w =>
    match heap w !! i with
    | Some s => Returns tt (with_heap (<[i := f s]> (heap w)) w)
    | None => Panics nil_dereference
    end.

Definition emit (e : event) : Proc unit :=
  fun w => Returns tt (with_trace (trace w ++ [e]) w).

(** A partial Go operation (make, slicing, indexing): its panic, or its value. *)
Definition must {A} (msg : string) (o : option A) : Proc A :=
  match o with
  | Some a => ret a
  | None => panic msg
  end.

(** [i.m.Lock()]: a mutex is not reentrant. *)
Definition Lock (i : ptr) : Proc unit :=
  s <- load i ;;
  if m s then (fun _ => Deadlocks)
  else store i (set_m true) ;;; emit (ev_Lock i).

Definition Unlock (i : ptr) : Proc unit :=
  store i (set_m false) ;;; emit (ev_Unlock i).

(** [i.m.Lock(); defer i.m.Unlock()] around the rest of a method. *)
Definition locked {A} (i : ptr) (body : Proc A) : Proc A :=
  Lock i ;;; r <- body ;; Unlock i ;;; ret r.

(** [runtime.SetFinalizer(i, f)]; [on] is [false] when [f] is nil. *)
Definition SetFinalizer (i : ptr) (on : bool) : Proc unit :=
  fun w =>
    Returns tt
      (with_trace (trace w ++ [ev_SetFinalizer i on])
         (with_finalizers
            (if on then {[i]} ∪ finalizers w else finalizers w ∖ {[i]}) w)).

(** [new]: a fresh address. *)
Definition alloc (s : imageImpl) : Proc ptr :=
  fun w =>
    let i := fresh (dom (heap w)) in
    Returns i (with_heap (<[i := s]> (heap w)) w).

(** ** Calls into the graphics package *)

Definition gpu_step {A} (c : gpu_call) (f : GPU -> A * GPU) : Proc A :=
  fun w =>
    let r := f (device w) in
    Returns (fst r) (with_trace (trace w ++ [ev_gpu c]) (with_device (snd r) w)).

Definition gpu_NewImage (w h : Z) (f : Filter)
  : Proc (option Handle * option error) :=
  gpu_step (call_NewImage w h f) (graphics_NewImage w h f).

Definition gpu_NewImageFromImage (img : image_RGBA) (f : Filter)
  : Proc (option Handle * option error) :=
  gpu_step (call_NewImageFromImage img f) (graphics_NewImageFromImage img f).

Definition gpu_NewScreenFramebufferImage (w h : Z)
  : Proc (option Handle * option error) :=
  gpu_step (call_NewScreenFramebufferImage w h)
    (graphics_NewScreenFramebufferImage w h).

(** The methods of [*graphics.Image] read their receiver, and [DrawImage] its
    source: on nil they panic. *)
Definition gpu_Fill (t : option Handle) (c : color) : Proc (option error) :=
  t <- must nil_dereference t ;;
  gpu_step (call_Fill t c) (graphics_Fill t c).

Definition gpu_DrawImage (dst src : option Handle) (vs : list Z) (g : GeoM)
    (cm : ColorM) (mode : Z) : Proc (option error) :=
  dst <- must nil_dereference dst ;;
  src <- must nil_dereference src ;;
  gpu_step (call_DrawImage dst src vs g cm mode)
    (graphics_DrawImage dst src vs g cm mode).

Definition gpu_Pixels (t : option Handle) (ctx : GLContext)
  : Proc (option (list Z) * option error) :=
  t <- must nil_dereference t ;;
  gpu_step (call_Pixels t) (graphics_Pixels t ctx).

Definition gpu_ReplacePixels (t : option Handle) (p : list Z)
  : Proc (option error) :=
  t <- must nil_dereference t ;;
  gpu_step (call_ReplacePixels t p) (graphics_ReplacePixels t p).

Definition gpu_Dispose (t : option Handle) : Proc (option error) :=
  t <- must nil_dereference t ;;
  gpu_step (call_Dispose t) (graphics_Dispose t).

(** ** The constructors *)

Definition newImageImpl (width height : Z) (filter : Filter) (volatile : bool)
  : Proc (option ptr * option error) :=
  r <- gpu_NewImage width height filter ;;
  match snd r with
  | Some err => ret (None, Some err)
  | None =>
      px <- must "makeslice: len out of range"
              (GoSlice.make (GoInt.mul (GoInt.mul width height) 4)) ;;
      i <- alloc {| image := fst r; disposed := false; width := width;
                    height := height; filter := filter; pixels := Some px;
                    baseColor := None; drawImageHistory := [];
                    volatile := volatile; screen := false; m := false |} ;;
      SetFinalizer i true ;;;
      ret (Some i, None)
  end.

Definition newScreenImageImpl (width height : Z)
  : Proc (option ptr * option error) :=
  r <- gpu_NewScreenFramebufferImage width height ;;
  match snd r with
  | Some err => ret (None, Some err)
  | None =>
      px <- must "makeslice: len out of range"
              (GoSlice.make (GoInt.mul (GoInt.mul width height) 4)) ;;
      i <- alloc {| image := fst r; disposed := false; width := width;
                    height := height; filter := FilterNearest;
                    pixels := Some px; baseColor := None;
                    drawImageHistory := []; volatile := true; screen := true;
                    m := false |} ;;
      SetFinalizer i true ;;;
      ret (Some i, None)
  end.

(** ** Fill and clearIfVolatile *)

Definition Fill (i : ptr) (clr : color) : Proc (option error) :=
  locked i (
    s <- load i ;;
    if disposed s then ret (Some ErrAlreadyDisposed)
    else
      store i (set_pixels None) ;;;
      store i (set_baseColor (Some clr)) ;;;
      store i (set_drawImageHistory []) ;;;
      gpu_Fill (image s) clr).

Definition clearIfVolatile (i : ptr) : Proc (option error) :=
  locked i (
    s <- load i ;;
    if disposed s then ret None
    else if negb (volatile s) then ret None
    else
      store i (set_pixels None) ;;;
      store i (set_baseColor None) ;;;
      store i (set_drawImageHistory []) ;;;
      gpu_Fill (image s) color_Transparent).

(** ** DrawImage *)

(** [&DrawImageOptions{}] *)
Definition zero_DrawImageOptions : DrawImageOptions :=
  {| opt_ImageParts := None; opt_Parts := None; opt_GeoM := zero_GeoM;
     opt_ColorM := zero_ColorM; opt_CompositeMode := 0 |}.

(** The parts that [DrawImage] draws: [options.ImageParts], else the older
    [options.Parts], else the whole of the source. *)
Definition DrawImage_parts (options : DrawImageOptions) (src : imageImpl)
  : ImageParts :=
  match opt_ImageParts options with
  | Some parts => parts
  | None =>
      match opt_Parts options with
      | Some dparts => imageParts dparts
      | None => wholeImage (width src) (height src)
      end
  end.

(** [vertices := make([]int16, parts.Len()*16); n := quads.vertices(vertices)]:
    the buffer after the call and [n], or [None] when [make] panics. *)
Definition DrawImage_vertices (options : DrawImageOptions) (src : imageImpl)
  : option (list Z * Z) :=
  let parts := DrawImage_parts options src in
  match GoSlice.make (GoInt.mul (parts_Len parts) 16) with
  | Some buf => Some (quads_vertices parts (width src) (height src) buf)
  | None => None
  end.

Definition DrawImage (i : ptr) (image_ : ptr) (options : option DrawImageOptions)
  : Proc (option error) :=
  let options := default zero_DrawImageOptions options in
  src <- load image_ ;;
  quads <- must "makeslice: len out of range" (DrawImage_vertices options src) ;;
  let vertices := fst quads in
  let n := snd quads in
  if n =? 0 then ret None
  else if Nat.eqb i image_ then ret (Some ErrSameImage)
  else
    locked i (
      s <- load i ;;
      if disposed s then ret (Some ErrAlreadyDisposed)
      else
        let c := {| item_image := image_; item_vertices := vertices;
                    item_geom := opt_GeoM options;
                    item_colorm := opt_ColorM options;
                    item_mode := opt_CompositeMode options |} in
        store i (set_drawImageHistory (drawImageHistory s ++ [c])) ;;;
        dst <- load i ;;
        src <- load image_ ;;
        gpu_DrawImage (image dst) (image src) vertices (opt_GeoM options)
          (opt_ColorM options) (opt_CompositeMode options)).

(** ** At *)

Definition At (i : ptr) (x y : Z) : Proc color :=
  fun w0 =>
    if negb (loop_running w0)
    then Panics "ebiten: At can't be called when the GL context is not initialized (this panic happens as of version 1.4.0-alpha)"
    else
      locked i (
        s <- load i ;;
        if disposed s then ret color_Transparent
        else
          (match pixels s, drawImageHistory s with
           | Some _, [] => ret tt
           | _, _ =>
               r <- gpu_Pixels (image s) ui_GLContext ;;
               store i (set_pixels (fst r)) ;;;
               match snd r with
               | Some err => panic "graphics.Image.Pixels failed"
               | None => store i (set_drawImageHistory [])
               end
           end) ;;;
          s <- load i ;;
          let idx := GoInt.add (GoInt.mul 4 x)
                       (GoInt.mul (GoInt.mul 4 y) (width s)) in
          let px := default [] (pixels s) in
          r <- must out_of_range (GoSlice.index px idx) ;;
          g <- must out_of_range (GoSlice.index px (GoInt.add idx 1)) ;;
          b <- must out_of_range (GoSlice.index px (GoInt.add idx 2)) ;;
          a <- must out_of_range (GoSlice.index px (GoInt.add idx 3)) ;;
          ret (color_RGBA r g b a)) w0.

(** ** The draw history *)

Definition hasHistoryWith (s : imageImpl) (target : ptr) : bool :=
  existsb (fun c => Nat.eqb (item_image c) target) (drawImageHistory s).

Definition resetHistoryIfNeeded (i : ptr) (target : ptr) : Proc (option error) :=
  locked i (
    s <- load i ;;
    if disposed s then ret None
    else
      match drawImageHistory s with
      | [] => ret None
      | _ :: _ =>
          if negb (hasHistoryWith s target) then ret None
          else
            r <- gpu_Pixels (image s) ui_GLContext ;;
            store i (set_pixels (fst r)) ;;;
            match snd r with
            | Some err => ret None
            | None =>
                store i (set_baseColor None) ;;;
                store i (set_drawImageHistory []) ;;;
                ret None
            end
      end).

Definition hasHistory (i : ptr) : Proc bool :=
  locked i (
    s <- load i ;;
    ret (match drawImageHistory s with [] => false | _ :: _ => true end)).

(** ** restore *)

(** The loop [for j := 0; j < i.height; j++] that copies the pixel cache into
    [img.Pix] row by row: [n] rows are left and [j] is the next one. *)
Fixpoint copy_rows (n : nat) (j width stride : Z) (src pix : list Z)
  : option (list Z) :=
  match n with
  | O => Some pix
  | S n' =>
      match GoSlice.slice_from pix (GoInt.mul j stride),
            GoSlice.slice src (GoInt.mul (GoInt.mul j width) 4)
              (GoInt.mul (GoInt.mul (GoInt.add j 1) width) 4) with
      | Some d, Some row =>
          copy_rows n' (GoInt.add j 1) width stride src
            (take (Z.to_nat (GoInt.mul j stride)) pix ++ GoSlice.copy d row)
      | _, _ => None
      end
  end.

(** The loop [for idx := 0; idx < len(img.Pix)/4; idx++] that writes one
    colour to every pixel; its four indices are always in range. *)
Definition broadcast (pix : list Z) (r g b a : Z) : list Z :=
  foldl
    (fun p idx =>
       <[(4 * idx + 3)%nat := a]>
         (<[(4 * idx + 2)%nat := b]>
            (<[(4 * idx + 1)%nat := g]> (<[(4 * idx)%nat := r]> p))))
    pix (seq 0 (length pix / 4)).

(** The RGBA image that [restore] uploads for an image that is neither the
    screen nor volatile; [None] when building it panics. *)
Definition restore_buffer (s : imageImpl) : option image_RGBA :=
  match image_NewRGBA (width s) (height s) with
  | None => None
  | Some img =>
      match pixels s with
      | Some px =>
          match copy_rows (Z.to_nat (height s)) 0 (width s) (Stride img) px
                  (Pix img) with
          | Some pix =>
              Some {| Pix := pix; Stride := Stride img; Dx := Dx img;
                      Dy := Dy img |}
          | None => None
          end
      | None =>
          match baseColor s with
          | Some c =>
              let '(r32, g32, b32, a32) := RGBA_of c in
              Some {| Pix := broadcast (Pix img) (GoInt.uint8 r32)
                               (GoInt.uint8 g32) (GoInt.uint8 b32)
                               (GoInt.uint8 a32);
                      Stride := Stride img; Dx := Dx img; Dy := Dy img |}
          | None => Some img
          end
      end
  end.

(** The loop [for _, c := range i.drawImageHistory] of [restore]. *)
Fixpoint replay (i : ptr) (cs : list drawImageHistoryItem)
  : Proc (option error) :=
  match cs with
  | [] => ret None
  | c :: cs' =>
      h <- hasHistory (item_image c) ;;
      if h then panic "not reach"
      else
        dst <- load i ;;
        src <- load (item_image c) ;;
        e <- gpu_DrawImage (image dst) (image src) (item_vertices c)
               (item_geom c) (item_colorm c) (item_mode c) ;;
        match e with
        | Some err => ret (Some err)
        | None => replay i cs'
        end
  end.

Definition restore (i : ptr) (context : GLContext) : Proc (option error) :=
  locked i (
    s <- load i ;;
    if disposed s then ret None
    else if screen s then
      r <- gpu_NewScreenFramebufferImage (width s) (height s) ;;
      store i (set_image (fst r)) ;;;
      ret (snd r)
    else if negb (volatile s) then
      img <- must "slice bounds out of range" (restore_buffer s) ;;
      r <- gpu_NewImageFromImage img (filter s) ;;
      store i (set_image (fst r)) ;;;
      match snd r with
      | Some err => ret (Some err)
      | None =>
          e <- replay i (drawImageHistory s) ;;
          match e with
          | Some err => ret (Some err)
          | None =>
              e <- (if 0 <? GoSlice.len (drawImageHistory s)
                    then
                      dst <- load i ;;
                      r <- gpu_Pixels (image dst) context ;;
                      store i (set_pixels (fst r)) ;;;
                      ret (snd r)
                    else ret None) ;;
              match e with
              | Some err => ret (Some err)
              | None =>
                  store i (set_baseColor None) ;;;
                  store i (set_drawImageHistory []) ;;;
                  ret None
              end
          end
      end
    else
      r <- gpu_NewImage (width s) (height s) (filter s) ;;
      store i (set_image (fst r)) ;;;
      ret (snd r)).

(** ** Dispose and ReplacePixels *)

Definition Dispose (i : ptr) : Proc (option error) :=
  locked i (
    s <- load i ;;
    if disposed s then ret (Some ErrAlreadyDisposed)
    else
      e <- (if negb (screen s) then gpu_Dispose (image s) else ret None) ;;
      match e with
      | Some err => ret (Some err)
      | None =>
          store i (set_image None) ;;;
          store i (set_disposed true) ;;;
          store i (set_pixels None) ;;;
          store i (set_baseColor None) ;;;
          store i (set_drawImageHistory []) ;;;
          SetFinalizer i false ;;;
          ret None
      end).

(** [4 * i.width * i.height] *)
Definition byte_size (s : imageImpl) : Z :=
  GoInt.mul (GoInt.mul 4 (width s)) (height s).

Definition ReplacePixels (i : ptr) (p : list Z) : Proc (option error) :=
  s <- load i ;;
  let l := byte_size s in
  if negb (GoSlice.len p =? l) then ret (Some (ErrLength l))
  else
    locked i (
      s <- load i ;;
      (match pixels s with
       | None =>
           px <- must "makeslice: len out of range"
                   (GoSlice.make (GoInt.mul (GoInt.mul (width s) (height s)) 4)) ;;
           store i (set_pixels (Some px))
       | Some _ => ret tt
       end) ;;;
      s <- load i ;;
      store i (set_pixels (Some (GoSlice.copy (default [] (pixels s)) p))) ;;;
      store i (set_baseColor None) ;;;
      store i (set_drawImageHistory []) ;;;
      s <- load i ;;
      if disposed s then ret (Some ErrAlreadyDisposed)
      else gpu_ReplacePixels (image s) p).

Definition isDisposed (i : ptr) : Proc bool :=
  locked i (s <- load i ;; ret (disposed s)).

Definition isInvalidated (i : ptr) (context : GLContext) : Proc bool :=
  locked i (
    s <- load i ;;
    t <- must nil_dereference (image s) ;;
    fun w => Returns (graphics_IsInvalidated t context (device w)) w).

End Operations.

(** ** A software platform *)

Module SoftGPU.

(** A texture is its size and its RGBA bytes, row by row. *)
Record texture := { tex_w : Z; tex_h : Z; tex_pix : list Z }.

(** The device: the live textures by name, and the next free name.  Names
    are never handed out twice. *)
Record state := { textures : gmap nat texture; next : nat }.

Definition empty : state := {| textures := ∅; next := O |}.

Definition ErrLost : error := errors_New "graphics: the texture is lost".
Definition ErrUnsupported : error := errors_New "graphics: unsupported draw".

Definition create (t : texture) (g : state)
  : (option nat * option error) * state :=
  ((Some (next g), None),
   {| textures := <[next g := t]> (textures g); next := S (next g) |}).

Definition NewImage (w h : Z) (_ : Filter) (g : state) :=
  create {| tex_w := w; tex_h := h;
            tex_pix := solid (Z.to_nat (w * h)) 0 0 0 0 |} g.

Definition NewImageFromImage (img : image_RGBA) (_ : Filter) (g : state) :=
  create {| tex_w := Dx img; tex_h := Dy img; tex_pix := Pix img |} g.

Definition NewScreenFramebufferImage (w h : Z) (g : state) :=
  create {| tex_w := w; tex_h := h;
            tex_pix := solid (Z.to_nat (w * h)) 0 0 0 0 |} g.

Definition update (t : nat) (f : texture -> texture) (g : state)
  : option error * state :=
  match textures g !! t with
  | Some tx => (None, {| textures := <[t := f tx]> (textures g); next := next g |})
  | None => (Some ErrLost, g)
  end.

(** The 16-bit channels of a colour, cut down to bytes. *)
Definition Fill (t : nat) (c : color) (g : state) : option error * state :=
  let '(r, gr, b, a) := RGBA_of c in
  update t
    (fun tx =>
       {| tex_w := tex_w tx; tex_h := tex_h tx;
          tex_pix := solid (length (tex_pix tx) / 4) (Z.shiftr r 8)
                       (Z.shiftr gr 8) (Z.shiftr b 8) (Z.shiftr a 8) |}) g.

(** Source-over of premultiplied bytes, pixel by pixel. *)
Fixpoint source_over (dst src : list Z) : list Z :=
  match dst, src with
  | dr :: dg :: db :: da :: dst', sr :: sg :: sb :: sa :: src' =>
      (sr + dr * (255 - sa) / 255) :: (sg + dg * (255 - sa) / 255)
      :: (sb + db * (255 - sa) / 255) :: (sa + da * (255 - sa) / 255)
      :: source_over dst' src'
  | _, _ => dst
  end.

(** A part: its destination and its source rectangle, each as x0, y0, x1, y1. *)
Definition rect : Type := Z * Z * Z * Z.
Definition parts : Type := list (rect * rect).

Definition whole (w h : Z) : parts := [((0, 0, w, h), (0, 0, w, h))].

Definition quad (d s : rect) : list Z :=
  let '(x0, y0, x1, y1) := d in
  let '(u0, v0, u1, v1) := s in
  [x0; y0; u0; v0; x1; y0; u1; v0; x0; y1; u0; v1; x1; y1; u1; v1].

Definition is_empty (r : rect) : bool :=
  let '(x0, y0, x1, y1) := r in (x0 =? x1) || (y0 =? y1).

(** The quads of the parts that are not empty, sixteen numbers each, written
    from the start of the buffer. *)
Definition vertices (ps : parts) (_ _ : Z) (buf : list Z) : list Z * Z :=
  let kept := List.filter (fun p => negb (is_empty (fst p) || is_empty (snd p))) ps in
  let vs := flat_map (fun p => quad (fst p) (snd p)) kept in
  (GoSlice.copy buf vs, GoSlice.len kept).

(** Drawing knows one case: the whole of a source onto a destination of the
    same size, source-over; quads of no area draw nothing. *)
Fixpoint draw_quads (fuel : nat) (vs : list Z) (src dst : texture)
  : option texture :=
  match fuel with
  | O => Some dst
  | S fuel' =>
      match vs with
      | x0 :: y0 :: u0 :: v0 :: x1 :: _ :: u1 :: _ :: _ :: y1 :: _ :: v1
        :: _ :: _ :: _ :: _ :: vs' =>
          if (x0 =? x1) || (y0 =? y1) then draw_quads fuel' vs' src dst
          else if (x0 =? 0) && (y0 =? 0) && (u0 =? 0) && (v0 =? 0)
                  && (x1 =? tex_w src) && (y1 =? tex_h src)
                  && (u1 =? tex_w src) && (v1 =? tex_h src)
                  && (tex_w dst =? tex_w src) && (tex_h dst =? tex_h src)
          then draw_quads fuel' vs' src
                 {| tex_w := tex_w dst; tex_h := tex_h dst;
                    tex_pix := source_over (tex_pix dst) (tex_pix src) |}
          else None
      | _ => Some dst
      end
  end.

Definition DrawImage (dst src : nat) (vs : list Z) (_ _ : unit) (mode : Z)
    (g : state) : option error * state :=
  match textures g !! dst, textures g !! src with
  | Some d, Some s =>
      if mode =? 0 then
        match draw_quads (length vs) vs s d with
        | Some d' =>
            (None, {| textures := <[dst := d']> (textures g); next := next g |})
        | None => (Some ErrUnsupported, g)
        end
      else (Some ErrUnsupported, g)
  | _, _ => (Some ErrLost, g)
  end.

Definition Pixels (t : nat) (_ : unit) (g : state)
  : (option (list Z) * option error) * state :=
  match textures g !! t with
  | Some tx => ((Some (tex_pix tx), None), g)
  | None => ((None, Some ErrLost), g)
  end.

Definition ReplacePixels (t : nat) (p : list Z) (g : state) :=
  update t (fun tx => {| tex_w := tex_w tx; tex_h := tex_h tx; tex_pix := p |}) g.

Definition Dispose (t : nat) (g : state) : option error * state :=
  (None, {| textures := delete t (textures g); next := next g |}).

Definition IsInvalidated (t : nat) (_ : unit) (g : state) : bool :=
  match textures g !! t with Some _ => false | None => true end.

(** The loss of the GL context: every texture is gone. *)
Definition lose_context (g : state) : state :=
  {| textures := ∅; next := next g |}.

End SoftGPU.

(** Modelled from the spec: a platform to run the scenarios of section 8 on.
    The graphics package is not among the sources; this one keeps textures
    in memory, fills, uploads and reads them back, and composites a whole
    source over a destination of the same size.  It loses every texture
    when the context is lost. *)
#[local] Instance soft_types : Types := {|
  Handle := nat;
  GPU := SoftGPU.state;
  GLContext := unit;
  GeoM := unit;
  ColorM := unit;
  ImageParts := SoftGPU.parts;
  LegacyParts := SoftGPU.parts
|}.

#[local] Instance soft : Platform soft_types := {|
  zero_GeoM := tt;
  zero_ColorM := tt;
  ui_GLContext := tt;
  imageParts := fun ps => ps;
  wholeImage := SoftGPU.whole;
  parts_Len := fun ps => GoSlice.len ps;
  quads_vertices := SoftGPU.vertices;
  graphics_NewImage := SoftGPU.NewImage;
  graphics_NewImageFromImage := SoftGPU.NewImageFromImage;
  graphics_NewScreenFramebufferImage := SoftGPU.NewScreenFramebufferImage;
  graphics_Fill := SoftGPU.Fill;
  graphics_DrawImage := SoftGPU.DrawImage;
  graphics_Pixels := SoftGPU.Pixels;
  graphics_ReplacePixels := SoftGPU.ReplacePixels;
  graphics_Dispose := SoftGPU.Dispose;
  graphics_IsInvalidated := SoftGPU.IsInvalidated
|}.

Module Scenario.

Definition start : @World soft_types :=
  {| heap := ∅; device := SoftGPU.empty; loop_running := true;
     finalizers := ∅; trace := [] |}.

Definition opaque_red : color := color_RGBA 255 0 0 255.

(** The GL context is lost. *)
Definition lose_context : @Proc soft_types unit :=
  fun w => Returns tt (with_device (SoftGPU.lose_context (device w)) w).

Definition new_image (w h : Z) : @Proc soft_types ptr :=
  r <- newImageImpl w h FilterNearest false ;;
  must nil_dereference (fst r).

(** Image A, filled with opaque red, and image B, onto which the whole of A
    is drawn with the default options. *)
Definition setup (w h : Z) : @Proc soft_types (ptr * ptr) :=
  a <- new_image w h ;;
  Fill a opaque_red ;;;
  b <- new_image w h ;;
  DrawImage b a None ;;;
  ret (a, b).

Definition restore_A_then_B (w h : Z) : @Proc soft_types (ptr * ptr) :=
  ab <- setup w h ;;
  lose_context ;;;
  restore (fst ab) tt ;;;
  restore (snd ab) tt ;;;
  ret ab.

Definition restore_B_then_A (w h : Z) : @Proc soft_types (ptr * ptr) :=
  ab <- setup w h ;;
  lose_context ;;;
  restore (snd ab) tt ;;;
  restore (fst ab) tt ;;;
  ret ab.

Definition sample_B (run : @Proc soft_types (ptr * ptr)) (x y : Z) : @Proc soft_types color :=
  ab <- run ;; At (snd ab) x y.

Definition result {A} (o : @outcome soft_types A) : option A :=
  match o with
  | Returns a _ => Some a
  | _ => None
  end.

(** The world that a run leaves behind. *)
Definition after {A} (c : @Proc soft_types A) (w : @World soft_types) : @World soft_types :=
  match c w with
  | Returns _ w' => w'
  | _ => w
  end.

(** One blank image of 2 by 2 pixels, at address 0. *)
Definition one_image : @World soft_types :=
  Eval vm_compute in after (new_image 2 2) start.

Definition blank_2x2 : @imageImpl soft_types :=
  {| image := Some O; disposed := false; width := 2; height := 2;
     filter := FilterNearest; pixels := Some (repeat 0 16);
     baseColor := None; drawImageHistory := []; volatile := false;
     screen := false; m := false |}.

(** The same image after [Dispose]. *)
Definition one_disposed : @World soft_types :=
  Eval vm_compute in after (Dispose O) one_image.

Definition disposed_2x2 : @imageImpl soft_types :=
  {| image := None; disposed := true; width := 2; height := 2;
     filter := FilterNearest; pixels := None; baseColor := None;
     drawImageHistory := []; volatile := false; screen := false;
     m := false |}.

(** The image at an address. *)
Definition image_at (i : ptr) (w : @World soft_types) : @imageImpl soft_types :=
  default blank_2x2 (heap w !! i).

(** A at address 0, filled with opaque red alone. *)
Definition filled : @World soft_types :=
  Eval vm_compute in after (Fill O opaque_red) one_image.

(** A at address 0, filled; B at address 1, with A drawn onto it. *)
Definition drawn : @World soft_types :=
  Eval vm_compute in after (setup 2 2) start.

Definition drawn_lost : @World soft_types :=
  Eval vm_compute in after lose_context drawn.

Definition drawn_A_restored : @World soft_types :=
  Eval vm_compute in after (restore O tt) drawn_lost.

(** A third image at address 2, with B drawn onto it while B still has its
    history. *)
Definition chained_lost : @World soft_types :=
  Eval vm_compute in
    after (c <- new_image 2 2 ;; DrawImage c 1%nat None ;;; lose_context) drawn.

(** A live image of the scenario, by its texture, size and bookkeeping. *)
Definition image_of (t : nat) (w h : Z) (px : option (list Z))
    (bc : option color) (hist : list (@drawImageHistoryItem soft_types))
  : @imageImpl soft_types :=
  {| image := Some t; disposed := false; width := w; height := h;
     filter := FilterNearest; pixels := px; baseColor := bc;
     drawImageHistory := hist; volatile := false; screen := false;
     m := false |}.

(** The item that drawing the whole of A, at address 0, records. *)
Definition whole_item (w h : Z) : @drawImageHistoryItem soft_types :=
  {| item_image := O;
     item_vertices := SoftGPU.quad (0, 0, w, h) (0, 0, w, h);
     item_geom := tt; item_colorm := tt; item_mode := 0 |}.

(** The world [w] has the heap [hp] and the device [g], and the loop runs. *)
Definition looks (w : @World soft_types) (hp : gmap ptr (@imageImpl soft_types))
    (g : SoftGPU.state) : Prop :=
  heap w = hp /\ device w = g /\ loop_running w = true.

(** A texture of [w] by [h] pixels with the bytes [pix]. *)
Definition texture_of (w h : Z) (pix : list Z) : SoftGPU.texture :=
  {| SoftGPU.tex_w := w; SoftGPU.tex_h := h; SoftGPU.tex_pix := pix |}.

(** The device after one more texture. *)
Definition with_texture (tx : SoftGPU.texture) (g : SoftGPU.state)
  : SoftGPU.state :=
  {| SoftGPU.textures := <[SoftGPU.next g := tx]> (SoftGPU.textures g);
     SoftGPU.next := S (SoftGPU.next g) |}.

(** The first item of a history. *)
Definition first_item (s : @imageImpl soft_types) : @drawImageHistoryItem soft_types :=
  hd {| item_image := O; item_vertices := []; item_geom := tt;
        item_colorm := tt; item_mode := 0 |} (drawImageHistory s).

(** One filled image through two losses of the context. *)
Definition fill_restore_twice : @Proc soft_types color :=
  a <- new_image 2 2 ;;
  Fill a opaque_red ;;;
  lose_context ;;;
  restore a tt ;;;
  lose_context ;;;
  restore a tt ;;;
  At a 0 0.

Definition fill_restore_once : @Proc soft_types color :=
  a <- new_image 2 2 ;;
  Fill a opaque_red ;;;
  lose_context ;;;
  restore a tt ;;;
  At a 0 0.

(** Options that select no part at all. *)
Definition no_parts : @DrawImageOptions soft_types :=
  {| opt_ImageParts := Some []; opt_Parts := None; opt_GeoM := tt;
     opt_ColorM := tt; opt_CompositeMode := 0 |}.

End Scenario.

(** ** Vocabulary of the statements *)

Section Statements.

Context {T : Types} {P : Platform T}.

(** The world in which image [i] has the state [s]. *)
Definition update_image (i : ptr) (s : imageImpl) (w : World) : World :=
  with_heap (<[i := s]> (heap w)) w.

(** The world after the events [es]. *)
Definition log (es : list event) (w : World) : World :=
  with_trace (trace w ++ es) w.

(** The bookkeeping of an image: what it could be rebuilt from. *)
Definition bookkeeping (s : imageImpl)
  : option (list Z) * option color * list drawImageHistoryItem :=
  (pixels s, baseColor s, drawImageHistory s).

(** The byte offset of the pixel (x, y) in the pixel cache of [s]. *)
Definition pixel_offset (s : imageImpl) (x y : Z) : Z := 4 * (x + y * width s).

(** The colour whose four bytes start at [off] in [buf]. *)
Definition rgba_at (buf : list Z) (off : Z) : option color :=
  match buf !! Z.to_nat off, buf !! Z.to_nat (off + 1),
        buf !! Z.to_nat (off + 2), buf !! Z.to_nat (off + 3) with
  | Some r, Some g, Some b, Some a => Some (color_RGBA r g b a)
  | _, _, _, _ => None
  end.

(** What replaying the item [c] onto the texture [t] does, when the source
    of [c] is in the heap [h] and has a texture: it asks the source whether
    it has a history, which takes its mutex, and draws. *)
Definition replay_events (h : gmap ptr imageImpl) (t : Handle)
    (c : drawImageHistoryItem) : list event :=
  match h !! item_image c with
  | Some sc =>
      match image sc with
      | Some tc =>
          [ev_Lock (item_image c); ev_Unlock (item_image c);
           ev_gpu (call_DrawImage t tc (item_vertices c) (item_geom c)
                     (item_colorm c) (item_mode c))]
      | None => []
      end
  | None => []
  end.

(** The device after the draws of the items [cs], one after the other in the
    order of the list, each from the texture its source has in [h]; [None]
    unless every source has a texture and every draw succeeds. *)
Fixpoint draws (h : gmap ptr imageImpl) (t : Handle)
    (cs : list drawImageHistoryItem) (g : GPU) : option GPU :=
  match cs with
  | [] => Some g
  | c :: cs' =>
      match h !! item_image c with
      | Some sc =>
          match image sc with
          | Some tc =>
              let r := graphics_DrawImage t tc (item_vertices c) (item_geom c)
                         (item_colorm c) (item_mode c) g in
              match fst r with
              | None => draws h t cs' (snd r)
              | Some _ => None
              end
          | None => None
          end
      | None => None
      end
  end.

(** The source of the item [c] is another image than [i], it has no history
    of its own, and its mutex is free. *)
Definition flat_source (h : gmap ptr imageImpl) (i : ptr)
    (c : drawImageHistoryItem) : Prop :=
  exists sc,
    h !! item_image c = Some sc /\ drawImageHistory sc = []
    /\ m sc = false /\ item_image c <> i.

Definition flat_sourceb (h : gmap ptr imageImpl) (i : ptr)
    (c : drawImageHistoryItem) : bool :=
  match h !! item_image c with
  | Some sc =>
      match drawImageHistory sc with
      | [] => negb (m sc) && negb (Nat.eqb (item_image c) i)
      | _ :: _ => false
      end
  | None => false
  end.

(** The calls that can be made on images, to state what holds after any
    sequence of them. *)
Inductive operation :=
| op_newImageImpl (width height : Z) (filter : Filter) (volatile : bool)
| op_newScreenImageImpl (width height : Z)
| op_Fill (i : ptr) (clr : color)
| op_clearIfVolatile (i : ptr)
| op_DrawImage (i image_ : ptr) (options : option DrawImageOptions)
| op_At (i : ptr) (x y : Z)
| op_resetHistoryIfNeeded (i target : ptr)
| op_hasHistory (i : ptr)
| op_restore (i : ptr) (context : GLContext)
| op_Dispose (i : ptr)
| op_ReplacePixels (i : ptr) (p : list Z)
| op_isDisposed (i : ptr)
| op_isInvalidated (i : ptr) (context : GLContext).

Definition perform (o : operation) : Proc unit :=
  match o with
  | op_newImageImpl w h f v => newImageImpl w h f v ;;; ret tt
  | op_newScreenImageImpl w h => newScreenImageImpl w h ;;; ret tt
  | op_Fill i clr => Fill i clr ;;; ret tt
  | op_clearIfVolatile i => clearIfVolatile i ;;; ret tt
  | op_DrawImage i image_ options => DrawImage i image_ options ;;; ret tt
  | op_At i x y => At i x y ;;; ret tt
  | op_resetHistoryIfNeeded i target => resetHistoryIfNeeded i target ;;; ret tt
  | op_hasHistory i => hasHistory i ;;; ret tt
  | op_restore i context => restore i context ;;; ret tt
  | op_Dispose i => Dispose i ;;; ret tt
  | op_ReplacePixels i p => ReplacePixels i p ;;; ret tt
  | op_isDisposed i => isDisposed i ;;; ret tt
  | op_isInvalidated i context => isInvalidated i context ;;; ret tt
  end.

Fixpoint perform_all (os : list operation) : Proc unit :=
  match os with
  | [] => ret tt
  | o :: os' => perform o ;;; perform_all os'
  end.

(** Image [i] exists and its state satisfies [J]. *)
Definition holds_at (J : imageImpl -> Prop) (i : ptr) (w : World) : Prop :=
  exists s, heap w !! i = Some s /\ J s.

(** A run that returns keeps [I]. *)
Definition preserves {A} (I : World -> Prop) (c : Proc A) : Prop :=
  forall w a w', I w -> c w = Returns a w' -> I w'.

(** A property of an image's state that no assignment made by the code
    breaks ([disposed] is only ever set to [true]). *)
Definition stable (J : imageImpl -> Prop) : Prop :=
  (forall v s, J s -> J (set_image v s))
  /\ (forall s, J s -> J (set_disposed true s))
  /\ (forall v s, J s -> J (set_pixels v s))
  /\ (forall v s, J s -> J (set_baseColor v s))
  /\ (forall v s, J s -> J (set_drawImageHistory v s))
  /\ (forall v s, J s -> J (set_m v s)).

(** The mutex of the image is free. *)
Definition unlocked (s : imageImpl) : Prop := m s = false.

End Statements.

(** ** newImageImplFromImage *)

(** [image.Rectangle]: the corners [Min] and [Max]. *)
Record image_Rectangle := { Min_X : Z; Min_Y : Z; Max_X : Z; Max_Y : Z }.

(** [r.Size()] *)
Definition Rectangle_Size (r : image_Rectangle) : Z * Z :=
  (GoInt.wrap (Max_X r - Min_X r), GoInt.wrap (Max_Y r - Min_Y r)).

(** The values of the interface [image.Image] that the constructor tells
    apart: a pointer to an [image.RGBA], with its fields, and any other
    implementation, of which the code itself reads the bounds only. *)
Inductive image_Image :=
| Image_RGBA (pix : list Z) (stride : Z) (rect : image_Rectangle)
| Image_other (rect : image_Rectangle) (colour_at : Z -> Z -> color).

Definition Image_Bounds (source : image_Image) : image_Rectangle :=
  match source with
  | Image_RGBA _ _ r => r
  | Image_other r _ => r
  end.

(** The type assertion to an RGBA image together with the test
    [source.Bounds().Min != image.ZP]: the image itself when it is an RGBA
    image at the origin. *)
Definition RGBA_at_origin (source : image_Image) : option image_RGBA :=
  match source with
  | Image_RGBA pix stride r =>
      if (Min_X r =? 0) && (Min_Y r =? 0)
      then Some {| Pix := pix; Stride := stride; Dx := Max_X r; Dy := Max_Y r |}
      else None
  | Image_other _ _ => None
  end.

(** The loop [for j := 0; j < h; j++] that copies the rows of [rgbaImg.Pix]
    into [pixels]: [n] rows are left and [j] is the next one. *)
Fixpoint pack_rows (n : nat) (j w : Z) (rgbaImg : image_RGBA) (pixels : list Z)
  : option (list Z) :=
  match n with
  | O => Some pixels
  | S n' =>
      let a := GoInt.mul (GoInt.mul j w) 4 in
      let b := GoInt.mul (GoInt.mul (GoInt.add j 1) w) 4 in
      match GoSlice.slice pixels a b,
            GoSlice.slice_from (Pix rgbaImg) (GoInt.mul j (Stride rgbaImg)) with
      | Some d, Some row =>
          pack_rows n' (GoInt.add j 1) w rgbaImg
            (take (Z.to_nat a) pixels ++ GoSlice.copy d row
             ++ drop (Z.to_nat b) pixels)
      | _, _ => None
      end
  end.

Section FromImage.

Context {T : Types} {P : Platform T}.

(** [draw.Draw(newImg, newImg.Bounds(), origImg, origImg.Bounds().Min,
    draw.Src)] of the package image/draw: the bytes of [newImg.Pix] after
    the call. *)
Variable draw_Draw : image_RGBA -> image_Image -> list Z.

Definition newImageImplFromImage (source : image_Image) (filter : Filter)
  : Proc (option ptr * option error) :=
  let size := Rectangle_Size (Image_Bounds source) in
  let w := fst size in
  let h := snd size in
  rgbaImg <- match RGBA_at_origin source with
             | Some img => ret img
             | None =>
                 newImg <- must "makeslice: len out of range"
                             (image_NewRGBA w h) ;;
                 ret {| Pix := draw_Draw newImg source;
                        Stride := Stride newImg;
                        Dx := Dx newImg; Dy := Dy newImg |}
             end ;;
  pixels <- must "makeslice: len out of range"
              (GoSlice.make (GoInt.mul (GoInt.mul 4 w) h)) ;;
  pixels <- must "slice bounds out of range"
              (pack_rows (Z.to_nat h) 0 w rgbaImg pixels) ;;
  r <- gpu_NewImageFromImage rgbaImg filter ;;
  match snd r with
  | Some err => ret (None, Some err)
  | None =>
      i <- alloc {| image := fst r; disposed := false; width := w;
                    height := h; filter := filter; pixels := Some pixels;
                    baseColor := None; drawImageHistory := [];
                    volatile := false; screen := false; m := false |} ;;
      SetFinalizer i true ;;;
      ret (Some i, None)
  end.

(** A call of a constructor or of a method: the operations on images, and
    [newImageImplFromImage]. *)
Inductive invocation :=
| on_images (o : operation)
| from_image (source : image_Image) (filter : Filter).

Definition invoke (c : invocation) : Proc unit :=
  match c with
  | on_images o => perform o
  | from_image source filter => newImageImplFromImage source filter ;;; ret tt
  end.

Fixpoint invoke_all (cs : list invocation) : Proc unit :=
  match cs with
  | [] => ret tt
  | c :: cs' => invoke c ;;; invoke_all cs'
  end.

End FromImage.

(** The rows of an image of [w] by [h] pixels, which start [stride] bytes
    apart in [pix], one after the other. *)
Definition packed (pix : list Z) (stride w : Z) (h : nat) : list Z :=
  flat_map
    (fun j => take (Z.to_nat (4 * w)) (drop (j * Z.to_nat stride) pix))
    (seq 0 h).

(** ** What holds of every image *)

Section Invariants.

Context {T : Types}.

(** A disposed image has no texture, no base colour and no history. *)
Definition disposed_is_bare (w : World) : Prop :=
  forall i s,
    heap w !! i = Some s -> disposed s = true ->
    image s = None /\ baseColor s = None /\ drawImageHistory s = [].

(** The source of every item of a history is another image, and it
    exists. *)
Definition sources_are_others (w : World) : Prop :=
  forall i s c,
    heap w !! i = Some s -> In c (drawImageHistory s) ->
    item_image c <> i /\ is_Some (heap w !! item_image c).

(** An image has a finalizer exactly while it is not disposed. *)
Definition finalizers_of_the_live (w : World) : Prop :=
  forall i s,
    heap w !! i = Some s -> (i ∈ finalizers w <-> disposed s = false).

(** No mutex is held. *)
Definition mutexes_free (w : World) : Prop :=
  forall i s, heap w !! i = Some s -> m s = false.

(** The fields of an image that are set when it is made. *)
Definition made_as (s : imageImpl) : Z * Z * Filter * bool * bool :=
  (width s, height s, filter s, volatile s, screen s).

(** The image that an operation is called on, when it is called on one. *)
Definition receiver (o : operation) : option ptr :=
  match o with
  | op_newImageImpl _ _ _ _ => None
  | op_newScreenImageImpl _ _ => None
  | op_Fill i _ => Some i
  | op_clearIfVolatile i => Some i
  | op_DrawImage i _ _ => Some i
  | op_At i _ _ => Some i
  | op_resetHistoryIfNeeded i _ => Some i
  | op_hasHistory i => Some i
  | op_restore i _ => Some i
  | op_Dispose i => Some i
  | op_ReplacePixels i _ => Some i
  | op_isDisposed i => Some i
  | op_isInvalidated i _ => Some i
  end.

Definition called_on (c : invocation) : option ptr :=
  match c with
  | on_images o => receiver o
  | from_image _ _ => None
  end.

(** [Q] holds of the result and the world of a run that returns. *)
Definition wp {A} (c : Proc A) (Q : A -> World -> Prop) (w : World) : Prop :=
  match c w with
  | Returns a w' => Q a w'
  | _ => True
  end.

End Invariants.

(** ** Further worlds of the software platform *)

Module Cases.

(** One blank volatile image of 2 by 2 pixels, at address 0. *)
Definition one_volatile : @World soft_types :=
  Eval vm_compute in
    Scenario.after (newImageImpl 2 2 FilterNearest true) Scenario.start.

Definition volatile_2x2 : @imageImpl soft_types :=
  {| image := Some O; disposed := false; width := 2; height := 2;
     filter := FilterNearest; pixels := Some (repeat 0 16);
     baseColor := None; drawImageHistory := []; volatile := true;
     screen := false; m := false |}.

(** The screen, 2 by 2 pixels, at address 0. *)
Definition one_screen : @World soft_types :=
  Eval vm_compute in Scenario.after (newScreenImageImpl 2 2) Scenario.start.

Definition screen_2x2 : @imageImpl soft_types :=
  {| image := Some O; disposed := false; width := 2; height := 2;
     filter := FilterNearest; pixels := Some (repeat 0 16);
     baseColor := None; drawImageHistory := []; volatile := true;
     screen := true; m := false |}.

(** A at address 0, filled with opaque red, and a blank B at address 1. *)
Definition two_images : @World soft_types :=
  Eval vm_compute in
    Scenario.after
      (a <- Scenario.new_image 2 2 ;;
       Fill a Scenario.opaque_red ;;;
       Scenario.new_image 2 2)
      Scenario.start.

(** A and B of the scenario, with B disposed. *)
Definition drawn_B_disposed : @World soft_types :=
  Eval vm_compute in Scenario.after (Dispose 1%nat) Scenario.drawn.

(** The vertices of the whole of an image of 2 by 2 pixels. *)
Definition whole_2x2 : list Z :=
  [0; 0; 0; 0; 2; 0; 2; 0; 0; 2; 0; 2; 2; 2; 2; 2].

(** The software platform with one kind of call failing: making a texture,
    releasing one, or reading one back. *)
Inductive fault := fault_create | fault_release | fault_readback.

Definition ErrFault : error := errors_New "graphics: the call failed".

Definition faulty (f : fault) : Platform soft_types :=
  {| zero_GeoM := tt;
     zero_ColorM := tt;
     ui_GLContext := tt;
     imageParts := fun ps => ps;
     wholeImage := SoftGPU.whole;
     parts_Len := fun ps => GoSlice.len ps;
     quads_vertices := SoftGPU.vertices;
     graphics_NewImage := fun w h fl g =>
       match f with
       | fault_create => ((None, Some ErrFault), g)
       | _ => SoftGPU.NewImage w h fl g
       end;
     graphics_NewImageFromImage := fun img fl g =>
       match f with
       | fault_create => ((None, Some ErrFault), g)
       | _ => SoftGPU.NewImageFromImage img fl g
       end;
     graphics_NewScreenFramebufferImage := fun w h g =>
       match f with
       | fault_create => ((None, Some ErrFault), g)
       | _ => SoftGPU.NewScreenFramebufferImage w h g
       end;
     graphics_Fill := SoftGPU.Fill;
     graphics_DrawImage := SoftGPU.DrawImage;
     graphics_Pixels := fun t ctx g =>
       match f with
       | fault_readback => ((None, Some ErrFault), g)
       | _ => SoftGPU.Pixels t ctx g
       end;
     graphics_ReplacePixels := SoftGPU.ReplacePixels;
     graphics_Dispose := fun t g =>
       match f with
       | fault_release => (Some ErrFault, g)
       | _ => SoftGPU.Dispose t g
       end;
     graphics_IsInvalidated := SoftGPU.IsInvalidated |}.

(** A stand-in for [draw.Draw] that leaves the new image as it is. *)
Definition draw_nothing : image_RGBA -> image_Image -> list Z :=
  fun newImg _ => Pix newImg.

(** An RGBA image of 2 by 2 pixels at the origin whose rows start 12 bytes
    apart. *)
Definition padded_pix : list Z :=
  [1; 2; 3; 4; 5; 6; 7; 8; 0; 0; 0; 0; 11; 12; 13; 14; 15; 16; 17; 18].

Definition padded : image_Image :=
  Image_RGBA padded_pix 12
    {| Min_X := 0; Min_Y := 0; Max_X := 2; Max_Y := 2 |}.

(** An image of 2 by 2 pixels that is not an RGBA image. *)
Definition plain : image_Image :=
  Image_other {| Min_X := 3; Min_Y := 5; Max_X := 5; Max_Y := 7 |}
    (fun _ _ => Scenario.opaque_red).

(** A stand-in for [draw.Draw] that writes the colour of the corner of the
    source to every pixel. *)
Definition draw_corner : image_RGBA -> image_Image -> list Z :=
  fun newImg source =>
    match source with
    | Image_RGBA pix _ _ => Pix newImg
    | Image_other r colour_at =>
        let '(r32, g32, b32, a32) := RGBA_of (colour_at (Min_X r) (Min_Y r)) in
        solid (length (Pix newImg) / 4) (Z.shiftr r32 8) (Z.shiftr g32 8)
          (Z.shiftr b32 8) (Z.shiftr a32 8)
    end.

(** A run from the start: A is made and filled, B is made and A drawn onto
    it, a third image is made from [padded], B is sampled, and A is
    disposed and then written to. *)
Definition session : list (@invocation soft_types) :=
  [on_images (op_newImageImpl 2 2 FilterNearest false);
   on_images (op_Fill O Scenario.opaque_red);
   on_images (op_newImageImpl 2 2 FilterNearest false);
   on_images (op_DrawImage 1%nat O None);
   from_image padded FilterNearest;
   on_images (op_At 1%nat 0 0);
   on_images (op_DrawImage 2%nat 1%nat None);
   on_images (op_Dispose O);
   on_images (op_ReplacePixels O (repeat 7 16))].

Definition after_session : @World soft_types :=
  Eval vm_compute in
    Scenario.after (invoke_all draw_nothing session) Scenario.start.

(** A run after the context was lost and A restored: B is restored, which
    asks A for its history and draws from A, and B is sampled and filled. *)
Definition on_B : list (@invocation soft_types) :=
  [on_images (op_restore 1%nat tt);
   on_images (op_At 1%nat 0 0);
   on_images (op_Fill 1%nat Scenario.opaque_red);
   on_images (op_newImageImpl 2 2 FilterNearest true)].

Definition after_on_B : @World soft_types :=
  Eval vm_compute in
    Scenario.after (invoke_all draw_nothing on_B) Scenario.drawn_A_restored.

(** [color.Alpha16{0x8000}], half coverage: every channel of its [RGBA]
    method is 0x8000, so its bytes are 128. *)
Definition half_alpha : color := color_Alpha16 32768.

(** [color.NRGBA{200, 0, 0, 100}], by what its [RGBA] method returns:
    0xc8c8 * 0x6464 / 0xffff = 0x4ebc for red and 0x6464 for alpha, so its
    bytes are 78, 0, 0 and 100. *)
Definition nrgba_200_0_0_100 : color := color_Other 20156 0 0 25700.

(** An image of 2 by 2 pixels is filled, and the context is lost. *)
Definition fill_lose (c : color) : @Proc soft_types ptr :=
  a <- Scenario.new_image 2 2 ;;
  Fill a c ;;;
  Scenario.lose_context ;;;
  ret a.

(** The colour that a filled image shows. *)
Definition fill_sample (c : color) : @Proc soft_types color :=
  a <- Scenario.new_image 2 2 ;;
  Fill a c ;;;
  At a 0 0.

(** The colour that it shows once restored after the loss of the context. *)
Definition fill_restore_sample (c : color) : @Proc soft_types color :=
  a <- fill_lose c ;;
  restore a tt ;;;
  At a 0 0.

End Cases.

(** * Properties *)

Section Proofs.

Context {T : Types} {P : Platform T}.

Implicit Types (w : World) (i : ptr) (s : imageImpl).

(** ** Running the steps *)

Lemma world_eta w :
  {| heap := heap w; device := device w; loop_running := loop_running w;
     finalizers := finalizers w; trace := trace w |} = w.
Proof. by destruct w. Qed.

Lemma bind_ret {A B} (a : A) (k : A -> Proc B) w : bind (ret a) k w = k a w.
Proof. reflexivity. Qed.

Lemma bind_bind {A B C} (c : Proc A) (k : A -> Proc B) (k' : B -> Proc C) w :
  bind (bind c k) k' w = bind c (fun a => bind (k a) k') w.
Proof. unfold bind. by destruct (c w). Qed.

Lemma bind_load {B} i s (k : imageImpl -> Proc B) w :
  heap w !! i = Some s -> bind (load i) k w = k s w.
Proof. intros H. unfold bind, load. by rewrite H. Qed.

Lemma bind_store {B} i s f (k : unit -> Proc B) w :
  heap w !! i = Some s ->
  bind (store i f) k w = k tt (update_image i (f s) w).
Proof. intros H. unfold bind, store. by rewrite H. Qed.

Lemma bind_emit {B} e (k : unit -> Proc B) w :
  bind (emit e) k w = k tt (log [e] w).
Proof. reflexivity. Qed.

Lemma bind_must {A B} msg (a : A) (k : A -> Proc B) w :
  bind (must msg (Some a)) k w = k a w.
Proof. reflexivity. Qed.

Lemma bind_gpu_step {A B} c (f : GPU -> A * GPU) (k : A -> Proc B) w :
  bind (gpu_step c f) k w
  = k (fst (f (device w))) (log [ev_gpu c] (with_device (snd (f (device w))) w)).
Proof. reflexivity. Qed.

Lemma bind_SetFinalizer {B} i on (k : unit -> Proc B) w :
  bind (SetFinalizer i on) k w
  = k tt (log [ev_SetFinalizer i on]
            (with_finalizers
               (if on then {[i]} ∪ finalizers w else finalizers w ∖ {[i]}) w)).
Proof. reflexivity. Qed.

Lemma bind_alloc {B} s0 (k : ptr -> Proc B) w :
  bind (alloc s0) k w
  = k (fresh (dom (heap w))) (update_image (fresh (dom (heap w))) s0 w).
Proof. reflexivity. Qed.

Lemma bind_Lock {B} i s (k : unit -> Proc B) w :
  heap w !! i = Some s -> m s = false ->
  bind (Lock i) k w = k tt (log [ev_Lock i] (update_image i (set_m true s) w)).
Proof.
  intros H Hm. unfold Lock. rewrite bind_bind, (bind_load _ _ _ _ H), Hm.
  by rewrite bind_bind, (bind_store _ _ _ _ _ H).
Qed.

Lemma bind_Unlock {B} i s (k : unit -> Proc B) w :
  heap w !! i = Some s ->
  bind (Unlock i) k w = k tt (log [ev_Unlock i] (update_image i (set_m false s) w)).
Proof.
  intros H. unfold Unlock. by rewrite bind_bind, (bind_store _ _ _ _ _ H).
Qed.

Lemma bind_locked {A B} i s (body : Proc A) (k : A -> Proc B) w :
  heap w !! i = Some s -> m s = false ->
  bind (locked i body) k w
  = bind body (fun r => Unlock i ;;; k r)
      (log [ev_Lock i] (update_image i (set_m true s) w)).
Proof.
  intros H Hm. unfold locked.
  rewrite bind_bind, (bind_Lock _ _ _ _ H Hm), bind_bind.
  unfold bind. destruct (body _); try reflexivity.
  destruct (Unlock _ _); reflexivity.
Qed.

Lemma run_locked {A} i s (body : Proc A) w :
  heap w !! i = Some s -> m s = false ->
  locked i body w
  = bind body (fun r => Unlock i ;;; ret r)
      (log [ev_Lock i] (update_image i (set_m true s) w)).
Proof.
  intros H Hm. unfold locked. by rewrite (bind_Lock _ _ _ _ H Hm).
Qed.

(** Symbolic execution: one step of a run, and the lookups it asks for. *)
Ltac heap_solve :=
  cbn [heap log with_trace with_device with_finalizers update_image with_heap];
  first [ eassumption | apply lookup_insert_eq ].

Ltac step :=
  first
    [ rewrite bind_bind
    | rewrite bind_ret
    | rewrite bind_must
    | rewrite bind_emit
    | rewrite bind_gpu_step
    | rewrite bind_SetFinalizer
    | rewrite bind_alloc
    | erewrite bind_load by heap_solve
    | erewrite bind_store by heap_solve
    | erewrite bind_Unlock by heap_solve ].

Ltac fields :=
  cbn [image disposed width height filter pixels baseColor drawImageHistory
       volatile screen m set_image set_disposed set_pixels set_baseColor
       set_drawImageHistory set_m from_option id negb fst snd
       heap device loop_running finalizers trace log with_trace with_device
       with_finalizers update_image with_heap].

Lemma world_ext w w' :
  heap w = heap w' -> device w = device w' ->
  loop_running w = loop_running w' -> finalizers w = finalizers w' ->
  trace w = trace w' -> w = w'.
Proof. destruct w, w'; simpl; by intros -> -> -> -> ->. Qed.

(** Two worlds are equal when their fields are. *)
Ltac world_eq :=
  apply world_ext; fields;
  [ rewrite ?insert_insert_eq; try reflexivity
  | try reflexivity
  | try reflexivity
  | try reflexivity
  | rewrite <- ?app_assoc; try reflexivity ].

Ltac run := repeat first [ step | progress fields ].

(** ** ReplacePixels: the length check *)

(** When the product does not overflow, [byte_size] is [4*width*height]. *)
Lemma wrap_exact z : GoInt.in_range z -> GoInt.wrap z = z.
Proof.
  unfold GoInt.in_range, GoInt.wrap. intros H.
  rewrite Z.mod_small; lia.
Qed.

Lemma byte_size_exact s :
  0 <= width s -> 0 <= height s -> 4 * width s * height s < 2 ^ 63 ->
  byte_size s = 4 * width s * height s.
Proof.
  intros Hw Hh Hb. unfold byte_size, GoInt.mul.
  destruct (Z.eq_dec (height s) 0) as [E|E].
  - rewrite E, !Z.mul_0_r. by apply wrap_exact.
  - rewrite (wrap_exact (4 * width s)) by (unfold GoInt.in_range; nia).
    apply wrap_exact. unfold GoInt.in_range; nia.
Qed.

(** C7. [ReplacePixels] with a buffer whose length is not [4*width*height]
    (the product as the code computes it, [byte_size]) returns the length
    error and leaves the whole world as it was: no field of the image, no
    lock, no call into the graphics package. *)
Theorem ReplacePixels_size_mismatch w i s (p : list Z) :
  heap w !! i = Some s ->
  GoSlice.len p ≠ byte_size s ->
  ReplacePixels i p w = Returns (Some (ErrLength (byte_size s))) w.
Proof.
  intros H Hl. unfold ReplacePixels. rewrite (bind_load _ _ _ _ H).
  destruct (Z.eqb_spec (GoSlice.len p) (byte_size s)); [contradiction|].
  reflexivity.
Qed.

(** ** DrawImage: the early returns *)

(** C10. When the vertex computation yields no quad, [DrawImage] returns nil
    at once, whatever the receiver is: the world is untouched, so no lock
    was taken, no item recorded and no graphics call made, and neither the
    self-draw check nor the disposed check was reached. *)
Theorem DrawImage_no_vertices w i image_ options src (vs : list Z) :
  heap w !! image_ = Some src ->
  DrawImage_vertices (default zero_DrawImageOptions options) src = Some (vs, 0) ->
  DrawImage i image_ options w = Returns None w.
Proof.
  intros H Hv. unfold DrawImage. rewrite (bind_load _ _ _ _ H), Hv.
  reflexivity.
Qed.

(** C4 (amended). When the vertex computation yields at least one quad,
    [DrawImage] with the receiver as its source returns the same-image error
    and leaves the whole world as it was; no lock is taken. *)
Theorem DrawImage_self_rejected w i options s (vs : list Z) (n : Z) :
  heap w !! i = Some s ->
  DrawImage_vertices (default zero_DrawImageOptions options) s = Some (vs, n) ->
  n ≠ 0 ->
  DrawImage i i options w = Returns (Some ErrSameImage) w.
Proof.
  intros H Hv Hn. unfold DrawImage. rewrite (bind_load _ _ _ _ H), Hv.
  rewrite bind_must. simpl.
  destruct (Z.eqb_spec n 0); [contradiction|].
  by rewrite Nat.eqb_refl.
Qed.

(** ** ReplacePixels on a disposed image *)

Lemma wrap_mod z : GoInt.wrap z mod 2 ^ 64 = z mod 2 ^ 64.
Proof.
  unfold GoInt.wrap. rewrite Zminus_mod_idemp_l. f_equal. lia.
Qed.

Lemma wrap_congr a b : a mod 2 ^ 64 = b mod 2 ^ 64 -> GoInt.wrap a = GoInt.wrap b.
Proof.
  intros H. unfold GoInt.wrap.
  rewrite <- (Z.add_mod_idemp_l a), <- (Z.add_mod_idemp_l b), H by lia.
  reflexivity.
Qed.

(** [width*height*4] and [4*width*height] are the same [int]. *)
Lemma mul_4_comm (a b : Z) :
  GoInt.mul (GoInt.mul a b) 4 = GoInt.mul (GoInt.mul 4 a) b.
Proof.
  unfold GoInt.mul. apply wrap_congr.
  rewrite <- Z.mul_mod_idemp_l, wrap_mod, Z.mul_mod_idemp_l by lia.
  rewrite <- (Z.mul_mod_idemp_l (GoInt.wrap _)), wrap_mod, Z.mul_mod_idemp_l by lia.
  f_equal. lia.
Qed.

Lemma make_len {A} (p : list A) :
  GoSlice.make (GoSlice.len p) = Some (repeat 0 (length p)).
Proof.
  unfold GoSlice.make, GoSlice.len.
  destruct (Z.ltb_spec (Z.of_nat (length p)) 0); [lia|].
  by rewrite Nat2Z.id.
Qed.

Lemma copy_same_length {A} (dst src : list A) :
  length dst = length src -> GoSlice.copy dst src = src.
Proof.
  intros H. unfold GoSlice.copy.
  rewrite H, firstn_all, drop_ge by lia. apply app_nil_r.
Qed.

(** C6. On a disposed image [ReplacePixels] with a buffer of the right length
    returns the already-disposed error, and yet the image has changed: the
    buffer was copied into the pixel cache (allocated when it was nil), and
    the base colour and the history were cleared, all before the disposed
    flag was looked at.  No graphics call is made. *)
Theorem ReplacePixels_disposed w i s (p : list Z) :
  heap w !! i = Some s -> m s = false -> disposed s = true ->
  GoSlice.len p = byte_size s ->
  exists cache,
    ReplacePixels i p w
    = Returns (Some ErrAlreadyDisposed)
        (log [ev_Lock i; ev_Unlock i]
           (update_image i
              (set_drawImageHistory []
                 (set_baseColor None (set_pixels (Some cache) s))) w))
    /\ cache = GoSlice.copy (default (repeat 0 (length p)) (pixels s)) p
    /\ (pixels s = None -> cache = p).
Proof.
  intros H Hm Hd Hl. eexists. split; [|split; [reflexivity|]].
  - unfold ReplacePixels. rewrite (bind_load _ _ _ _ H).
    rewrite Hl, Z.eqb_refl. cbn [negb].
    rewrite (run_locked _ _ _ _ H Hm).
    destruct s as [im di wi he fi px bc hi vo sc mm]; simpl in *; subst.
    unfold byte_size in Hl; simpl in Hl.
    destruct px as [old|].
    + run. f_equal. world_eq.
    + run. rewrite mul_4_comm, <- Hl, make_len.
      run. f_equal. world_eq.
  - intros ->. simpl. apply copy_same_length. by rewrite repeat_length.
Qed.

(** ** What every operation keeps *)

Lemma bind_inv {A B} (c : Proc A) (k : A -> Proc B) w b w' :
  bind c k w = Returns b w' ->
  exists a w1, c w = Returns a w1 /\ k a w1 = Returns b w'.
Proof. unfold bind. destruct (c w); [eauto | discriminate..]. Qed.

Section Preserves.

Variable J : imageImpl -> Prop.
Variable i : ptr.

Lemma preserves_ret {A} (a : A) : preserves (holds_at J i) (ret a).
Proof. intros w b w' HI [= _ <-]. exact HI. Qed.

Lemma preserves_bind {A B} (c : Proc A) (k : A -> Proc B) :
  preserves (holds_at J i) c -> (forall a, preserves (holds_at J i) (k a)) ->
  preserves (holds_at J i) (bind c k).
Proof.
  intros Hc Hk w b w' HI Hrun.
  apply bind_inv in Hrun as (a & w1 & H1 & H2).
  exact (Hk a w1 b w' (Hc w a w1 HI H1) H2).
Qed.

Lemma preserves_panic {A} msg : preserves (holds_at J i) (@panic _ A msg).
Proof. intros w b w' _ [=]. Qed.

Lemma preserves_deadlock {A} : preserves (holds_at J i) (fun _ => @Deadlocks _ A).
Proof. intros w b w' _ [=]. Qed.

Lemma preserves_must {A} msg (o : option A) : preserves (holds_at J i) (must msg o).
Proof. destruct o; [apply preserves_ret | apply preserves_panic]. Qed.

Lemma preserves_load j : preserves (holds_at J i) (load j).
Proof.
  intros w b w' HI. unfold load. destruct (heap w !! j); [|discriminate].
  by intros [= _ <-].
Qed.

Lemma preserves_store j f :
  j ≠ i \/ (forall s, J s -> J (f s)) ->
  preserves (holds_at J i) (store j f).
Proof.
  intros Hf w b w' (s & Hs & HJ). unfold store.
  destruct (heap w !! j) as [sj|] eqn:Hj; [|discriminate].
  intros [= _ <-]. unfold holds_at; simpl.
  destruct (decide (j = i)) as [->|Hne].
  - rewrite lookup_insert_eq. eexists; split; [reflexivity|].
    destruct Hf as [|Hf]; [done|]. apply Hf. congruence.
  - rewrite lookup_insert_ne by done. eauto.
Qed.

Lemma preserves_emit e : preserves (holds_at J i) (emit e).
Proof. by intros w b w' HI [= _ <-]. Qed.

Lemma preserves_gpu_step {A} c (f : GPU -> A * GPU) :
  preserves (holds_at J i) (gpu_step c f).
Proof. by intros w b w' HI [= _ <-]. Qed.

Lemma preserves_SetFinalizer j on : preserves (holds_at J i) (SetFinalizer j on).
Proof. by intros w b w' HI [= _ <-]. Qed.

Lemma preserves_alloc s0 : preserves (holds_at J i) (alloc s0).
Proof.
  intros w b w' (s & Hs & HJ) [= _ <-]. unfold holds_at; simpl.
  rewrite lookup_insert_ne; [eauto|].
  intros E. pose proof (is_fresh (dom (heap w))) as Hf.
  rewrite E in Hf. apply Hf, elem_of_dom. eauto.
Qed.

Lemma preserves_read {A} (f : World -> A) :
  preserves (holds_at J i) (fun w => Returns (f w) w).
Proof. by intros w b w' HI [= _ <-]. Qed.

Lemma preserves_guard {A} (b : World -> bool) msg (c : Proc A) :
  preserves (holds_at J i) c ->
  preserves (holds_at J i) (fun w => if b w then Panics msg else c w).
Proof. intros Hc w a w' HI. destruct (b w); [discriminate|]. by apply Hc. Qed.

End Preserves.

Ltac pres_leaf side :=
  first
    [ apply preserves_ret | apply preserves_panic | apply preserves_deadlock
    | apply preserves_must | apply preserves_load | apply preserves_emit
    | apply preserves_gpu_step | apply preserves_SetFinalizer
    | apply preserves_alloc | apply preserves_read
    | apply preserves_store; side ].

Ltac pres side :=
  repeat first
    [ pres_leaf side
    | apply preserves_bind; [|intros ?]
    | match goal with
      | |- preserves _ (if ?b then _ else _) => destruct b
      | |- preserves _ (match ?x with _ => _ end) => destruct x
      end ].

Ltac stable_side H :=
  right; destruct H as (? & ? & ? & ? & ? & ?); solve [ auto ].

Ltac unfold_ops :=
  unfold newImageImpl, newScreenImageImpl, Fill, clearIfVolatile, DrawImage,
    resetHistoryIfNeeded, hasHistory, restore, Dispose, ReplacePixels,
    isDisposed, isInvalidated, gpu_NewImage, gpu_NewImageFromImage,
    gpu_NewScreenFramebufferImage, gpu_Fill, gpu_DrawImage, gpu_Pixels,
    gpu_ReplacePixels, gpu_Dispose, locked, Lock, Unlock.

Lemma stable_replay J i j cs :
  stable J -> preserves (holds_at J i) (replay j cs).
Proof.
  intros HJ. induction cs as [|c cs IH]; simpl.
  - apply preserves_ret.
  - unfold_ops. pres ltac:(stable_side HJ). exact IH.
Qed.

Lemma stable_perform J i o :
  stable J -> preserves (holds_at J i) (perform o).
Proof.
  intros HJ. destruct o; unfold perform.
  all: try (unfold_ops; pres ltac:(stable_side HJ); fail).
  - (* At *)
    apply preserves_bind; [|intros; apply preserves_ret].
    unfold At. apply preserves_guard.
    unfold_ops; pres ltac:(stable_side HJ).
  - (* restore *)
    unfold_ops; pres ltac:(stable_side HJ); apply stable_replay; exact HJ.
Qed.

Lemma stable_perform_all J i os :
  stable J -> preserves (holds_at J i) (perform_all os).
Proof.
  intros HJ. induction os as [|o os IH]; simpl.
  - apply preserves_ret.
  - apply preserves_bind; [by apply stable_perform | intros; exact IH].
Qed.

Lemma stable_disposed : stable (fun s => disposed s = true).
Proof. unfold stable; simpl; auto 10. Qed.

Lemma stable_True : stable (fun _ => True).
Proof. unfold stable; auto 10. Qed.

(** Between two operations the mutex of an image is free. *)

Ltac unfold_methods :=
  unfold newImageImpl, newScreenImageImpl, Fill, clearIfVolatile, DrawImage,
    resetHistoryIfNeeded, hasHistory, restore, Dispose, ReplacePixels,
    isDisposed, isInvalidated.

Ltac unfold_steps :=
  unfold gpu_NewImage, gpu_NewImageFromImage, gpu_NewScreenFramebufferImage,
    gpu_Fill, gpu_DrawImage, gpu_Pixels, gpu_ReplacePixels, gpu_Dispose,
    hasHistory, locked, Lock, Unlock.

Lemma unlocked_locked_same {A} i (body : Proc A) :
  preserves (holds_at (fun _ => True) i) body ->
  preserves (holds_at unlocked i) (locked i body).
Proof.
  intros Hb w a w' (s & Hs & Hm) Hrun. unfold locked in Hrun.
  rewrite (bind_Lock _ _ _ _ Hs Hm) in Hrun.
  apply bind_inv in Hrun as (r & w1 & H1 & H2).
  assert (holds_at (fun _ => True) i w1) as (s1 & Hs1 & _).
  { eapply Hb; [|exact H1]. eexists; split; [heap_solve | done]. }
  rewrite (bind_Unlock _ _ _ _ Hs1) in H2. injection H2 as _ <-.
  eexists; split; [heap_solve | reflexivity].
Qed.

Ltac inside_lock :=
  apply unlocked_locked_same; unfold_steps;
  pres ltac:(stable_side stable_True);
  try (apply stable_replay; apply stable_True).

Lemma unlocked_hasHistory i j : preserves (holds_at unlocked i) (hasHistory j).
Proof.
  destruct (decide (j = i)) as [->|Hne].
  - unfold hasHistory. inside_lock.
  - unfold_steps. pres ltac:(left; assumption).
Qed.

Lemma unlocked_replay i j cs :
  j ≠ i -> preserves (holds_at unlocked i) (replay j cs).
Proof.
  intros Hne. induction cs as [|c cs IH]; simpl.
  - apply preserves_ret.
  - apply preserves_bind; [apply unlocked_hasHistory|intros ?].
    unfold_steps. pres ltac:(left; assumption). exact IH.
Qed.

Ltac same_image :=
  unfold_methods;
  repeat first
    [ inside_lock
    | pres_leaf ltac:(fail)
    | apply preserves_bind; [|intros ?]
    | match goal with
      | |- preserves _ (if ?b then _ else _) => destruct b
      | |- preserves _ (match ?x with _ => _ end) => destruct x
      end ].

Ltac other_image :=
  unfold_methods; unfold_steps; pres ltac:(left; assumption);
  try (apply unlocked_replay; assumption).

Lemma unlocked_perform i o : preserves (holds_at unlocked i) (perform o).
Proof.
  destruct o as [ | |j ?|j|j ? ?|j ? ?|j ?|j|j ?|j|j ?|j|j ?]; unfold perform.
  1-2: unfold_methods; unfold_steps; pres ltac:(fail).
  all: destruct (decide (j = i)) as [->|Hne].
  all: try (same_image; fail).
  all: try (other_image; fail).
  - apply preserves_bind; [|intros; apply preserves_ret].
    unfold At. apply preserves_guard. inside_lock.
  - apply preserves_bind; [|intros; apply preserves_ret].
    unfold At. apply preserves_guard. other_image.
Qed.

Lemma unlocked_perform_all i os :
  preserves (holds_at unlocked i) (perform_all os).
Proof.
  induction os as [|o os IH]; simpl.
  - apply preserves_ret.
  - apply preserves_bind; [apply unlocked_perform | intros; exact IH].
Qed.

(** ** Dispose *)

Lemma unlock_lock s : m s = false -> set_m false (set_m true s) = s.
Proof. destruct s; simpl; by intros ->. Qed.

Lemma Dispose_disposed w i s :
  heap w !! i = Some s -> m s = false -> disposed s = true ->
  Dispose i w = Returns (Some ErrAlreadyDisposed) (log [ev_Lock i; ev_Unlock i] w).
Proof.
  intros H Hm Hd. unfold Dispose. rewrite (run_locked _ _ _ _ H Hm).
  run. rewrite Hd. run. f_equal. world_eq.
  rewrite (unlock_lock _ Hm). apply insert_id, H.
Qed.

(** C9. On an image that is not disposed, and whose texture the graphics
    package releases without error (the screen has none to release),
    [Dispose] returns nil: it releases the texture unless the image is the
    screen, so that the device is as that call left it, and exactly as it
    was for the screen; it clears the texture handle, the pixel cache, the
    base colour and the history, sets [disposed], and removes the finalizer;
    it changes no other image and no other finalizer.  After any further
    operations that return, the image is still disposed, and [Dispose] on it
    returns the already-disposed error and changes nothing. *)
Theorem Dispose_once_only w i s :
  heap w !! i = Some s -> m s = false -> disposed s = false ->
  (screen s = false ->
   exists t, image s = Some t /\ fst (graphics_Dispose t (device w)) = None) ->
  exists w1,
    Dispose i w = Returns None w1
    /\ heap w1 !! i
       = Some (set_drawImageHistory []
                 (set_baseColor None
                    (set_pixels None (set_disposed true (set_image None s)))))
    /\ (i ∉ finalizers w1)
    /\ trace w1
       = (trace w ++ [ev_Lock i])
         ++ (if screen s then []
             else match image s with
                  | Some t => [ev_gpu (call_Dispose t)]
                  | None => []
                  end)
         ++ [ev_SetFinalizer i false; ev_Unlock i]
    /\ device w1
       = (if screen s then device w
          else match image s with
               | Some t => snd (graphics_Dispose t (device w))
               | None => device w
               end)
    /\ heap w1
       = <[i := set_drawImageHistory []
                  (set_baseColor None
                     (set_pixels None (set_disposed true (set_image None s))))]>
           (heap w)
    /\ finalizers w1 = finalizers w ∖ {[i]}
    /\ loop_running w1 = loop_running w
    /\ forall os w2,
         perform_all os w1 = Returns tt w2 ->
         holds_at (fun s2 => disposed s2 = true) i w2
         /\ Dispose i w2
            = Returns (Some ErrAlreadyDisposed)
                (log [ev_Lock i; ev_Unlock i] w2).
Proof.
  intros H Hm Hd Hrel.
  assert (forall w1,
    heap w1 !! i
    = Some (set_drawImageHistory []
              (set_baseColor None
                 (set_pixels None (set_disposed true (set_image None s))))) ->
    forall os w2,
      perform_all os w1 = Returns tt w2 ->
      holds_at (fun s2 => disposed s2 = true) i w2
      /\ Dispose i w2
         = Returns (Some ErrAlreadyDisposed) (log [ev_Lock i; ev_Unlock i] w2))
    as Hlater.
  { intros w1 H1 os w2 Hrun.
    assert (holds_at (fun s2 => disposed s2 = true) i w2) as Hd2.
    { eapply (stable_perform_all _ i os stable_disposed); [|exact Hrun].
      eexists; split; [exact H1 | reflexivity]. }
    assert (holds_at unlocked i w2) as (s2 & Hs2 & Hm2).
    { eapply (unlocked_perform_all i os); [|exact Hrun].
      eexists; split; [exact H1 | exact Hm]. }
    split; [exact Hd2|].
    destruct Hd2 as (s2' & Hs2' & Hd2). rewrite Hs2 in Hs2'.
    injection Hs2' as <-. by apply (Dispose_disposed _ _ s2). }
  assert (set_m false
            (set_drawImageHistory []
               (set_baseColor None
                  (set_pixels None
                     (set_disposed true (set_image None (set_m true s))))))
          = set_drawImageHistory []
              (set_baseColor None
                 (set_pixels None (set_disposed true (set_image None s)))))
    as E by (destruct s; simpl in *; by subst).
  unfold Dispose at 1. rewrite (run_locked _ _ _ _ H Hm).
  run. rewrite Hd.
  destruct (screen s) eqn:Hsc; cbn [negb].
  - run. eexists. split; [reflexivity|].
    split; [|split; [|split; [|split; [|split; [|split; [|split]]]]]].
    + fields. rewrite lookup_insert_eq. by rewrite <- E.
    + fields. intros [_ Hn]%elem_of_difference. by apply Hn, elem_of_singleton.
    + fields. by rewrite <- !app_assoc.
    + reflexivity.
    + fields. rewrite !insert_insert_eq. by rewrite <- E.
    + reflexivity.
    + reflexivity.
    + apply Hlater. fields. rewrite lookup_insert_eq. by rewrite <- E.
  - destruct (Hrel eq_refl) as (t & Ht & Hok).
    unfold gpu_Dispose. rewrite Ht. run. rewrite Hok. run.
    eexists. split; [reflexivity|].
    split; [|split; [|split; [|split; [|split; [|split; [|split]]]]]].
    + fields. rewrite lookup_insert_eq. by rewrite <- E.
    + fields. intros [_ Hn]%elem_of_difference. by apply Hn, elem_of_singleton.
    + fields. by rewrite <- !app_assoc.
    + reflexivity.
    + fields. rewrite !insert_insert_eq. by rewrite <- E.
    + reflexivity.
    + reflexivity.
    + apply Hlater. fields. rewrite lookup_insert_eq. by rewrite <- E.
Qed.

(** ** At *)

Lemma At_index x y wd :
  GoInt.add (GoInt.mul 4 x) (GoInt.mul (GoInt.mul 4 y) wd)
  = GoInt.wrap (4 * (x + y * wd)).
Proof.
  unfold GoInt.add, GoInt.mul. apply wrap_congr.
  rewrite Z.add_mod, !wrap_mod by lia.
  rewrite <- (Z.mul_mod_idemp_l (GoInt.wrap _)), wrap_mod, Z.mul_mod_idemp_l by lia.
  rewrite <- Z.add_mod by lia. f_equal. lia.
Qed.

Lemma index_lookup {A} (buf : list A) z :
  0 <= z < GoSlice.len buf -> GoSlice.index buf z = buf !! Z.to_nat z.
Proof.
  intros Hz. unfold GoSlice.index.
  destruct (Z.leb_spec 0 z); [|lia]. destruct (Z.ltb_spec z (GoSlice.len buf)); [|lia].
  reflexivity.
Qed.

(** Reading the four bytes of a pixel, as [At] does after its readback. *)
Lemma read_pixel (buf : list Z) x y wd c :
  GoSlice.len buf < 2 ^ 63 ->
  0 <= 4 * (x + y * wd) -> 4 * (x + y * wd) + 3 < GoSlice.len buf ->
  rgba_at buf (4 * (x + y * wd)) = Some c ->
  let idx := GoInt.add (GoInt.mul 4 x) (GoInt.mul (GoInt.mul 4 y) wd) in
  exists r g b a,
    c = color_RGBA r g b a
    /\ GoSlice.index buf idx = Some r
    /\ GoSlice.index buf (GoInt.add idx 1) = Some g
    /\ GoSlice.index buf (GoInt.add idx 2) = Some b
    /\ GoSlice.index buf (GoInt.add idx 3) = Some a.
Proof.
  intros Hlen H0 H3 Hc. cbv zeta. rewrite At_index.
  set (off := 4 * (x + y * wd)) in *.
  rewrite (wrap_exact off) by (unfold GoInt.in_range; lia).
  unfold GoInt.add.
  rewrite !wrap_exact by (unfold GoInt.in_range; lia).
  rewrite !index_lookup by lia.
  unfold rgba_at in Hc.
  destruct (buf !! Z.to_nat off) as [r|]; [|discriminate].
  destruct (buf !! Z.to_nat (off + 1)) as [g|]; [|discriminate].
  destruct (buf !! Z.to_nat (off + 2)) as [b|]; [|discriminate].
  destruct (buf !! Z.to_nat (off + 3)) as [a|]; [|discriminate].
  injection Hc as <-. by exists r, g, b, a.
Qed.

Section Sampling.

Variables (w : World) (i : ptr) (s : imageImpl) (x y : Z).

Hypothesis Hrun : loop_running w = true.
Hypothesis H : heap w !! i = Some s.
Hypothesis Hm : m s = false.

Lemma At_disposed :
  disposed s = true ->
  At i x y w = Returns color_Transparent (log [ev_Lock i; ev_Unlock i] w).
Proof.
  intros Hd. unfold At. rewrite Hrun. cbn [negb].
  rewrite (run_locked _ _ _ _ H Hm).
  run. rewrite Hd. run. f_equal. world_eq.
  rewrite (unlock_lock _ Hm). apply insert_id, H.
Qed.

Lemma At_readback t buf g' c :
  disposed s = false ->
  pixels s = None \/ drawImageHistory s <> [] ->
  image s = Some t ->
  graphics_Pixels t ui_GLContext (device w) = ((Some buf, None), g') ->
  GoSlice.len buf < 2 ^ 63 ->
  0 <= pixel_offset s x y -> pixel_offset s x y + 3 < GoSlice.len buf ->
  rgba_at buf (pixel_offset s x y) = Some c ->
  At i x y w
  = Returns c
      (log [ev_Lock i; ev_gpu (call_Pixels t); ev_Unlock i]
         (with_device g'
            (update_image i
               (set_drawImageHistory [] (set_pixels (Some buf) s)) w))).
Proof.
  intros Hd Hneed Ht Hpx Hlen H0 H3 Hc. unfold At. rewrite Hrun. cbn [negb].
  rewrite (run_locked _ _ _ _ H Hm).
  run. rewrite Hd.
  assert (forall k : Proc unit,
    match pixels s with
    | Some _ => match drawImageHistory s with [] => ret tt | _ :: _ => k end
    | None => k
    end = k) as Hk.
  { intros k. destruct Hneed as [->|Hh]; [reflexivity|].
    destruct (pixels s); [|reflexivity].
    destruct (drawImageHistory s); [contradiction|reflexivity]. }
  rewrite Hk. unfold gpu_Pixels. rewrite Ht. run. rewrite Hpx. run.
  destruct (read_pixel buf x y (width s) c Hlen H0 H3 Hc)
    as (r & g & b & a & -> & Hr & Hg & Hb & Ha).
  rewrite Hr. run. rewrite Hg. run. rewrite Hb. run. rewrite Ha. run.
  f_equal. world_eq.
  f_equal. destruct s; simpl in *; by subst.
Qed.

Lemma At_cached px c :
  disposed s = false ->
  pixels s = Some px -> drawImageHistory s = [] ->
  GoSlice.len px < 2 ^ 63 ->
  0 <= pixel_offset s x y -> pixel_offset s x y + 3 < GoSlice.len px ->
  rgba_at px (pixel_offset s x y) = Some c ->
  At i x y w = Returns c (log [ev_Lock i; ev_Unlock i] w).
Proof.
  intros Hd Hpx Hh Hlen H0 H3 Hc. unfold At. rewrite Hrun. cbn [negb].
  rewrite (run_locked _ _ _ _ H Hm).
  run. rewrite Hd, Hpx, Hh. run. rewrite Hpx. fields.
  destruct (read_pixel px x y (width s) c Hlen H0 H3 Hc)
    as (r & g & b & a & -> & Hr & Hg & Hb & Ha).
  rewrite Hr. run. rewrite Hg. run. rewrite Hb. run. rewrite Ha. run.
  f_equal. world_eq.
  rewrite (unlock_lock _ Hm). apply insert_id, H.
Qed.

End Sampling.

(** C5. With the loop running: [At] on a disposed image returns
    [color.Transparent].  On a live image whose pixel cache is nil or whose
    history is not empty, it reads the texture back (one call of [Pixels]),
    stores the bytes as the pixel cache, clears the history, and returns the
    colour at byte offset [4*(x + y*width)] of those bytes.  On a live image
    with a pixel cache and no history it makes no graphics call, changes
    nothing, and returns the colour at that offset of the cache. *)
Theorem At_samples w i s x y :
  loop_running w = true -> heap w !! i = Some s -> m s = false ->
  (disposed s = true ->
   At i x y w = Returns color_Transparent (log [ev_Lock i; ev_Unlock i] w))
  /\ (disposed s = false ->
      (pixels s = None \/ drawImageHistory s <> []) ->
      forall t buf g' c,
        image s = Some t ->
        graphics_Pixels t ui_GLContext (device w) = ((Some buf, None), g') ->
        GoSlice.len buf < 2 ^ 63 ->
        0 <= pixel_offset s x y -> pixel_offset s x y + 3 < GoSlice.len buf ->
        rgba_at buf (pixel_offset s x y) = Some c ->
        At i x y w
        = Returns c
            (log [ev_Lock i; ev_gpu (call_Pixels t); ev_Unlock i]
               (with_device g'
                  (update_image i
                     (set_drawImageHistory [] (set_pixels (Some buf) s)) w))))
  /\ (disposed s = false ->
      forall px c,
        pixels s = Some px -> drawImageHistory s = [] ->
        GoSlice.len px < 2 ^ 63 ->
        0 <= pixel_offset s x y -> pixel_offset s x y + 3 < GoSlice.len px ->
        rgba_at px (pixel_offset s x y) = Some c ->
        At i x y w = Returns c (log [ev_Lock i; ev_Unlock i] w)).
Proof.
  intros Hrun H Hm. split; [|split].
  - by apply At_disposed.
  - intros Hd Hneed t buf g' c. by apply At_readback.
  - intros Hd px c. by apply At_cached.
Qed.

(** ** resetHistoryIfNeeded *)

Lemma hasHistoryWith_spec s target :
  hasHistoryWith s target = true
  <-> exists c, In c (drawImageHistory s) /\ item_image c = target.
Proof.
  unfold hasHistoryWith. rewrite existsb_exists.
  split; intros (c & Hc & E); exists c; split; try done.
  - by apply Nat.eqb_eq.
  - by apply Nat.eqb_eq.
Qed.

(** C8. [resetHistoryIfNeeded] always returns nil.  It changes nothing when
    the image is disposed, when its history is empty, or when no item of the
    history has [target] as its source.  Otherwise it reads the texture
    back and stores what [Pixels] returned as the pixel cache; when the
    readback succeeded it also clears the base colour and the history, and
    when it failed the error is dropped and the base colour and the history
    stay. *)
Theorem resetHistoryIfNeeded_flattens w i s target :
  heap w !! i = Some s -> m s = false ->
  ((disposed s = true \/ drawImageHistory s = []
    \/ (forall c, In c (drawImageHistory s) -> item_image c <> target)) ->
   resetHistoryIfNeeded i target w
   = Returns None (log [ev_Lock i; ev_Unlock i] w))
  /\ (disposed s = false ->
      (exists c, In c (drawImageHistory s) /\ item_image c = target) ->
      forall t px err g',
        image s = Some t ->
        graphics_Pixels t ui_GLContext (device w) = ((px, err), g') ->
        resetHistoryIfNeeded i target w
        = Returns None
            (log [ev_Lock i; ev_gpu (call_Pixels t); ev_Unlock i]
               (with_device g'
                  (update_image i
                     (match err with
                      | None =>
                          set_drawImageHistory []
                            (set_baseColor None (set_pixels px s))
                      | Some _ => set_pixels px s
                      end) w)))).
Proof.
  intros H Hm. unfold resetHistoryIfNeeded.
  rewrite (run_locked _ _ _ _ H Hm). split.
  - intros Hnoop. run.
    assert (forall k : Proc (option error),
      (if disposed s then ret None
       else match drawImageHistory s with
            | [] => ret None
            | _ :: _ =>
                if negb (hasHistoryWith (set_m true s) target) then ret None
                else k
            end) = ret None) as Hk.
    { intros k. destruct (disposed s) eqn:Hd; [reflexivity|].
      destruct Hnoop as [?|[Hh|Hno]]; [discriminate| |].
      - by rewrite Hh.
      - destruct (drawImageHistory s) eqn:Hh; [reflexivity|].
        destruct (hasHistoryWith (set_m true s) target) eqn:Hw; [|reflexivity].
        apply hasHistoryWith_spec in Hw as (c & Hc & E).
        cbn in Hc. rewrite Hh in Hc. by apply Hno in Hc. }
    rewrite Hk. run. f_equal. world_eq.
    rewrite (unlock_lock _ Hm). apply insert_id, H.
  - intros Hd Hex t px err g' Ht Hpx. run. rewrite Hd.
    assert (hasHistoryWith (set_m true s) target = true) as Hw.
    { apply hasHistoryWith_spec. exact Hex. }
    destruct Hex as (c0 & Hin & _).
    destruct (drawImageHistory s) as [|c cs] eqn:Hh; [destruct Hin|].
    rewrite Hw. cbn [negb]. unfold gpu_Pixels. rewrite Ht. run. rewrite Hpx.
    destruct err as [e|]; run; f_equal; world_eq;
      f_equal; destruct s; simpl in *; by subst.
Qed.

(** ** restore: the buffer that is uploaded *)

Lemma solid_length n r g b a : length (solid n r g b a) = (4 * n)%nat.
Proof. induction n as [|n IH]; simpl; [reflexivity | rewrite IH; lia]. Qed.

Lemma solid_snoc n r g b a :
  solid (S n) r g b a = solid n r g b a ++ [r; g; b; a].
Proof. induction n as [|n IH]; [reflexivity|]. simpl in *. by rewrite IH. Qed.

Lemma solid_zero n : solid n 0 0 0 0 = repeat 0 (4 * n)%nat.
Proof.
  induction n as [|n IH]; [reflexivity|].
  replace (4 * S n)%nat with (S (S (S (S (4 * n))))) by lia.
  simpl. by rewrite IH.
Qed.

(** The loop of [broadcast] after [k] rounds. *)
Lemma broadcast_rounds (pix : list Z) r g b a k :
  (4 * k <= length pix)%nat ->
  foldl
    (fun p idx =>
       <[(4 * idx + 3)%nat := a]>
         (<[(4 * idx + 2)%nat := b]>
            (<[(4 * idx + 1)%nat := g]> (<[(4 * idx)%nat := r]> p))))
    pix (seq 0 k)
  = solid k r g b a ++ drop (4 * k) pix.
Proof.
  induction k as [|k IH]; intros Hk.
  - simpl. by rewrite drop_0.
  - rewrite seq_S, foldl_app, IH by lia. cbn [foldl Nat.add].
    assert (exists x0 x1 x2 x3,
              drop (4 * k) pix = x0 :: x1 :: x2 :: x3 :: drop (4 * S k) pix)
      as (x0 & x1 & x2 & x3 & E).
    { replace (4 * S k)%nat with (4 * k + 4)%nat by lia.
      rewrite <- drop_drop.
      pose proof (length_drop pix (4 * k)) as Hl.
      destruct (drop (4 * k) pix) as [|x0 [|x1 [|x2 [|x3 rest]]]];
        simpl in Hl; try lia.
      by exists x0, x1, x2, x3. }
    rewrite E, solid_snoc, <- app_assoc.
    pose proof (solid_length k r g b a) as Hs.
    rewrite !insert_app_r_alt by lia.
    replace (4 * k - length (solid k r g b a))%nat with O by lia.
    replace (4 * k + 1 - length (solid k r g b a))%nat with 1%nat by lia.
    replace (4 * k + 2 - length (solid k r g b a))%nat with 2%nat by lia.
    replace (4 * k + 3 - length (solid k r g b a))%nat with 3%nat by lia.
    reflexivity.
Qed.

Lemma broadcast_solid n r g b a :
  broadcast (repeat 0 (4 * n)) r g b a = solid n r g b a.
Proof.
  unfold broadcast. rewrite repeat_length.
  replace (4 * n / 4)%nat with n by (symmetry; rewrite Nat.mul_comm; apply Nat.div_mul; lia).
  rewrite broadcast_rounds by (rewrite repeat_length; lia).
  rewrite drop_ge by (rewrite repeat_length; lia). apply app_nil_r.
Qed.

(** One row of the copy: the image agrees with the cache one row further. *)
Lemma copy_row_step (pix src : list Z) (a rl : nat) :
  length pix = length src -> (a + rl <= length src)%nat ->
  take a pix = take a src ->
  let pix' := take a pix ++ GoSlice.copy (drop a pix) (take rl (drop a src)) in
  length pix' = length src /\ take (a + rl) pix' = take (a + rl) src.
Proof.
  intros Hlen Ha Hpre. cbv zeta. unfold GoSlice.copy.
  assert (length (take rl (drop a src)) = rl) as Hrow
    by (rewrite length_take, length_drop; lia).
  rewrite Hrow, length_drop.
  rewrite (take_ge (take rl (drop a src))) by lia.
  split.
  - rewrite !length_app, length_take, Hrow, !length_drop. lia.
  - rewrite app_assoc, take_app_le.
    + rewrite take_ge by (rewrite length_app, length_take, Hrow; lia).
      rewrite Hpre. apply take_take_drop.
    + rewrite length_app, length_take, Hrow. lia.
Qed.

Lemma slice_ok {A} (s : list A) a b :
  0 <= a -> a <= b -> b <= GoSlice.len s ->
  GoSlice.slice s a b = Some (take (Z.to_nat (b - a)) (drop (Z.to_nat a) s)).
Proof.
  intros H0 Hab Hb. unfold GoSlice.slice.
  destruct (Z.leb_spec 0 a); [|lia]. destruct (Z.leb_spec a b); [|lia].
  destruct (Z.leb_spec b (GoSlice.len s)); [|lia]. reflexivity.
Qed.

Lemma slice_from_ok {A} (s : list A) a :
  0 <= a -> a <= GoSlice.len s ->
  GoSlice.slice_from s a = Some (drop (Z.to_nat a) s).
Proof.
  intros H0 Ha. unfold GoSlice.slice_from. rewrite slice_ok by lia.
  f_equal. apply take_ge. rewrite length_drop. unfold GoSlice.len. lia.
Qed.

(** The loop of [copy_rows]: when the cache has [4*width*height] bytes, the
    image ends up with exactly the bytes of the cache. *)
Lemma copy_rows_whole (wd : Z) (src : list Z) (n : nat) :
  forall (j : Z) (pix : list Z),
    0 <= wd -> 0 <= j -> j + Z.of_nat n < 2 ^ 63 ->
    4 * wd * (j + Z.of_nat n) < 2 ^ 63 ->
    GoSlice.len src = 4 * wd * (j + Z.of_nat n) ->
    length pix = length src ->
    take (Z.to_nat (4 * wd * j)) pix = take (Z.to_nat (4 * wd * j)) src ->
    copy_rows n j wd (4 * wd) src pix = Some src.
Proof.
  induction n as [|n IH]; intros j pix Hwd Hj Hh Hb Hsrc Hlen Hpre.
  - simpl. f_equal.
    rewrite <- (take_ge pix (Z.to_nat (4 * wd * j))),
            <- (take_ge src (Z.to_nat (4 * wd * j))); [exact Hpre | |];
      unfold GoSlice.len in Hsrc; lia.
  - cbn [copy_rows]. unfold GoInt.mul, GoInt.add.
    assert (0 <= 4 * wd * j /\ 4 * wd * j + 4 * wd <= 4 * wd * (j + Z.of_nat (S n)))
      as [Ha0 Ha1] by nia.
    rewrite (wrap_exact (j * (4 * wd))) by (unfold GoInt.in_range; nia).
    rewrite (wrap_exact (j * wd)) by (unfold GoInt.in_range; nia).
    rewrite (wrap_exact (j * wd * 4)) by (unfold GoInt.in_range; nia).
    rewrite (wrap_exact (j + 1)) by (unfold GoInt.in_range; lia).
    rewrite (wrap_exact ((j + 1) * wd)) by (unfold GoInt.in_range; nia).
    rewrite (wrap_exact ((j + 1) * wd * 4)) by (unfold GoInt.in_range; nia).
    unfold GoSlice.len in Hsrc.
    rewrite slice_from_ok by (unfold GoSlice.len; nia).
    rewrite slice_ok by (unfold GoSlice.len; nia).
    replace (j * (4 * wd)) with (4 * wd * j) by lia.
    replace (j * wd * 4) with (4 * wd * j) by lia.
    replace ((j + 1) * wd * 4 - 4 * wd * j) with (4 * wd) by lia.
    destruct (copy_row_step pix src (Z.to_nat (4 * wd * j)) (Z.to_nat (4 * wd)))
      as [Hlen' Hpre']; [exact Hlen | nia | exact Hpre |].
    apply IH; [lia | lia | lia | lia | unfold GoSlice.len; lia | exact Hlen' |].
    replace (Z.to_nat (4 * wd * (j + 1)))
      with (Z.to_nat (4 * wd * j) + Z.to_nat (4 * wd))%nat by nia.
    exact Hpre'.
Qed.

Lemma restore_buffer_spec s :
  0 <= 4 * width s < 2 ^ 63 -> 0 <= height s < 2 ^ 63 ->
  4 * width s * height s < 2 ^ 63 ->
  let n := Z.to_nat (width s * height s) in
  let rgba pix :=
    Some {| Pix := pix; Stride := 4 * width s; Dx := width s; Dy := height s |} in
  (forall px,
     pixels s = Some px -> GoSlice.len px = 4 * width s * height s ->
     restore_buffer s = rgba px)
  /\ (forall c r g b a,
       pixels s = None -> baseColor s = Some c -> RGBA_of c = (r, g, b, a) ->
       restore_buffer s
       = rgba (solid n (GoInt.uint8 r) (GoInt.uint8 g) (GoInt.uint8 b)
                 (GoInt.uint8 a)))
  /\ (pixels s = None -> baseColor s = None ->
      restore_buffer s = rgba (solid n 0 0 0 0)).
Proof.
  intros Hw Hh Hb n rgba.
  assert (0 <= width s * height s) as Hwh by nia.
  assert (image_NewRGBA (width s) (height s)
          = Some {| Pix := repeat 0 (4 * n); Stride := 4 * width s;
                    Dx := width s; Dy := height s |}) as Hnew.
  { unfold image_NewRGBA, GoInt.mul. rewrite !Z.abs_eq by lia.
    rewrite (wrap_exact (4 * width s)) by (unfold GoInt.in_range; lia).
    rewrite (wrap_exact (4 * width s * height s)) by (unfold GoInt.in_range; lia).
    unfold GoSlice.make.
    destruct (Z.ltb_spec (4 * width s * height s) 0); [lia|].
    replace (Z.to_nat (4 * width s * height s)) with (4 * n)%nat by (unfold n; lia).
    reflexivity. }
  unfold restore_buffer. rewrite Hnew. cbn [Pix Stride Dx Dy].
  split; [|split].
  - intros px -> Hlen.
    rewrite (copy_rows_whole (width s) px (Z.to_nat (height s)) 0).
    + reflexivity.
    + lia.
    + lia.
    + lia.
    + rewrite Z2Nat.id by lia. lia.
    + rewrite Z2Nat.id by lia. rewrite Hlen. lia.
    + rewrite repeat_length. unfold GoSlice.len in Hlen. unfold n. nia.
    + rewrite Z.mul_0_r. reflexivity.
  - intros c r g b a -> -> ->. by rewrite broadcast_solid.
  - intros -> ->. by rewrite solid_zero.
Qed.

(** ** restore: the replay of the history *)

Lemma bind_hasHistory {B} j sj (k : bool -> Proc B) w :
  heap w !! j = Some sj -> m sj = false ->
  bind (hasHistory j) k w
  = k (match drawImageHistory sj with [] => false | _ :: _ => true end)
      (log [ev_Lock j; ev_Unlock j] w).
Proof.
  intros H Hm. unfold hasHistory. rewrite (bind_locked _ _ _ _ _ H Hm).
  run. f_equal. world_eq.
  rewrite (unlock_lock _ Hm). apply insert_id, H.
Qed.

Lemma flat_sourceb_spec h i cs :
  forallb (flat_sourceb h i) cs = true -> Forall (flat_source h i) cs.
Proof.
  intros Hall. apply Forall_forall. intros c Hc.
  rewrite forallb_forall in Hall. apply list_elem_of_In in Hc.
  specialize (Hall c Hc). unfold flat_sourceb in Hall.
  destruct (h !! item_image c) as [sc|] eqn:Hsc; [|discriminate].
  destruct (drawImageHistory sc) eqn:Hh; [|discriminate].
  apply andb_prop in Hall as [Hm Hne].
  exists sc. repeat split; try done.
  - by destruct (m sc).
  - intros E. rewrite E, Nat.eqb_refl in Hne. discriminate.
Qed.

Lemma draws_one (h : gmap ptr imageImpl) t c sc tc g g' :
  h !! item_image c = Some sc -> image sc = Some tc ->
  graphics_DrawImage t tc (item_vertices c) (item_geom c) (item_colorm c)
    (item_mode c) g = (None, g') ->
  draws h t [c] g = Some g'.
Proof. intros Hc Ht Hd. cbn [draws]. by rewrite Hc, Ht, Hd. Qed.

Section Replay.

Variables (i : ptr) (t : Handle) (h : gmap ptr imageImpl).

(** Replaying items whose sources are flat issues their draws in order. *)
Lemma replay_flat cs :
  forall w si g2,
    heap w !! i = Some si -> image si = Some t ->
    (forall p, p <> i -> heap w !! p = h !! p) ->
    Forall (flat_source h i) cs ->
    draws h t cs (device w) = Some g2 ->
    replay i cs w
    = Returns None (log (flat_map (replay_events h t) cs) (with_device g2 w)).
Proof.
  induction cs as [|c cs IH]; intros w si g2 Hi Ht Hh Hflat Hd.
  - simpl in *. injection Hd as <-. f_equal. world_eq.
    by rewrite app_nil_r.
  - apply Forall_cons in Hflat as [(sc & Hc & Hhist & Hm & Hne) Hflat].
    cbn [replay draws flat_map] in *. unfold replay_events at 1.
    rewrite Hc in *.
    destruct (image sc) as [tc|] eqn:Htc; [|discriminate].
    destruct (graphics_DrawImage t tc (item_vertices c) (item_geom c)
                (item_colorm c) (item_mode c) (device w)) as [e g'] eqn:Hdraw.
    cbn [fst snd] in Hd. destruct e; [discriminate|].
    assert (heap w !! item_image c = Some sc) as Hc' by (rewrite Hh; done).
    rewrite (bind_hasHistory _ _ _ _ Hc' Hm), Hhist.
    unfold gpu_DrawImage. run. rewrite Ht, Htc. run. rewrite Hdraw. run.
    erewrite (IH _ si g2); [| fields; exact Hi | exact Ht | fields; exact Hh
                           | exact Hflat | fields; exact Hd ].
    f_equal. world_eq.
Qed.

(** Replay panics at the first item whose source still has a history. *)
Lemma replay_not_reach cs1 c cs2 :
  forall w si sc,
    heap w !! i = Some si -> image si = Some t ->
    (forall p, p <> i -> heap w !! p = h !! p) ->
    Forall (flat_source h i) cs1 ->
    is_Some (draws h t cs1 (device w)) ->
    h !! item_image c = Some sc -> m sc = false -> item_image c <> i ->
    drawImageHistory sc <> [] ->
    replay i (cs1 ++ c :: cs2) w = Panics "not reach".
Proof.
  induction cs1 as [|c1 cs1 IH]; intros w si sc Hi Ht Hh Hflat Hd Hc Hm Hne Hhist.
  - cbn [app replay].
    assert (heap w !! item_image c = Some sc) as Hc' by (rewrite Hh; done).
    rewrite (bind_hasHistory _ _ _ _ Hc' Hm).
    destruct (drawImageHistory sc); [contradiction|reflexivity].
  - apply Forall_cons in Hflat as [(s1 & H1 & Hh1 & Hm1 & Hne1) Hflat].
    cbn [app replay draws] in *. rewrite H1 in Hd.
    destruct (image s1) as [t1|] eqn:Ht1; [|by destruct Hd].
    destruct (graphics_DrawImage t t1 (item_vertices c1) (item_geom c1)
                (item_colorm c1) (item_mode c1) (device w)) as [e g'] eqn:Hdraw.
    cbn [fst snd] in Hd. destruct e; [by destruct Hd|].
    assert (heap w !! item_image c1 = Some s1) as H1' by (rewrite Hh; done).
    rewrite (bind_hasHistory _ _ _ _ H1' Hm1), Hh1.
    unfold gpu_DrawImage. run. rewrite Ht, Ht1. run. rewrite Hdraw. run.
    eapply (IH _ si sc); fields; eauto.
Qed.

Lemma bind_replay_flat {B} cs (k : option error -> Proc B) w si g2 :
  heap w !! i = Some si -> image si = Some t ->
  (forall p, p <> i -> heap w !! p = h !! p) ->
  Forall (flat_source h i) cs ->
  draws h t cs (device w) = Some g2 ->
  bind (replay i cs) k w
  = k None (log (flat_map (replay_events h t) cs) (with_device g2 w)).
Proof.
  intros. unfold bind at 1. by erewrite replay_flat.
Qed.

Lemma bind_replay_not_reach {B} cs1 c cs2 (k : option error -> Proc B) w si sc :
  heap w !! i = Some si -> image si = Some t ->
  (forall p, p <> i -> heap w !! p = h !! p) ->
  Forall (flat_source h i) cs1 ->
  is_Some (draws h t cs1 (device w)) ->
  h !! item_image c = Some sc -> m sc = false -> item_image c <> i ->
  drawImageHistory sc <> [] ->
  bind (replay i (cs1 ++ c :: cs2)) k w = Panics "not reach".
Proof.
  intros. unfold bind at 1. by erewrite replay_not_reach.
Qed.

End Replay.

(** ** restore of an image that is kept across a context loss *)

Lemma restore_buffer_set_m v s : restore_buffer (set_m v s) = restore_buffer s.
Proof. reflexivity. Qed.

Section Restore.

Variables (w : World) (i : ptr) (s : imageImpl) (ctx : GLContext).
Variables (img : image_RGBA) (t : Handle) (g1 : GPU).

Hypothesis H : heap w !! i = Some s.
Hypothesis Hm : m s = false.
Hypothesis Hd : disposed s = false.
Hypothesis Hsc : screen s = false.
Hypothesis Hvo : volatile s = false.
Hypothesis Himg : restore_buffer s = Some img.
Hypothesis Hup :
  graphics_NewImageFromImage img (filter s) (device w) = ((Some t, None), g1).

(** Without history, [restore] uploads the buffer and clears the base
    colour. *)
Lemma restore_without_history :
  drawImageHistory s = [] ->
  restore i ctx w
  = Returns None
      (log [ev_Lock i; ev_gpu (call_NewImageFromImage img (filter s));
            ev_Unlock i]
         (with_device g1
            (update_image i (set_baseColor None (set_image (Some t) s)) w))).
Proof.
  intros Hnil. unfold restore. rewrite (run_locked _ _ _ _ H Hm).
  run. rewrite Hd, Hsc, Hvo. cbn [negb].
  rewrite restore_buffer_set_m, Himg. unfold gpu_NewImageFromImage.
  run. rewrite Hup. run. rewrite Hnil. cbn [replay].
  change (0 <? GoSlice.len (@nil drawImageHistoryItem)) with false.
  run. f_equal. world_eq. f_equal. destruct s; simpl in *; by subst.
Qed.

(** With a history whose sources are flat and whose draws succeed,
    [restore] uploads the buffer, replays the draws in order and reads the
    texture back. *)
Lemma restore_with_history g2 px g3 :
  drawImageHistory s <> [] ->
  Forall (flat_source (heap w) i) (drawImageHistory s) ->
  draws (heap w) t (drawImageHistory s) g1 = Some g2 ->
  graphics_Pixels t ctx g2 = ((px, None), g3) ->
  restore i ctx w
  = Returns None
      (log ([ev_Lock i; ev_gpu (call_NewImageFromImage img (filter s))]
            ++ flat_map (replay_events (heap w) t) (drawImageHistory s)
            ++ [ev_gpu (call_Pixels t); ev_Unlock i])
         (with_device g3
            (update_image i
               (set_drawImageHistory []
                  (set_baseColor None (set_pixels px (set_image (Some t) s))))
               w))).
Proof.
  intros Hne Hflat Hdraws Hread.
  unfold restore. rewrite (run_locked _ _ _ _ H Hm).
  run. rewrite Hd, Hsc, Hvo. cbn [negb].
  rewrite restore_buffer_set_m, Himg. unfold gpu_NewImageFromImage.
  run. rewrite Hup. run.
  erewrite (bind_replay_flat i t (heap w) _ _ _ (set_image (Some t) (set_m true s)) g2);
    [ | fields; apply lookup_insert_eq | reflexivity
      | intros p Hp; fields; by rewrite !lookup_insert_ne
      | exact Hflat | fields; exact Hdraws ].
  destruct (drawImageHistory s) as [|c0 cs0] eqn:Hhist; [contradiction|].
  change (0 <? GoSlice.len (c0 :: cs0)) with true.
  unfold gpu_Pixels. run. rewrite Hread. run. f_equal. world_eq.
  f_equal. destruct s; simpl in *; by subst.
Qed.

(** [restore] panics at the first item whose source still has a history. *)
Lemma restore_not_reach cs1 c cs2 sc :
  drawImageHistory s = cs1 ++ c :: cs2 ->
  Forall (flat_source (heap w) i) cs1 ->
  is_Some (draws (heap w) t cs1 g1) ->
  heap w !! item_image c = Some sc -> m sc = false ->
  item_image c <> i -> drawImageHistory sc <> [] ->
  restore i ctx w = Panics "not reach".
Proof.
  intros Hhist Hflat Hdraws Hc Hmc Hne Hsrc.
  unfold restore. rewrite (run_locked _ _ _ _ H Hm).
  run. rewrite Hd, Hsc, Hvo. cbn [negb].
  rewrite restore_buffer_set_m, Himg. unfold gpu_NewImageFromImage.
  run. rewrite Hup. run. rewrite Hhist.
  erewrite (bind_replay_not_reach i t (heap w) cs1 c cs2 _ _
              (set_image (Some t) (set_m true s)) sc);
    [ reflexivity | fields; apply lookup_insert_eq | reflexivity
    | intros p Hp; fields; by rewrite !lookup_insert_ne
    | exact Hflat | fields; exact Hdraws | exact Hc | exact Hmc | exact Hne
    | exact Hsrc ].
Qed.

End Restore.

(** The buffer of [restore] for an image whose sizes do not overflow and
    whose pixel cache, when there is one, has [4*width*height] bytes: an
    image of the size of [s], rows packed, with the bytes of the cache, or
    of the low byte of each channel of the base colour, or zeros. *)
Lemma restore_buffer_seed s :
  0 <= 4 * width s < 2 ^ 63 -> 0 <= height s < 2 ^ 63 ->
  4 * width s * height s < 2 ^ 63 ->
  (forall px, pixels s = Some px -> GoSlice.len px = 4 * width s * height s) ->
  exists img,
    restore_buffer s = Some img
    /\ Pix img
       = match pixels s, baseColor s with
         | Some px, _ => px
         | None, Some c =>
             let '(r, g, b, a) := RGBA_of c in
             solid (Z.to_nat (width s * height s)) (GoInt.uint8 r)
               (GoInt.uint8 g) (GoInt.uint8 b) (GoInt.uint8 a)
         | None, None => solid (Z.to_nat (width s * height s)) 0 0 0 0
         end
    /\ Stride img = 4 * width s /\ Dx img = width s /\ Dy img = height s.
Proof.
  intros Hw Hh Hb Hcache.
  destruct (restore_buffer_spec s Hw Hh Hb) as (Bpx & Bcol & Bzero).
  destruct (pixels s) as [px|] eqn:Hpx.
  - eexists; split; [apply Bpx; [reflexivity | by apply Hcache] | done].
  - destruct (baseColor s) as [c|] eqn:Hbc.
    + destruct (RGBA_of c) as [[[r g] b] a] eqn:Hc.
      eexists; split; [by eapply Bcol | done].
    + eexists; split; [by apply Bzero | done].
Qed.

(** [restore] of an image that is not disposed, not the screen and not
    volatile, as the code has it.  The buffer it builds has the width and
    the height of the image and a stride of four times the width; it holds
    the pixel cache when there is one, else in every pixel the low byte of
    each 16-bit channel of the base colour when there is one, else zeros.
    It uploads that buffer as the new texture.  When the history is empty
    it stops there.  Otherwise it replays the items in the order of the
    history, each drawn from the texture its source has at that moment; when
    every source is another image without history and every draw succeeds,
    it reads the texture back into the pixel cache.  It panics with
    "not reach" at the first item whose source still has a history. *)
Lemma restore_rebuilds w i s ctx :
  heap w !! i = Some s -> m s = false ->
  disposed s = false -> screen s = false -> volatile s = false ->
  0 <= 4 * width s < 2 ^ 63 -> 0 <= height s < 2 ^ 63 ->
  4 * width s * height s < 2 ^ 63 ->
  (forall px, pixels s = Some px -> GoSlice.len px = 4 * width s * height s) ->
  exists img,
    restore_buffer s = Some img
    /\ Pix img
       = match pixels s, baseColor s with
         | Some px, _ => px
         | None, Some c =>
             let '(r, g, b, a) := RGBA_of c in
             solid (Z.to_nat (width s * height s)) (GoInt.uint8 r)
               (GoInt.uint8 g) (GoInt.uint8 b) (GoInt.uint8 a)
         | None, None => solid (Z.to_nat (width s * height s)) 0 0 0 0
         end
    /\ Stride img = 4 * width s /\ Dx img = width s /\ Dy img = height s
    /\ forall t g1,
         graphics_NewImageFromImage img (filter s) (device w)
         = ((Some t, None), g1) ->
         (drawImageHistory s = [] ->
          restore i ctx w
          = Returns None
              (log [ev_Lock i; ev_gpu (call_NewImageFromImage img (filter s));
                    ev_Unlock i]
                 (with_device g1
                    (update_image i
                       (set_baseColor None (set_image (Some t) s)) w))))
         /\ (drawImageHistory s <> [] ->
             forall g2 px g3,
               Forall (flat_source (heap w) i) (drawImageHistory s) ->
               draws (heap w) t (drawImageHistory s) g1 = Some g2 ->
               graphics_Pixels t ctx g2 = ((px, None), g3) ->
               restore i ctx w
               = Returns None
                   (log ([ev_Lock i;
                          ev_gpu (call_NewImageFromImage img (filter s))]
                         ++ flat_map (replay_events (heap w) t)
                              (drawImageHistory s)
                         ++ [ev_gpu (call_Pixels t); ev_Unlock i])
                      (with_device g3
                         (update_image i
                            (set_drawImageHistory []
                               (set_baseColor None
                                  (set_pixels px (set_image (Some t) s))))
                            w))))
         /\ (forall cs1 c cs2 sc,
               drawImageHistory s = cs1 ++ c :: cs2 ->
               Forall (flat_source (heap w) i) cs1 ->
               is_Some (draws (heap w) t cs1 g1) ->
               heap w !! item_image c = Some sc -> m sc = false ->
               item_image c <> i -> drawImageHistory sc <> [] ->
               restore i ctx w = Panics "not reach").
Proof.
  intros H Hm Hd Hsc Hvo Hw Hh Hb Hcache.
  destruct (restore_buffer_seed s Hw Hh Hb Hcache)
    as (img & Himg & Hpix & Hst & Hdx & Hdy).
  exists img. split; [exact Himg|]. split; [exact Hpix|].
  split; [exact Hst|]. split; [exact Hdx|]. split; [exact Hdy|].
  intros t g1 Hup. split; [|split].
  - by apply restore_without_history.
  - intros Hne g2 px g3. by apply restore_with_history.
  - intros cs1 c cs2 sc. by apply (restore_not_reach w i s ctx img t g1).
Qed.

(** ** The operations when nothing fails *)

Lemma newImageImpl_ok w wd ht f v t g1 :
  graphics_NewImage wd ht f (device w) = ((t, None), g1) ->
  0 <= wd * ht -> wd * ht * 4 < 2 ^ 63 ->
  newImageImpl wd ht f v w
  = Returns (Some (fresh (dom (heap w))), None)
      (log [ev_gpu (call_NewImage wd ht f);
            ev_SetFinalizer (fresh (dom (heap w))) true]
         (with_finalizers ({[fresh (dom (heap w))]} ∪ finalizers w)
            (update_image (fresh (dom (heap w)))
               {| image := t; disposed := false; width := wd; height := ht;
                  filter := f;
                  pixels := Some (repeat 0 (Z.to_nat (wd * ht * 4)));
                  baseColor := None; drawImageHistory := [];
                  volatile := v; screen := false; m := false |}
               (with_device g1 w)))).
Proof.
  intros Hnew H0 Hb. unfold newImageImpl, gpu_NewImage.
  run. rewrite Hnew. fields. unfold GoInt.mul.
  rewrite (wrap_exact (wd * ht)) by (unfold GoInt.in_range; lia).
  rewrite (wrap_exact (wd * ht * 4)) by (unfold GoInt.in_range; lia).
  unfold GoSlice.make. destruct (Z.ltb_spec (wd * ht * 4) 0); [lia|].
  run. f_equal. world_eq.
Qed.

Lemma Fill_ok w i s clr t :
  heap w !! i = Some s -> m s = false -> disposed s = false ->
  image s = Some t ->
  Fill i clr w
  = Returns (fst (graphics_Fill t clr (device w)))
      (log [ev_Lock i; ev_gpu (call_Fill t clr); ev_Unlock i]
         (with_device (snd (graphics_Fill t clr (device w)))
            (update_image i
               (set_drawImageHistory []
                  (set_baseColor (Some clr) (set_pixels None s))) w))).
Proof.
  intros H Hm Hd Ht. unfold Fill. rewrite (run_locked _ _ _ _ H Hm).
  run. rewrite Hd. unfold gpu_Fill. run. rewrite Ht. run.
  f_equal. world_eq. f_equal. destruct s; simpl in *; by subst.
Qed.

Lemma DrawImage_ok w i j options s sj (vs : list Z) (n : Z) t tj :
  heap w !! i = Some s -> heap w !! j = Some sj -> i <> j ->
  m s = false -> disposed s = false ->
  DrawImage_vertices (default zero_DrawImageOptions options) sj = Some (vs, n) ->
  n <> 0 -> image s = Some t -> image sj = Some tj ->
  let o := default zero_DrawImageOptions options in
  let r := graphics_DrawImage t tj vs (opt_GeoM o) (opt_ColorM o)
             (opt_CompositeMode o) (device w) in
  DrawImage i j options w
  = Returns (fst r)
      (log [ev_Lock i;
            ev_gpu (call_DrawImage t tj vs (opt_GeoM o) (opt_ColorM o)
                      (opt_CompositeMode o));
            ev_Unlock i]
         (with_device (snd r)
            (update_image i
               (set_drawImageHistory
                  (drawImageHistory s
                   ++ [{| item_image := j; item_vertices := vs;
                          item_geom := opt_GeoM o; item_colorm := opt_ColorM o;
                          item_mode := opt_CompositeMode o |}]) s) w))).
Proof.
  intros H Hj Hij Hm Hd Hv Hn Ht Htj o r. unfold DrawImage.
  rewrite (bind_load _ _ _ _ Hj), Hv. rewrite bind_must. cbn [fst snd].
  destruct (Z.eqb_spec n 0); [contradiction|].
  destruct (Nat.eqb_spec i j); [contradiction|].
  rewrite (run_locked _ _ _ _ H Hm). run. rewrite Hd. run.
  rewrite (bind_load _ sj);
    [|fields; rewrite !lookup_insert_ne by done; exact Hj].
  unfold gpu_DrawImage. rewrite Ht, Htj. run.
  f_equal. world_eq. f_equal. destruct s; simpl in *; by subst.
Qed.

(** [restore] when the draw of the first item fails: the error is returned
    and the bookkeeping stays as it was. *)
Lemma restore_first_draw_fails w i s ctx img t g1 c cs sc tc err g2 :
  heap w !! i = Some s -> m s = false ->
  disposed s = false -> screen s = false -> volatile s = false ->
  restore_buffer s = Some img ->
  graphics_NewImageFromImage img (filter s) (device w) = ((Some t, None), g1) ->
  drawImageHistory s = c :: cs ->
  heap w !! item_image c = Some sc -> drawImageHistory sc = [] ->
  m sc = false -> item_image c <> i -> image sc = Some tc ->
  graphics_DrawImage t tc (item_vertices c) (item_geom c) (item_colorm c)
    (item_mode c) g1 = (Some err, g2) ->
  restore i ctx w
  = Returns (Some err)
      (log [ev_Lock i; ev_gpu (call_NewImageFromImage img (filter s));
            ev_Lock (item_image c); ev_Unlock (item_image c);
            ev_gpu (call_DrawImage t tc (item_vertices c) (item_geom c)
                      (item_colorm c) (item_mode c));
            ev_Unlock i]
         (with_device g2 (update_image i (set_image (Some t) s) w))).
Proof.
  intros H Hm Hd Hsc Hvo Himg Hup Hhist Hc Hch Hcm Hne Htc Hdraw.
  unfold restore. rewrite (run_locked _ _ _ _ H Hm).
  run. rewrite Hd, Hsc, Hvo. cbn [negb].
  rewrite restore_buffer_set_m, Himg. unfold gpu_NewImageFromImage.
  run. rewrite Hup. run. rewrite Hhist. cbn [replay]. rewrite bind_bind.
  rewrite (bind_hasHistory _ sc);
    [|fields; rewrite !lookup_insert_ne by done; exact Hc|exact Hcm].
  rewrite Hch. run.
  rewrite (bind_load _ sc);
    [|fields; rewrite !lookup_insert_ne by done; exact Hc].
  unfold gpu_DrawImage. rewrite Htc. run. rewrite Hdraw. run.
  f_equal. world_eq. f_equal. destruct s; simpl in *; by subst.
Qed.

(** * Further properties of the operations *)

Lemma bind_result {A B} (c : Proc A) (k : A -> Proc B) w a w' :
  c w = Returns a w' -> bind c k w = k a w'.
Proof. intros E. unfold bind. by rewrite E. Qed.

(** ** Fill and clearIfVolatile *)

(** X5. [Fill] on a disposed image returns the already-disposed error and
    changes nothing.  On a live image it drops the pixel cache and the
    history, makes the colour the base colour, and then calls the texture's
    [Fill] once; what that call returns is returned as it is, so the
    bookkeeping has changed also when the call failed. *)
Theorem Fill_resets_bookkeeping w i s clr :
  heap w !! i = Some s -> m s = false ->
  (disposed s = true ->
   Fill i clr w
   = Returns (Some ErrAlreadyDisposed) (log [ev_Lock i; ev_Unlock i] w))
  /\ (disposed s = false ->
      forall t, image s = Some t ->
      Fill i clr w
      = Returns (fst (graphics_Fill t clr (device w)))
          (log [ev_Lock i; ev_gpu (call_Fill t clr); ev_Unlock i]
             (with_device (snd (graphics_Fill t clr (device w)))
                (update_image i
                   (set_drawImageHistory []
                      (set_baseColor (Some clr) (set_pixels None s))) w)))).
Proof.
  intros H Hm. split.
  - intros Hd. unfold Fill. rewrite (run_locked _ _ _ _ H Hm).
    run. rewrite Hd. run. f_equal. world_eq.
    rewrite (unlock_lock _ Hm). apply insert_id, H.
  - intros Hd t Ht. by apply Fill_ok.
Qed.

(** X6. [clearIfVolatile] leaves a disposed image and an image that is not
    volatile alone and returns nil.  On a live volatile image it drops the
    pixel cache, the base colour and the history and fills the texture with
    [color.Transparent]; what that call returns is returned. *)
Theorem clearIfVolatile_only_volatile w i s :
  heap w !! i = Some s -> m s = false ->
  (disposed s = true \/ volatile s = false ->
   clearIfVolatile i w = Returns None (log [ev_Lock i; ev_Unlock i] w))
  /\ (disposed s = false -> volatile s = true ->
      forall t, image s = Some t ->
      clearIfVolatile i w
      = Returns (fst (graphics_Fill t color_Transparent (device w)))
          (log [ev_Lock i; ev_gpu (call_Fill t color_Transparent); ev_Unlock i]
             (with_device (snd (graphics_Fill t color_Transparent (device w)))
                (update_image i
                   (set_drawImageHistory []
                      (set_baseColor None (set_pixels None s))) w)))).
Proof.
  intros H Hm. unfold clearIfVolatile. rewrite (run_locked _ _ _ _ H Hm).
  split.
  - intros Hno. run.
    assert (forall k : Proc (option error),
      (if disposed s then ret None
       else if negb (volatile s) then ret None else k) = ret None) as Hk.
    { intros k. destruct (disposed s); [reflexivity|].
      destruct Hno as [? | ->]; [discriminate | reflexivity]. }
    rewrite Hk. run. f_equal. world_eq.
    rewrite (unlock_lock _ Hm). apply insert_id, H.
  - intros Hd Hv t Ht. run. rewrite Hd, Hv. cbn [negb].
    unfold gpu_Fill. run. rewrite Ht. run.
    f_equal. world_eq. f_equal. destruct s; simpl in *; by subst.
Qed.

(** ** DrawImage *)

(** X7. [DrawImage] onto a disposed image from another image, with at least
    one quad, returns the already-disposed error: no item is recorded and no
    graphics call is made. *)
Theorem DrawImage_disposed w i j options s sj (vs : list Z) (n : Z) :
  heap w !! i = Some s -> heap w !! j = Some sj -> i <> j ->
  m s = false -> disposed s = true ->
  DrawImage_vertices (default zero_DrawImageOptions options) sj = Some (vs, n) ->
  n <> 0 ->
  DrawImage i j options w
  = Returns (Some ErrAlreadyDisposed) (log [ev_Lock i; ev_Unlock i] w).
Proof.
  intros H Hj Hij Hm Hd Hv Hn. unfold DrawImage.
  rewrite (bind_load _ _ _ _ Hj), Hv. rewrite bind_must. cbn [fst snd].
  destruct (Z.eqb_spec n 0); [contradiction|].
  destruct (Nat.eqb_spec i j); [contradiction|].
  rewrite (run_locked _ _ _ _ H Hm). run. rewrite Hd. run.
  f_equal. world_eq.
  rewrite (unlock_lock _ Hm). apply insert_id, H.
Qed.

(** X8. [DrawImage] onto a live image from another image, with at least one
    quad, appends one item to the end of the history (the source, the
    vertices and the transforms and mode of the options) before it draws,
    and leaves the pixel cache and the base colour as they are.  What the
    draw returns is returned: the item stays recorded when the draw
    failed. *)
Theorem DrawImage_records w i j options s sj (vs : list Z) (n : Z) t tj :
  heap w !! i = Some s -> heap w !! j = Some sj -> i <> j ->
  m s = false -> disposed s = false ->
  DrawImage_vertices (default zero_DrawImageOptions options) sj = Some (vs, n) ->
  n <> 0 -> image s = Some t -> image sj = Some tj ->
  let o := default zero_DrawImageOptions options in
  let r := graphics_DrawImage t tj vs (opt_GeoM o) (opt_ColorM o)
             (opt_CompositeMode o) (device w) in
  exists w1 s1,
    DrawImage i j options w = Returns (fst r) w1
    /\ heap w1 = <[i := s1]> (heap w)
    /\ drawImageHistory s1
       = drawImageHistory s
         ++ [{| item_image := j; item_vertices := vs;
                item_geom := opt_GeoM o; item_colorm := opt_ColorM o;
                item_mode := opt_CompositeMode o |}]
    /\ pixels s1 = pixels s /\ baseColor s1 = baseColor s
    /\ image s1 = image s /\ disposed s1 = false /\ m s1 = false
    /\ device w1 = snd r
    /\ trace w1
       = trace w
         ++ [ev_Lock i;
             ev_gpu (call_DrawImage t tj vs (opt_GeoM o) (opt_ColorM o)
                       (opt_CompositeMode o));
             ev_Unlock i].
Proof.
  intros H Hj Hij Hm Hd Hv Hn Ht Htj o r.
  eexists _, _. split.
  - exact (DrawImage_ok w i j options s sj vs n t tj H Hj Hij Hm Hd Hv Hn Ht Htj).
  - fields. repeat split; try reflexivity; assumption.
Qed.

(** ** At *)

Lemma index_Some_inv {A} (buf : list A) z a :
  GoSlice.index buf z = Some a -> 0 <= z < GoSlice.len buf.
Proof.
  unfold GoSlice.index.
  destruct (Z.leb_spec 0 z); [|discriminate].
  destruct (Z.ltb_spec z (GoSlice.len buf)); [|discriminate]. lia.
Qed.

Lemma rgba_at_in_range (buf : list Z) off :
  0 <= off -> off + 3 < GoSlice.len buf -> is_Some (rgba_at buf off).
Proof.
  intros H0 H3. unfold rgba_at, GoSlice.len in *.
  destruct (lookup_lt_is_Some_2 buf (Z.to_nat off)) as [r ->]; [lia|].
  destruct (lookup_lt_is_Some_2 buf (Z.to_nat (off + 1))) as [g ->]; [lia|].
  destruct (lookup_lt_is_Some_2 buf (Z.to_nat (off + 2))) as [b ->]; [lia|].
  destruct (lookup_lt_is_Some_2 buf (Z.to_nat (off + 3))) as [a ->]; [lia|].
  by eexists.
Qed.

(** X9. [At] does not check [x] against the width: it reads the four bytes
    at offset [4*x + 4*y*width] of the pixel cache.  So a point [width]
    further to the right is the point one row below. *)
Theorem At_ignores_the_width w i s px x y :
  loop_running w = true -> heap w !! i = Some s -> m s = false ->
  disposed s = false -> pixels s = Some px -> drawImageHistory s = [] ->
  GoSlice.len px < 2 ^ 63 ->
  0 <= pixel_offset s x (y + 1) ->
  pixel_offset s x (y + 1) + 3 < GoSlice.len px ->
  exists c,
    rgba_at px (pixel_offset s x (y + 1)) = Some c
    /\ At i (x + width s) y w = Returns c (log [ev_Lock i; ev_Unlock i] w)
    /\ At i x (y + 1) w = Returns c (log [ev_Lock i; ev_Unlock i] w).
Proof.
  intros Hrun H Hm Hd Hpx Hh Hlen H0 H3.
  destruct (rgba_at_in_range px _ H0 H3) as [c Hc].
  assert (pixel_offset s (x + width s) y = pixel_offset s x (y + 1)) as E
    by (unfold pixel_offset; lia).
  exists c. split; [exact Hc|]. split.
  - apply (At_cached w i s (x + width s) y Hrun H Hm px c Hd Hpx Hh Hlen);
      rewrite E; assumption.
  - by apply (At_cached w i s x (y + 1) Hrun H Hm px c Hd Hpx Hh Hlen).
Qed.

(** X10. [At] on a live image with a pixel cache and no history panics with
    an index out of range when the offset [4*x + 4*y*width] is negative or
    its four bytes do not lie within the cache. *)
Theorem At_out_of_range w i s px x y :
  loop_running w = true -> heap w !! i = Some s -> m s = false ->
  disposed s = false -> pixels s = Some px -> drawImageHistory s = [] ->
  - 2 ^ 63 <= pixel_offset s x y -> pixel_offset s x y + 3 < 2 ^ 63 ->
  pixel_offset s x y < 0 \/ GoSlice.len px <= pixel_offset s x y + 3 ->
  At i x y w = Panics out_of_range.
Proof.
  intros Hrun H Hm Hd Hpx Hh Hlo Hhi Hout. unfold At. rewrite Hrun. cbn [negb].
  rewrite (run_locked _ _ _ _ H Hm).
  run. rewrite Hd, Hpx, Hh. run. rewrite Hpx. fields.
  rewrite At_index. fold (pixel_offset s x y).
  set (off := pixel_offset s x y) in *.
  rewrite (wrap_exact off) by (unfold GoInt.in_range; lia).
  unfold GoInt.add. rewrite !wrap_exact by (unfold GoInt.in_range; lia).
  destruct (GoSlice.index px off) as [r|] eqn:Hr; [|reflexivity].
  apply index_Some_inv in Hr. run.
  destruct (GoSlice.index px (off + 1)) as [g|] eqn:Hg; [|reflexivity]. run.
  destruct (GoSlice.index px (off + 2)) as [b|] eqn:Hb; [|reflexivity]. run.
  destruct (GoSlice.index px (off + 3)) as [a|] eqn:Ha; [|reflexivity].
  apply index_Some_inv in Ha. lia.
Qed.

(** X11. The readback of [At] is kept: after an [At] that read the texture
    back, a further [At] on the image makes no graphics call and returns the
    colour at its offset of the bytes read back. *)
Theorem At_keeps_the_readback w i s t buf g' x y c x' y' c' :
  loop_running w = true -> heap w !! i = Some s -> m s = false ->
  disposed s = false ->
  pixels s = None \/ drawImageHistory s <> [] ->
  image s = Some t ->
  graphics_Pixels t ui_GLContext (device w) = ((Some buf, None), g') ->
  GoSlice.len buf < 2 ^ 63 ->
  0 <= pixel_offset s x y -> pixel_offset s x y + 3 < GoSlice.len buf ->
  rgba_at buf (pixel_offset s x y) = Some c ->
  0 <= pixel_offset s x' y' -> pixel_offset s x' y' + 3 < GoSlice.len buf ->
  rgba_at buf (pixel_offset s x' y') = Some c' ->
  exists w1,
    At i x y w = Returns c w1
    /\ trace w1 = trace w ++ [ev_Lock i; ev_gpu (call_Pixels t); ev_Unlock i]
    /\ At i x' y' w1 = Returns c' (log [ev_Lock i; ev_Unlock i] w1).
Proof.
  intros Hrun H Hm Hd Hneed Ht Hread Hlen H0 H3 Hc H0' H3' Hc'.
  eexists. split; [|split].
  - by apply (At_readback w i s x y Hrun H Hm t buf g' c).
  - reflexivity.
  - apply (At_cached _ i (set_drawImageHistory [] (set_pixels (Some buf) s))
             x' y') with (px := buf); try done.
    fields. apply lookup_insert_eq.
Qed.

(** ** restore *)

(** X12. [restore] does nothing on a disposed image.  For the screen it only
    makes a new framebuffer image, and for a volatile image only a new blank
    texture, of the image's size: nothing is uploaded from the pixel cache,
    the history is not replayed, and the pixel cache, the base colour and
    the history stay as they are.  The handle is assigned and the error
    returned as the graphics package gave them. *)
Theorem restore_recreates_only w i s ctx :
  heap w !! i = Some s -> m s = false ->
  (disposed s = true ->
   restore i ctx w = Returns None (log [ev_Lock i; ev_Unlock i] w))
  /\ (disposed s = false -> screen s = true ->
      let r := graphics_NewScreenFramebufferImage (width s) (height s)
                 (device w) in
      restore i ctx w
      = Returns (snd (fst r))
          (log [ev_Lock i;
                ev_gpu (call_NewScreenFramebufferImage (width s) (height s));
                ev_Unlock i]
             (with_device (snd r)
                (update_image i (set_image (fst (fst r)) s) w))))
  /\ (disposed s = false -> screen s = false -> volatile s = true ->
      let r := graphics_NewImage (width s) (height s) (filter s) (device w) in
      restore i ctx w
      = Returns (snd (fst r))
          (log [ev_Lock i;
                ev_gpu (call_NewImage (width s) (height s) (filter s));
                ev_Unlock i]
             (with_device (snd r)
                (update_image i (set_image (fst (fst r)) s) w)))).
Proof.
  intros H Hm. unfold restore. rewrite (run_locked _ _ _ _ H Hm).
  split; [|split].
  - intros Hd. run. rewrite Hd. run. f_equal. world_eq.
    rewrite (unlock_lock _ Hm). apply insert_id, H.
  - intros Hd Hsc. cbv zeta. run. rewrite Hd, Hsc.
    unfold gpu_NewScreenFramebufferImage. run.
    f_equal. world_eq. f_equal. destruct s; simpl in *; by subst.
  - intros Hd Hsc Hv. cbv zeta. run. rewrite Hd, Hsc, Hv. cbn [negb].
    unfold gpu_NewImage. run.
    f_equal. world_eq. f_equal. destruct s; simpl in *; by subst.
Qed.

(** Replay stops at the first draw that fails and returns its error. *)
Lemma replay_draw_fails i t (h : gmap ptr imageImpl) cs1 c cs2 :
  forall w si sc tc g1 err g2,
    heap w !! i = Some si -> image si = Some t ->
    (forall p, p <> i -> heap w !! p = h !! p) ->
    Forall (flat_source h i) cs1 ->
    draws h t cs1 (device w) = Some g1 ->
    flat_source h i c -> h !! item_image c = Some sc -> image sc = Some tc ->
    graphics_DrawImage t tc (item_vertices c) (item_geom c) (item_colorm c)
      (item_mode c) g1 = (Some err, g2) ->
    replay i (cs1 ++ c :: cs2) w
    = Returns (Some err)
        (log (flat_map (replay_events h t) (cs1 ++ [c])) (with_device g2 w)).
Proof.
  induction cs1 as [|c1 cs1 IH];
    intros w si sc tc g1 err g2 Hi Ht Hh Hflat Hd Hc Hsc Htc Hdraw.
  - cbn [app replay draws flat_map] in *. injection Hd as <-.
    destruct Hc as (sc' & Hsc' & Hhist & Hmc & Hne).
    rewrite Hsc in Hsc'. injection Hsc' as <-.
    assert (heap w !! item_image c = Some sc) as Hc' by (rewrite Hh; done).
    unfold replay_events. rewrite Hsc, Htc.
    rewrite (bind_hasHistory _ _ _ _ Hc' Hmc), Hhist.
    unfold gpu_DrawImage. run. rewrite Ht, Htc. run. rewrite Hdraw. run.
    f_equal. world_eq.
  - apply Forall_cons in Hflat as [(s1 & H1 & Hh1 & Hm1 & Hne1) Hflat].
    cbn [app replay draws flat_map] in *. unfold replay_events at 1.
    rewrite H1 in *.
    destruct (image s1) as [t1|] eqn:Ht1; [|discriminate].
    destruct (graphics_DrawImage t t1 (item_vertices c1) (item_geom c1)
                (item_colorm c1) (item_mode c1) (device w)) as [e g'] eqn:Hd1.
    cbn [fst snd] in Hd. destruct e; [discriminate|].
    assert (heap w !! item_image c1 = Some s1) as H1' by (rewrite Hh; done).
    rewrite (bind_hasHistory _ _ _ _ H1' Hm1), Hh1.
    unfold gpu_DrawImage. run. rewrite Ht, Ht1. run. rewrite Hd1. run.
    erewrite (IH _ si sc tc g1 err g2);
      [| fields; exact Hi | exact Ht | fields; exact Hh | exact Hflat
       | fields; exact Hd | exact Hc | exact Hsc | exact Htc | exact Hdraw ].
    f_equal. world_eq.
Qed.

(** X13. When [restore] of an image that is kept across a context loss
    fails, it returns the error and keeps the base colour and the history:
    at the upload (the handle becomes what the upload returned), at a
    replayed draw (the draws before it were made, none after it), and at the
    readback after the replay (the pixel cache becomes what the readback
    returned). *)
Theorem restore_failure_keeps_basis w i s ctx img :
  heap w !! i = Some s -> m s = false ->
  disposed s = false -> screen s = false -> volatile s = false ->
  restore_buffer s = Some img ->
  (forall t' err g1,
     graphics_NewImageFromImage img (filter s) (device w)
     = ((t', Some err), g1) ->
     restore i ctx w
     = Returns (Some err)
         (log [ev_Lock i; ev_gpu (call_NewImageFromImage img (filter s));
               ev_Unlock i]
            (with_device g1 (update_image i (set_image t' s) w))))
  /\ (forall t g1 cs1 c cs2 sc tc g2 err g3,
        graphics_NewImageFromImage img (filter s) (device w)
        = ((Some t, None), g1) ->
        drawImageHistory s = cs1 ++ c :: cs2 ->
        Forall (flat_source (heap w) i) (cs1 ++ [c]) ->
        draws (heap w) t cs1 g1 = Some g2 ->
        heap w !! item_image c = Some sc -> image sc = Some tc ->
        graphics_DrawImage t tc (item_vertices c) (item_geom c)
          (item_colorm c) (item_mode c) g2 = (Some err, g3) ->
        restore i ctx w
        = Returns (Some err)
            (log ([ev_Lock i; ev_gpu (call_NewImageFromImage img (filter s))]
                  ++ flat_map (replay_events (heap w) t) (cs1 ++ [c])
                  ++ [ev_Unlock i])
               (with_device g3 (update_image i (set_image (Some t) s) w))))
  /\ (forall t g1 g2 px err g3,
        graphics_NewImageFromImage img (filter s) (device w)
        = ((Some t, None), g1) ->
        drawImageHistory s <> [] ->
        Forall (flat_source (heap w) i) (drawImageHistory s) ->
        draws (heap w) t (drawImageHistory s) g1 = Some g2 ->
        graphics_Pixels t ctx g2 = ((px, Some err), g3) ->
        restore i ctx w
        = Returns (Some err)
            (log ([ev_Lock i; ev_gpu (call_NewImageFromImage img (filter s))]
                  ++ flat_map (replay_events (heap w) t) (drawImageHistory s)
                  ++ [ev_gpu (call_Pixels t); ev_Unlock i])
               (with_device g3
                  (update_image i (set_pixels px (set_image (Some t) s)) w)))).
Proof.
  intros H Hm Hd Hsc Hvo Himg. split; [|split].
  - intros t' err g1 Hup.
    unfold restore. rewrite (run_locked _ _ _ _ H Hm).
    run. rewrite Hd, Hsc, Hvo. cbn [negb].
    rewrite restore_buffer_set_m, Himg. unfold gpu_NewImageFromImage.
    run. rewrite Hup. run.
    f_equal. world_eq. f_equal. destruct s; simpl in *; by subst.
  - intros t g1 cs1 c cs2 sc tc g2 err g3 Hup Hhist Hflat Hdraws Hc Htc Hdraw.
    apply Forall_app in Hflat as [Hflat1 Hflatc].
    apply Forall_cons in Hflatc as [Hflatc _].
    unfold restore. rewrite (run_locked _ _ _ _ H Hm).
    run. rewrite Hd, Hsc, Hvo. cbn [negb].
    rewrite restore_buffer_set_m, Himg. unfold gpu_NewImageFromImage.
    run. rewrite Hup. run. rewrite Hhist.
    erewrite (bind_result (replay i (cs1 ++ c :: cs2)));
      [|eapply (replay_draw_fails i t (heap w) cs1 c cs2 _
                  (set_image (Some t) (set_m true s)) sc tc g2 err g3);
        [ fields; apply lookup_insert_eq | reflexivity
        | intros p Hp; fields; by rewrite !lookup_insert_ne
        | exact Hflat1 | fields; exact Hdraws | exact Hflatc | exact Hc
        | exact Htc | exact Hdraw ]].
    run. f_equal. world_eq. f_equal. destruct s; simpl in *; by subst.
  - intros t g1 g2 px err g3 Hup Hne Hflat Hdraws Hread.
    unfold restore. rewrite (run_locked _ _ _ _ H Hm).
    run. rewrite Hd, Hsc, Hvo. cbn [negb].
    rewrite restore_buffer_set_m, Himg. unfold gpu_NewImageFromImage.
    run. rewrite Hup. run.
    erewrite (bind_replay_flat i t (heap w) _ _ _
                (set_image (Some t) (set_m true s)) g2);
      [ | fields; apply lookup_insert_eq | reflexivity
        | intros p Hp; fields; by rewrite !lookup_insert_ne
        | exact Hflat | fields; exact Hdraws ].
    destruct (drawImageHistory s) as [|c0 cs0] eqn:Hhist; [contradiction|].
    change (0 <? GoSlice.len (c0 :: cs0)) with true.
    unfold gpu_Pixels. run. rewrite Hread. run. f_equal. world_eq.
    f_equal. destruct s; simpl in *; by subst.
Qed.

(** ** Dispose *)

(** X14. When the graphics package fails to release the texture, [Dispose]
    returns that error and the image stays as it was: not disposed, with its
    texture handle, its bookkeeping and its finalizer. *)
Theorem Dispose_backend_error w i s t err g' :
  heap w !! i = Some s -> m s = false -> disposed s = false ->
  screen s = false -> image s = Some t ->
  graphics_Dispose t (device w) = (Some err, g') ->
  Dispose i w
  = Returns (Some err)
      (log [ev_Lock i; ev_gpu (call_Dispose t); ev_Unlock i]
         (with_device g' w)).
Proof.
  intros H Hm Hd Hsc Ht Hrel. unfold Dispose.
  rewrite (run_locked _ _ _ _ H Hm). run. rewrite Hd, Hsc. cbn [negb].
  unfold gpu_Dispose. rewrite Ht. run. rewrite Hrel. run.
  f_equal. world_eq.
  rewrite (unlock_lock _ Hm). apply insert_id, H.
Qed.

(** ** ReplacePixels *)

(** X15. [ReplacePixels] on a live image with a buffer of the right length
    makes the buffer the pixel cache, clears the base colour and the
    history, and uploads the buffer; what the upload returns is returned.
    An [At] that follows makes no graphics call: it returns the colour at
    its offset of the buffer. *)
Theorem ReplacePixels_then_At w i s (p : list Z) t x y c :
  loop_running w = true ->
  heap w !! i = Some s -> m s = false -> disposed s = false ->
  image s = Some t ->
  GoSlice.len p = byte_size s ->
  (forall px, pixels s = Some px -> length px = length p) ->
  GoSlice.len p < 2 ^ 63 ->
  0 <= pixel_offset s x y -> pixel_offset s x y + 3 < GoSlice.len p ->
  rgba_at p (pixel_offset s x y) = Some c ->
  exists w1,
    ReplacePixels i p w
    = Returns (fst (graphics_ReplacePixels t p (device w))) w1
    /\ w1 = log [ev_Lock i; ev_gpu (call_ReplacePixels t p); ev_Unlock i]
              (with_device (snd (graphics_ReplacePixels t p (device w)))
                 (update_image i
                    (set_drawImageHistory []
                       (set_baseColor None (set_pixels (Some p) s))) w))
    /\ At i x y w1 = Returns c (log [ev_Lock i; ev_Unlock i] w1).
Proof.
  intros Hrun H Hm Hd Ht Hl Hcache Hlen H0 H3 Hc.
  eexists. split; [|split; [reflexivity|]].
  - unfold ReplacePixels. rewrite (bind_load _ _ _ _ H).
    rewrite Hl, Z.eqb_refl. cbn [negb].
    rewrite (run_locked _ _ _ _ H Hm).
    destruct s as [im di wi he fi px bc hi vo sc mm]; simpl in *; subst.
    unfold byte_size in Hl; simpl in Hl.
    destruct px as [old|].
    + run. unfold gpu_ReplacePixels. run.
      rewrite (copy_same_length old p) by (by apply Hcache).
      f_equal. world_eq.
    + run. rewrite mul_4_comm, <- Hl, make_len.
      run. unfold gpu_ReplacePixels. run.
      rewrite (copy_same_length (repeat 0 (length p)) p)
        by (by rewrite repeat_length).
      f_equal. world_eq.
  - apply (At_cached _ i
             (set_drawImageHistory [] (set_baseColor None (set_pixels (Some p) s)))
             x y) with (px := p); try done.
    fields. apply lookup_insert_eq.
Qed.

(** ** The constructors *)

(** X3. When the graphics package fails to make the texture, [newImageImpl]
    and [newScreenImageImpl] return nil and the error: no image is
    allocated and no finalizer is set. *)
Theorem constructors_fail_clean w wd ht f v t err g1 :
  (graphics_NewImage wd ht f (device w) = ((t, Some err), g1) ->
   newImageImpl wd ht f v w
   = Returns (None, Some err)
       (log [ev_gpu (call_NewImage wd ht f)] (with_device g1 w)))
  /\ (graphics_NewScreenFramebufferImage wd ht (device w)
      = ((t, Some err), g1) ->
      newScreenImageImpl wd ht w
      = Returns (None, Some err)
          (log [ev_gpu (call_NewScreenFramebufferImage wd ht)]
             (with_device g1 w))).
Proof.
  split; intros Hnew.
  - unfold newImageImpl, gpu_NewImage. run. by rewrite Hnew.
  - unfold newScreenImageImpl, gpu_NewScreenFramebufferImage. run.
    by rewrite Hnew.
Qed.

Lemma lookup_repeat {A} (a : A) n k :
  (k < n)%nat -> repeat a n !! k = Some a.
Proof.
  revert k. induction n as [|n IH]; intros [|k] Hk; simpl; try lia.
  - reflexivity.
  - apply IH. lia.
Qed.

Lemma rgba_at_zeros n z :
  0 <= z -> 4 * z + 3 < Z.of_nat n ->
  rgba_at (repeat 0 n) (4 * z) = Some (color_RGBA 0 0 0 0).
Proof.
  intros H0 H3. unfold rgba_at.
  rewrite !lookup_repeat by lia. reflexivity.
Qed.

(** X4. A new image is transparent black, and sampling it needs no
    readback: after [newImageImpl] for a width and a height above zero whose
    byte count does not overflow, the image is at an address that was free,
    and [At] at any point within the image returns [color.RGBA{0, 0, 0, 0}]
    without a graphics call. *)
Theorem newImageImpl_then_At w wd ht f v t g1 x y :
  loop_running w = true ->
  graphics_NewImage wd ht f (device w) = ((t, None), g1) ->
  0 < wd -> 0 < ht -> wd * ht * 4 < 2 ^ 63 ->
  0 <= x < wd -> 0 <= y < ht ->
  exists i w1,
    newImageImpl wd ht f v w = Returns (Some i, None) w1
    /\ heap w !! i = None
    /\ (forall j, j <> i -> heap w1 !! j = heap w !! j)
    /\ At i x y w1
       = Returns (color_RGBA 0 0 0 0) (log [ev_Lock i; ev_Unlock i] w1).
Proof.
  intros Hrun Hnew Hwd Hht Hb Hx Hy.
  eexists _, _. split; [|split; [|split]].
  - apply (newImageImpl_ok w wd ht f v t g1 Hnew); nia.
  - apply not_elem_of_dom, is_fresh.
  - intros j Hj. fields. by rewrite lookup_insert_ne.
  - eapply At_cached with (px := repeat 0 (Z.to_nat (wd * ht * 4))).
    + exact Hrun.
    + fields. apply lookup_insert_eq.
    + reflexivity.
    + reflexivity.
    + reflexivity.
    + reflexivity.
    + unfold GoSlice.len. rewrite repeat_length. lia.
    + unfold pixel_offset. fields. nia.
    + unfold pixel_offset, GoSlice.len. fields. rewrite repeat_length. nia.
    + unfold pixel_offset. fields. apply rgba_at_zeros; nia.
Qed.

(** ** The queries *)

(** X16. [hasHistory], [isDisposed] and [isInvalidated] change no image and
    not the device: they take and release the mutex and return whether the
    history is not empty, the disposed flag, and what the texture's
    [IsInvalidated] says. *)
Theorem queries_change_nothing w i s :
  heap w !! i = Some s -> m s = false ->
  hasHistory i w
  = Returns (match drawImageHistory s with [] => false | _ :: _ => true end)
      (log [ev_Lock i; ev_Unlock i] w)
  /\ isDisposed i w = Returns (disposed s) (log [ev_Lock i; ev_Unlock i] w)
  /\ (forall t ctx,
        image s = Some t ->
        isInvalidated i ctx w
        = Returns (graphics_IsInvalidated t ctx (device w))
            (log [ev_Lock i; ev_Unlock i] w)).
Proof.
  intros H Hm.
  assert (<[i := set_m false (set_m true s)]> (heap w) = heap w) as E
    by (rewrite (unlock_lock _ Hm); apply insert_id, H).
  split; [|split].
  - unfold hasHistory. rewrite (run_locked _ _ _ _ H Hm).
    run. f_equal. world_eq. exact E.
  - unfold isDisposed. rewrite (run_locked _ _ _ _ H Hm).
    run. f_equal. world_eq. exact E.
  - intros t ctx Ht. unfold isInvalidated. rewrite (run_locked _ _ _ _ H Hm).
    run. rewrite Ht. run. unfold bind at 1. run. f_equal. world_eq. exact E.
Qed.

(** ** newImageImplFromImage *)

Lemma packed_snoc pix stride wd h :
  packed pix stride wd (S h)
  = packed pix stride wd h
    ++ take (Z.to_nat (4 * wd)) (drop (h * Z.to_nat stride) pix).
Proof.
  unfold packed. rewrite seq_S, flat_map_app. simpl. by rewrite app_nil_r.
Qed.

Lemma packed_length pix stride wd h :
  0 <= wd -> 0 <= stride ->
  (forall k, (k < h)%nat -> Z.of_nat k * stride + 4 * wd <= GoSlice.len pix) ->
  length (packed pix stride wd h) = (Z.to_nat (4 * wd) * h)%nat.
Proof.
  intros Hwd Hst. induction h as [|h IH]; intros Hrows.
  - simpl. lia.
  - rewrite packed_snoc, length_app, IH by (intros k Hk; apply Hrows; lia).
    rewrite length_take, length_drop.
    specialize (Hrows h ltac:(lia)). unfold GoSlice.len in Hrows. nia.
Qed.

Lemma packed_lookup pix stride wd h y r :
  0 <= wd -> 0 <= stride ->
  (forall k, (k < h)%nat -> Z.of_nat k * stride + 4 * wd <= GoSlice.len pix) ->
  (y < h)%nat -> (r < Z.to_nat (4 * wd))%nat ->
  packed pix stride wd h !! (Z.to_nat (4 * wd) * y + r)%nat
  = pix !! (y * Z.to_nat stride + r)%nat.
Proof.
  intros Hwd Hst. induction h as [|h IH]; intros Hrows Hy Hr; [lia|].
  rewrite packed_snoc.
  assert (length (packed pix stride wd h) = (Z.to_nat (4 * wd) * h)%nat) as Hlen
    by (apply packed_length; try done; intros k Hk; apply Hrows; lia).
  destruct (decide (y < h)%nat) as [Hlt|Hge].
  - rewrite lookup_app_l by (rewrite Hlen; nia).
    apply IH; [intros k Hk; apply Hrows; lia | exact Hlt | exact Hr].
  - assert (y = h) as -> by lia.
    rewrite lookup_app_r by (rewrite Hlen; lia).
    rewrite Hlen.
    replace (Z.to_nat (4 * wd) * h + r - Z.to_nat (4 * wd) * h)%nat with r by lia.
    rewrite lookup_take_lt by lia. by rewrite lookup_drop.
Qed.

(** The loop of [pack_rows]: when every row lies within [pix], the pixel
    cache ends up as the rows one after the other. *)
Lemma pack_rows_spec pix stride wd dx dy (n : nat) :
  forall (j : nat) (pixels : list Z),
    0 <= wd -> 0 <= stride ->
    Z.of_nat (j + n) < 2 ^ 63 ->
    4 * wd * Z.of_nat (j + n) < 2 ^ 63 ->
    GoSlice.len pix < 2 ^ 63 ->
    (forall k, (k < j + n)%nat ->
               Z.of_nat k * stride + 4 * wd <= GoSlice.len pix) ->
    pixels = packed pix stride wd j ++ repeat 0 (Z.to_nat (4 * wd) * n) ->
    pack_rows n (Z.of_nat j) wd
      {| Pix := pix; Stride := stride; Dx := dx; Dy := dy |} pixels
    = Some (packed pix stride wd (j + n)).
Proof.
  induction n as [|n IH]; intros j pixels Hwd Hst Hh Hb Hpix Hrows ->.
  - simpl. rewrite Nat.mul_0_r, Nat.add_0_r. simpl. by rewrite app_nil_r.
  - cbn [pack_rows Pix Stride].
    assert (length (packed pix stride wd j) = (Z.to_nat (4 * wd) * j)%nat) as Hlen
      by (apply packed_length; try done; intros k Hk; apply Hrows; lia).
    pose proof (Hrows j ltac:(lia)) as Hrow.
    unfold GoInt.mul, GoInt.add.
    rewrite (wrap_exact (Z.of_nat j * wd)) by (unfold GoInt.in_range; nia).
    rewrite (wrap_exact (Z.of_nat j * wd * 4)) by (unfold GoInt.in_range; nia).
    rewrite (wrap_exact (Z.of_nat j + 1)) by (unfold GoInt.in_range; lia).
    rewrite (wrap_exact ((Z.of_nat j + 1) * wd)) by (unfold GoInt.in_range; nia).
    rewrite (wrap_exact ((Z.of_nat j + 1) * wd * 4))
      by (unfold GoInt.in_range; nia).
    rewrite (wrap_exact (Z.of_nat j * stride)) by (unfold GoInt.in_range; nia).
    set (row := Z.to_nat (4 * wd)) in *.
    rewrite slice_ok;
      [ | nia | nia
        | unfold GoSlice.len; rewrite length_app, Hlen, repeat_length; nia ].
    rewrite slice_from_ok by nia.
    replace (Z.to_nat (Z.of_nat j * wd * 4)) with (row * j)%nat by (unfold row; nia).
    replace (Z.to_nat ((Z.of_nat j + 1) * wd * 4 - Z.of_nat j * wd * 4))
      with row by (unfold row; nia).
    replace (Z.to_nat ((Z.of_nat j + 1) * wd * 4)) with (row * j + row)%nat
      by (unfold row; nia).
    replace (Z.to_nat (Z.of_nat j * stride)) with (j * Z.to_nat stride)%nat by nia.
    replace (row * S n)%nat with (row + row * n)%nat by lia.
    rewrite repeat_app.
    rewrite <- Hlen at 1. rewrite take_app_length.
    rewrite <- Hlen at 1. rewrite drop_app_length.
    rewrite take_app_length' by (by rewrite repeat_length).
    rewrite <- Hlen. rewrite <- drop_drop, drop_app_length.
    rewrite drop_app_length' by (by rewrite repeat_length).
    unfold GoSlice.copy. rewrite repeat_length.
    rewrite (drop_ge (repeat 0 row))
      by (rewrite repeat_length, length_drop; unfold GoSlice.len in Hrow;
          unfold row; nia).
    rewrite app_nil_r.
    replace (Z.of_nat j + 1) with (Z.of_nat (S j)) by lia.
    replace (j + S n)%nat with (S j + n)%nat by lia.
    apply IH; try done.
    + replace (S j + n)%nat with (j + S n)%nat by lia. exact Hh.
    + replace (S j + n)%nat with (j + S n)%nat by lia. exact Hb.
    + intros k Hk. apply Hrows. lia.
    + by rewrite packed_snoc, <- app_assoc.
Qed.

Lemma rgba_at_packed pix stride wd ht x y :
  0 <= wd -> 0 <= stride -> 0 <= ht ->
  (forall k, (k < Z.to_nat ht)%nat ->
             Z.of_nat k * stride + 4 * wd <= GoSlice.len pix) ->
  0 <= x < wd -> 0 <= y < ht ->
  rgba_at (packed pix stride wd (Z.to_nat ht)) (4 * (x + y * wd))
  = rgba_at pix (y * stride + 4 * x).
Proof.
  intros Hwd Hst Hht Hrows Hx Hy. unfold rgba_at.
  assert (forall k, 0 <= k < 4 ->
    packed pix stride wd (Z.to_nat ht) !! Z.to_nat (4 * (x + y * wd) + k)
    = pix !! Z.to_nat (y * stride + 4 * x + k)) as E.
  { intros k Hk.
    replace (Z.to_nat (4 * (x + y * wd) + k))
      with (Z.to_nat (4 * wd) * Z.to_nat y + Z.to_nat (4 * x + k))%nat by nia.
    replace (Z.to_nat (y * stride + 4 * x + k))
      with (Z.to_nat y * Z.to_nat stride + Z.to_nat (4 * x + k))%nat by nia.
    apply packed_lookup; try done; lia. }
  pose proof (E 0 ltac:(lia)) as E0. rewrite !Z.add_0_r in E0.
  rewrite E0, !E by lia. reflexivity.
Qed.

Section FromRGBA.

Variable draw : image_RGBA -> image_Image -> list Z.
Variables (w : World) (pix : list Z) (stride wd ht : Z) (f : Filter).

Hypothesis Hwd : 0 <= 4 * wd < 2 ^ 63.
Hypothesis Hht : 0 <= ht < 2 ^ 63.
Hypothesis Hst : 0 <= stride.
Hypothesis Hb : 4 * wd * ht < 2 ^ 63.
Hypothesis Hpix : GoSlice.len pix < 2 ^ 63.
Hypothesis Hrows :
  forall k, 0 <= k < ht -> k * stride + 4 * wd <= GoSlice.len pix.

Let source : image_Image :=
  Image_RGBA pix stride {| Min_X := 0; Min_Y := 0; Max_X := wd; Max_Y := ht |}.
Let img : image_RGBA := {| Pix := pix; Stride := stride; Dx := wd; Dy := ht |}.

Lemma fromRGBA_upload :
  newImageImplFromImage draw source f w
  = bind (gpu_NewImageFromImage img f)
      (fun r =>
         match snd r with
         | Some err => ret (None, Some err)
         | None =>
             i <- alloc {| image := fst r; disposed := false; width := wd;
                           height := ht; filter := f;
                           pixels := Some (packed pix stride wd (Z.to_nat ht));
                           baseColor := None; drawImageHistory := [];
                           volatile := false; screen := false; m := false |} ;;
             SetFinalizer i true ;;;
             ret (Some i, None)
         end) w.
Proof.
  unfold newImageImplFromImage, source.
  cbn [Image_Bounds Rectangle_Size RGBA_at_origin Min_X Min_Y Max_X Max_Y
       fst snd].
  rewrite !Z.sub_0_r, !wrap_exact by (unfold GoInt.in_range; lia).
  change ((0 =? 0) && (0 =? 0)) with true. cbv iota.
  rewrite bind_ret.
  unfold GoInt.mul at 1 2.
  rewrite (wrap_exact (4 * wd)) by (unfold GoInt.in_range; lia).
  rewrite (wrap_exact (4 * wd * ht)) by (unfold GoInt.in_range; nia).
  unfold GoSlice.make. destruct (Z.ltb_spec (4 * wd * ht) 0); [nia|].
  rewrite bind_must.
  rewrite (pack_rows_spec pix stride wd wd ht (Z.to_nat ht) O); try lia.
  - rewrite bind_must. reflexivity.
  - intros k Hk. apply Hrows. lia.
  - simpl. f_equal. nia.
Qed.

End FromRGBA.

(** X1. [newImageImplFromImage] of an RGBA image at the origin, of [wd] by
    [ht] pixels with every row within [Pix]: the image is uploaded as it is,
    and the pixel cache of the new image holds its rows one after the other,
    without the bytes that [Stride] leaves between them, so the pixel
    (x, y) of the source, at [y*Stride + 4*x] of [Pix], is at
    [4*(x + y*wd)] of the cache.  When the upload fails, nil and the error
    are returned and no image is allocated. *)
Theorem newImageImplFromImage_packs_rows draw w pix stride wd ht f :
  0 <= 4 * wd < 2 ^ 63 -> 0 <= ht < 2 ^ 63 -> 0 <= stride ->
  4 * wd * ht < 2 ^ 63 -> GoSlice.len pix < 2 ^ 63 ->
  (forall k, 0 <= k < ht -> k * stride + 4 * wd <= GoSlice.len pix) ->
  let source :=
    Image_RGBA pix stride
      {| Min_X := 0; Min_Y := 0; Max_X := wd; Max_Y := ht |} in
  let img := {| Pix := pix; Stride := stride; Dx := wd; Dy := ht |} in
  let i := fresh (dom (heap w)) in
  (forall t err g1,
     graphics_NewImageFromImage img f (device w) = ((t, Some err), g1) ->
     newImageImplFromImage draw source f w
     = Returns (None, Some err)
         (log [ev_gpu (call_NewImageFromImage img f)] (with_device g1 w)))
  /\ (forall t g1,
        graphics_NewImageFromImage img f (device w) = ((t, None), g1) ->
        newImageImplFromImage draw source f w
        = Returns (Some i, None)
            (log [ev_gpu (call_NewImageFromImage img f);
                  ev_SetFinalizer i true]
               (with_finalizers ({[i]} ∪ finalizers w)
                  (update_image i
                     {| image := t; disposed := false; width := wd;
                        height := ht; filter := f;
                        pixels := Some (packed pix stride wd (Z.to_nat ht));
                        baseColor := None; drawImageHistory := [];
                        volatile := false; screen := false; m := false |}
                     (with_device g1 w)))))
  /\ (forall x y,
        0 <= x < wd -> 0 <= y < ht ->
        rgba_at (packed pix stride wd (Z.to_nat ht)) (4 * (x + y * wd))
        = rgba_at pix (y * stride + 4 * x)).
Proof.
  intros Hwd Hht Hst Hb Hpix Hrows. cbv zeta.
  split; [|split].
  - intros t err g1 Hup.
    rewrite (fromRGBA_upload draw w pix stride wd ht f Hwd Hht Hst Hb Hpix Hrows).
    unfold gpu_NewImageFromImage. run. by rewrite Hup.
  - intros t g1 Hup.
    rewrite (fromRGBA_upload draw w pix stride wd ht f Hwd Hht Hst Hb Hpix Hrows).
    unfold gpu_NewImageFromImage. run. rewrite Hup. run.
    f_equal. world_eq.
  - intros x y Hx Hy. apply rgba_at_packed; try lia.
    intros k Hk. apply Hrows. lia.
Qed.

(** X2. Sampling an image made from an RGBA image needs no readback: after
    [newImageImplFromImage], [At] at a point (x, y) within the image
    returns the colour of the source at that point, the four bytes at
    [y*Stride + 4*x] of its [Pix], without a graphics call. *)
Theorem newImageImplFromImage_then_At draw w pix stride wd ht f t g1 x y c :
  loop_running w = true ->
  0 <= 4 * wd < 2 ^ 63 -> 0 <= ht < 2 ^ 63 -> 0 <= stride ->
  4 * wd * ht < 2 ^ 63 -> GoSlice.len pix < 2 ^ 63 ->
  (forall k, 0 <= k < ht -> k * stride + 4 * wd <= GoSlice.len pix) ->
  graphics_NewImageFromImage
    {| Pix := pix; Stride := stride; Dx := wd; Dy := ht |} f (device w)
  = ((t, None), g1) ->
  0 <= x < wd -> 0 <= y < ht ->
  rgba_at pix (y * stride + 4 * x) = Some c ->
  exists i w1,
    newImageImplFromImage draw
      (Image_RGBA pix stride
         {| Min_X := 0; Min_Y := 0; Max_X := wd; Max_Y := ht |}) f w
    = Returns (Some i, None) w1
    /\ heap w !! i = None
    /\ At i x y w1 = Returns c (log [ev_Lock i; ev_Unlock i] w1).
Proof.
  intros Hrun Hwd Hht Hst Hb Hpix Hrows Hup Hx Hy Hc.
  assert (forall k, (k < Z.to_nat ht)%nat ->
                    Z.of_nat k * stride + 4 * wd <= GoSlice.len pix) as Hrows'
    by (intros k Hk; apply Hrows; lia).
  eexists _, _. split; [|split].
  - rewrite (fromRGBA_upload draw w pix stride wd ht f Hwd Hht Hst Hb Hpix Hrows).
    unfold gpu_NewImageFromImage. run. rewrite Hup. run. reflexivity.
  - apply not_elem_of_dom, is_fresh.
  - eapply At_cached with (px := packed pix stride wd (Z.to_nat ht)).
    + exact Hrun.
    + fields. apply lookup_insert_eq.
    + reflexivity.
    + reflexivity.
    + reflexivity.
    + reflexivity.
    + unfold GoSlice.len. rewrite packed_length by (try done; lia). nia.
    + unfold pixel_offset. fields. nia.
    + unfold pixel_offset, GoSlice.len. fields.
      rewrite packed_length by (try done; lia). nia.
    + unfold pixel_offset. fields.
      rewrite rgba_at_packed by (try done; lia). exact Hc.
Qed.

Lemma packed_whole pix wd h :
  0 <= wd ->
  packed pix (4 * wd) wd h = take (Z.to_nat (4 * wd) * h) pix.
Proof.
  intros Hwd. induction h as [|h IH].
  - by rewrite Nat.mul_0_r.
  - rewrite packed_snoc, IH.
    replace (h * Z.to_nat (4 * wd))%nat with (Z.to_nat (4 * wd) * h)%nat by lia.
    rewrite take_take_drop. f_equal. lia.
Qed.

(** X23. [newImageImplFromImage] of a source that is not an RGBA image at
    the origin: a new RGBA image of the size of the source is made and
    handed to [draw.Draw], and what [draw.Draw] leaves in it is uploaded and
    is, byte for byte, the pixel cache of the new image. *)
Theorem newImageImplFromImage_converts draw w source wd ht f :
  RGBA_at_origin source = None ->
  Rectangle_Size (Image_Bounds source) = (wd, ht) ->
  0 <= 4 * wd < 2 ^ 63 -> 0 <= ht < 2 ^ 63 -> 4 * wd * ht < 2 ^ 63 ->
  let newImg :=
    {| Pix := repeat 0 (Z.to_nat (4 * wd * ht)); Stride := 4 * wd;
       Dx := wd; Dy := ht |} in
  length (draw newImg source) = Z.to_nat (4 * wd * ht) ->
  let img :=
    {| Pix := draw newImg source; Stride := 4 * wd; Dx := wd; Dy := ht |} in
  let i := fresh (dom (heap w)) in
  forall t g1,
    graphics_NewImageFromImage img f (device w) = ((t, None), g1) ->
    newImageImplFromImage draw source f w
    = Returns (Some i, None)
        (log [ev_gpu (call_NewImageFromImage img f); ev_SetFinalizer i true]
           (with_finalizers ({[i]} ∪ finalizers w)
              (update_image i
                 {| image := t; disposed := false; width := wd;
                    height := ht; filter := f;
                    pixels := Some (draw newImg source);
                    baseColor := None; drawImageHistory := [];
                    volatile := false; screen := false; m := false |}
                 (with_device g1 w)))).
Proof.
  intros Hno Hsize Hwd Hht Hb. cbv zeta. intros Hlen t g1 Hup.
  unfold newImageImplFromImage. rewrite Hno, Hsize. cbn [fst snd].
  assert (image_NewRGBA wd ht
          = Some {| Pix := repeat 0 (Z.to_nat (4 * wd * ht));
                    Stride := 4 * wd; Dx := wd; Dy := ht |}) as Hnew.
  { unfold image_NewRGBA, GoInt.mul. rewrite !Z.abs_eq by lia.
    rewrite (wrap_exact (4 * wd)) by (unfold GoInt.in_range; lia).
    rewrite (wrap_exact (4 * wd * ht)) by (unfold GoInt.in_range; nia).
    unfold GoSlice.make.
    destruct (Z.ltb_spec (4 * wd * ht) 0); [nia | reflexivity]. }
  rewrite Hnew. run. cbn [Pix Stride Dx Dy].
  unfold GoInt.mul at 1 2.
  rewrite (wrap_exact (4 * wd)) by (unfold GoInt.in_range; lia).
  rewrite (wrap_exact (4 * wd * ht)) by (unfold GoInt.in_range; nia).
  unfold GoSlice.make. destruct (Z.ltb_spec (4 * wd * ht) 0); [nia|].
  rewrite bind_must.
  rewrite (pack_rows_spec _ (4 * wd) wd wd ht (Z.to_nat ht) O); try lia.
  - rewrite packed_whole by lia.
    rewrite take_ge by (rewrite Hlen; nia).
    unfold gpu_NewImageFromImage. run. rewrite Hup. run.
    f_equal. world_eq.
  - unfold GoSlice.len. rewrite Hlen. nia.
  - intros k Hk. unfold GoSlice.len. rewrite Hlen. nia.
  - simpl. f_equal. nia.
Qed.

(** ** Flattening, then restore *)

(** X24. After [resetHistoryIfNeeded] has read an image back, [restore] of
    that image draws from no other image: it uploads the bytes read back
    and makes no other graphics call. *)
Theorem resetHistoryIfNeeded_then_restore
    w i s target t (buf : list Z) g' ctx t' g1 :
  heap w !! i = Some s -> m s = false ->
  disposed s = false -> screen s = false -> volatile s = false ->
  (exists c, In c (drawImageHistory s) /\ item_image c = target) ->
  image s = Some t ->
  graphics_Pixels t ui_GLContext (device w) = ((Some buf, None), g') ->
  0 <= 4 * width s < 2 ^ 63 -> 0 <= height s < 2 ^ 63 ->
  4 * width s * height s < 2 ^ 63 ->
  GoSlice.len buf = 4 * width s * height s ->
  let img :=
    {| Pix := buf; Stride := 4 * width s; Dx := width s; Dy := height s |} in
  graphics_NewImageFromImage img (filter s) g' = ((Some t', None), g1) ->
  exists w1,
    resetHistoryIfNeeded i target w = Returns None w1
    /\ heap w1 !! i
       = Some (set_drawImageHistory []
                 (set_baseColor None (set_pixels (Some buf) s)))
    /\ restore i ctx w1
       = Returns None
           (log [ev_Lock i; ev_gpu (call_NewImageFromImage img (filter s));
                 ev_Unlock i]
              (with_device g1
                 (update_image i
                    (set_image (Some t')
                       (set_drawImageHistory []
                          (set_baseColor None (set_pixels (Some buf) s))))
                    w1))).
Proof.
  intros H Hm Hd Hsc Hvo Hex Ht Hread Hw Hh Hb Hlen. cbv zeta. intros Hup.
  set (s1 := set_drawImageHistory []
               (set_baseColor None (set_pixels (Some buf) s))).
  assert (resetHistoryIfNeeded i target w
          = Returns None
              (log [ev_Lock i; ev_gpu (call_Pixels t); ev_Unlock i]
                 (with_device g' (update_image i s1 w)))) as Hreset.
  { unfold resetHistoryIfNeeded. rewrite (run_locked _ _ _ _ H Hm).
    run. rewrite Hd.
    assert (hasHistoryWith (set_m true s) target = true) as Hwith
      by (apply hasHistoryWith_spec; exact Hex).
    destruct Hex as (c0 & Hin & _).
    destruct (drawImageHistory s) as [|c cs] eqn:Hhist; [destruct Hin|].
    rewrite Hwith. cbn [negb]. unfold gpu_Pixels. rewrite Ht. run.
    rewrite Hread. run. f_equal. world_eq.
    f_equal. unfold s1. destruct s; simpl in *; by subst. }
  set (W := log [ev_Lock i; ev_gpu (call_Pixels t); ev_Unlock i]
              (with_device g' (update_image i s1 w))) in *.
  set (img := {| Pix := buf; Stride := 4 * width s; Dx := width s;
                 Dy := height s |}) in *.
  assert (heap W !! i = Some s1) as H1 by apply lookup_insert_eq.
  destruct (restore_buffer_spec s1 Hw Hh Hb) as (Hbuf & _ & _).
  assert (restore_buffer s1 = Some img) as Himg
    by (apply (Hbuf buf); [reflexivity | exact Hlen]).
  exists W. split; [exact Hreset|]. split; [exact H1|].
  rewrite (restore_without_history W i s1 ctx img t' g1 H1 Hm Hd Hsc Hvo Himg
             Hup eq_refl).
  reflexivity.
Qed.

(** ** The screen *)

Lemma newScreenImageImpl_ok w wd ht t g1 :
  graphics_NewScreenFramebufferImage wd ht (device w) = ((t, None), g1) ->
  0 <= wd * ht -> wd * ht * 4 < 2 ^ 63 ->
  newScreenImageImpl wd ht w
  = Returns (Some (fresh (dom (heap w))), None)
      (log [ev_gpu (call_NewScreenFramebufferImage wd ht);
            ev_SetFinalizer (fresh (dom (heap w))) true]
         (with_finalizers ({[fresh (dom (heap w))]} ∪ finalizers w)
            (update_image (fresh (dom (heap w)))
               {| image := t; disposed := false; width := wd; height := ht;
                  filter := FilterNearest;
                  pixels := Some (repeat 0 (Z.to_nat (wd * ht * 4)));
                  baseColor := None; drawImageHistory := [];
                  volatile := true; screen := true; m := false |}
               (with_device g1 w)))).
Proof.
  intros Hnew H0 Hb. unfold newScreenImageImpl, gpu_NewScreenFramebufferImage.
  run. rewrite Hnew. fields. unfold GoInt.mul.
  rewrite (wrap_exact (wd * ht)) by (unfold GoInt.in_range; lia).
  rewrite (wrap_exact (wd * ht * 4)) by (unfold GoInt.in_range; lia).
  unfold GoSlice.make. destruct (Z.ltb_spec (wd * ht * 4) 0); [lia|].
  run. f_equal. world_eq.
Qed.

(** X25. The image that [newScreenImageImpl] makes is volatile and the
    screen: [clearIfVolatile] on it drops its pixel cache and fills its
    texture with [color.Transparent], and [Dispose] of it makes no graphics
    call. *)
Theorem newScreenImageImpl_makes_the_screen w wd ht t g1 :
  graphics_NewScreenFramebufferImage wd ht (device w) = ((Some t, None), g1) ->
  0 <= wd * ht -> wd * ht * 4 < 2 ^ 63 ->
  exists i w1 s1,
    newScreenImageImpl wd ht w = Returns (Some i, None) w1
    /\ heap w !! i = None
    /\ heap w1 !! i = Some s1
    /\ volatile s1 = true /\ screen s1 = true
    /\ pixels s1 = Some (repeat 0 (Z.to_nat (wd * ht * 4)))
    /\ clearIfVolatile i w1
       = Returns (fst (graphics_Fill t color_Transparent g1))
           (log [ev_Lock i; ev_gpu (call_Fill t color_Transparent);
                 ev_Unlock i]
              (with_device (snd (graphics_Fill t color_Transparent g1))
                 (update_image i (set_pixels None s1) w1)))
    /\ exists w2,
         Dispose i w1 = Returns None w2
         /\ device w2 = g1
         /\ trace w2
            = trace w1 ++ [ev_Lock i; ev_SetFinalizer i false; ev_Unlock i].
Proof.
  intros Hnew H0 Hb.
  eexists _, _, _. split; [by apply newScreenImageImpl_ok|].
  split; [apply not_elem_of_dom, is_fresh|].
  split; [fields; apply lookup_insert_eq|].
  split; [reflexivity|]. split; [reflexivity|]. split; [reflexivity|].
  split.
  - unfold clearIfVolatile.
    erewrite run_locked; [|fields; apply lookup_insert_eq|reflexivity].
    unfold gpu_Fill. run. f_equal. world_eq.
  - eexists. split; [|split].
    + unfold Dispose.
      erewrite run_locked; [|fields; apply lookup_insert_eq|reflexivity].
      run. reflexivity.
    + reflexivity.
    + fields. by rewrite <- !app_assoc.
Qed.

(** * What every sequence of calls keeps *)

(** ** Running a call on every path *)

Lemma wp_bind {A B} (c : Proc A) (k : A -> Proc B) Q w :
  wp c (fun a w1 => wp (k a) Q w1) w -> wp (bind c k) Q w.
Proof. unfold wp, bind. by destruct (c w). Qed.

Lemma wp_ret {A} (a : A) (Q : A -> World -> Prop) w : Q a w -> wp (ret a) Q w.
Proof. done. Qed.

Lemma wp_panic {A} msg (Q : A -> World -> Prop) w : wp (panic msg) Q w.
Proof. done. Qed.

Lemma wp_deadlock {A} (Q : A -> World -> Prop) w : wp (fun _ => Deadlocks) Q w.
Proof. done. Qed.

Lemma wp_must {A} msg (o : option A) (Q : A -> World -> Prop) w :
  (forall a, o = Some a -> Q a w) -> wp (must msg o) Q w.
Proof. intros H. destruct o; [by apply H | done]. Qed.

Lemma wp_load j (Q : imageImpl -> World -> Prop) w :
  (forall s, heap w !! j = Some s -> Q s w) -> wp (load j) Q w.
Proof.
  intros H. unfold wp, load. destruct (heap w !! j); [by apply H | done].
Qed.

Lemma wp_store j f (Q : unit -> World -> Prop) w :
  (forall s, heap w !! j = Some s -> Q tt (update_image j (f s) w)) ->
  wp (store j f) Q w.
Proof.
  intros H. unfold wp, store. destruct (heap w !! j); [by apply H | done].
Qed.

Lemma wp_emit e (Q : unit -> World -> Prop) w :
  Q tt (log [e] w) -> wp (emit e) Q w.
Proof. done. Qed.

Lemma wp_gpu_step {A} c (f : GPU -> A * GPU) (Q : A -> World -> Prop) w :
  Q (fst (f (device w))) (log [ev_gpu c] (with_device (snd (f (device w))) w)) ->
  wp (gpu_step c f) Q w.
Proof. done. Qed.

Lemma wp_SetFinalizer j on (Q : unit -> World -> Prop) w :
  Q tt (log [ev_SetFinalizer j on]
          (with_finalizers
             (if on then {[j]} ∪ finalizers w else finalizers w ∖ {[j]}) w)) ->
  wp (SetFinalizer j on) Q w.
Proof. done. Qed.

Lemma wp_alloc s0 (Q : ptr -> World -> Prop) w :
  Q (fresh (dom (heap w))) (update_image (fresh (dom (heap w))) s0 w) ->
  wp (alloc s0) Q w.
Proof. done. Qed.

Lemma wp_read {A} (f : World -> A) (Q : A -> World -> Prop) w :
  Q (f w) w -> wp (fun w0 => Returns (f w0) w0) Q w.
Proof. done. Qed.

Lemma wp_guard {A} (b : World -> bool) msg (c : Proc A) Q w :
  (b w = false -> wp c Q w) ->
  wp (fun w0 => if b w0 then Panics msg else c w0) Q w.
Proof. intros H. unfold wp in *. destruct (b w); [done | by apply H]. Qed.

Lemma wp_returns {A} (c : Proc A) (Q : A -> World -> Prop) w a w' :
  wp c Q w -> c w = Returns a w' -> Q a w'.
Proof. intros H E. unfold wp in H. by rewrite E in H. Qed.

(** A lookup in a heap that the run has written to. *)
Ltac heap_fact H :=
  cbn [heap device loop_running finalizers trace log with_trace with_device
       with_finalizers update_image with_heap] in H;
  repeat first
    [ rewrite lookup_insert_eq in H
    | rewrite lookup_insert_ne in H by congruence ];
  try match type of H with
      | Some _ = Some ?s => injection H as <-
      | ?l = Some ?s =>
          match goal with
          | H' : l = Some ?s' |- _ =>
              lazymatch H' with
              | H => fail
              | _ => rewrite H' in H; injection H as <-
              end
          end
      end.

Ltac wp_step :=
  cbv beta;
  lazymatch goal with
  | |- wp (bind _ _) _ _ => apply wp_bind
  | |- wp (ret _) _ _ => apply wp_ret
  | |- wp (panic _) _ _ => apply wp_panic
  | |- wp (fun _ => Deadlocks) _ _ => apply wp_deadlock
  | |- wp (must _ _) _ _ =>
      let a := fresh "a" in let E := fresh "E" in
      apply wp_must; intros a E
  | |- wp (load _) _ _ =>
      let s := fresh "s" in let H := fresh "Hl" in
      apply wp_load; intros s H; heap_fact H
  | |- wp (store _ _) _ _ =>
      let s := fresh "s" in let H := fresh "Hl" in
      apply wp_store; intros s H; heap_fact H
  | |- wp (emit _) _ _ => apply wp_emit
  | |- wp (gpu_step _ _) _ _ => apply wp_gpu_step
  | |- wp (SetFinalizer _ _) _ _ => apply wp_SetFinalizer
  | |- wp (alloc _) _ _ => apply wp_alloc
  | |- wp (if ?b then _ else _) _ _ =>
      let E := fresh "E" in destruct b eqn:E
  | |- wp (match ?x with _ => _ end) _ _ =>
      let E := fresh "E" in destruct x eqn:E
  end.

Ltac wp_run :=
  repeat (wp_step;
          cbn [image disposed width height filter pixels baseColor
               drawImageHistory volatile screen m set_image set_disposed
               set_pixels set_baseColor set_drawImageHistory set_m negb
               fst snd] in *).

(** [hasHistory] and [replay] leave every image as it is. *)
Lemma world_but_device w W :
  heap W = heap w -> loop_running W = loop_running w ->
  finalizers W = finalizers w ->
  W = with_trace (trace W) (with_device (device W) w).
Proof. intros. by apply world_ext. Qed.

Lemma wp_hasHistory j (Q : bool -> World -> Prop) w :
  (forall h, Q h (log [ev_Lock j; ev_Unlock j] w)) -> wp (hasHistory j) Q w.
Proof.
  intros HQ. unfold hasHistory, locked, Lock, Unlock. wp_run.
  match goal with |- Q _ ?W => replace W with (log [ev_Lock j; ev_Unlock j] w) end;
    [apply HQ|].
  world_eq. symmetry.
  rewrite unlock_lock by assumption. by apply insert_id.
Qed.

Lemma wp_replay j cs :
  forall (Q : option error -> World -> Prop) w,
    (forall e g t, Q e (with_trace t (with_device g w))) ->
    wp (replay j cs) Q w.
Proof.
  induction cs as [|c cs IH]; intros Q w HQ; cbn [replay].
  - apply wp_ret. rewrite (world_but_device w w) by reflexivity. apply HQ.
  - apply wp_bind, wp_hasHistory. intros h. cbv beta.
    unfold gpu_DrawImage. wp_run.
    + match goal with
      | |- Q _ ?W => rewrite (world_but_device w W) by reflexivity
      end.
      apply HQ.
    + apply IH. intros e' g t.
      match goal with
      | |- Q _ ?W => replace W with (with_trace t (with_device g w))
      end; [apply HQ|].
      by world_eq.
Qed.

Ltac wp_more :=
  cbv beta;
  lazymatch goal with
  | |- wp (replay _ _) _ _ => apply wp_replay; intros ? ? ?
  | |- wp (hasHistory _) _ _ => apply wp_hasHistory; intros ?
  | |- wp (At _ _ _) _ _ =>
      unfold At; apply wp_guard; intros ?;
      unfold locked, Lock, Unlock, gpu_Pixels
  | |- wp (fun w0 => Returns _ w0) _ _ => apply wp_read
  end.

Ltac wp_all :=
  repeat (first [wp_step | wp_more];
          cbn [image disposed width height filter pixels baseColor
               drawImageHistory volatile screen m set_image set_disposed
               set_pixels set_baseColor set_drawImageHistory set_m negb
               fst snd] in *).

Ltac wp_unfold :=
  cbn [invoke perform];
  unfold newImageImplFromImage, newImageImpl, newScreenImageImpl, Fill,
    clearIfVolatile, DrawImage, resetHistoryIfNeeded, restore, Dispose,
    ReplacePixels, isDisposed, isInvalidated, gpu_NewImage,
    gpu_NewImageFromImage, gpu_NewScreenFramebufferImage, gpu_Fill,
    gpu_DrawImage, gpu_Pixels, gpu_ReplacePixels, gpu_Dispose, locked, Lock,
    Unlock.

(** The image that a lookup in the heap after the run finds: the one the
    run wrote, or one that it left alone. *)
Ltac split_lookup H :=
  cbn [heap device loop_running finalizers trace log with_trace with_device
       with_finalizers update_image with_heap] in H;
  lazymatch type of H with
  | <[?j := _]> _ !! ?i = _ =>
      destruct (decide (j = i));
      [ subst i; rewrite lookup_insert_eq in H; injection H as <-
      | rewrite !lookup_insert_ne in H by done ]
  | _ => idtac
  end.

Lemma invoke_all_keeps draw (Inv : World -> Prop) :
  (forall c w, Inv w -> wp (invoke draw c) (fun _ => Inv) w) ->
  forall cs w w', Inv w -> invoke_all draw cs w = Returns tt w' -> Inv w'.
Proof.
  intros Hstep. induction cs as [|c cs IH]; intros w w' HI Hrun.
  - injection Hrun as <-. exact HI.
  - cbn [invoke_all] in Hrun.
    apply bind_inv in Hrun as ([] & w1 & H1 & H2).
    eapply IH; [|exact H2]. exact (wp_returns _ _ _ _ _ (Hstep c w HI) H1).
Qed.

Lemma mutexes_free_invoke draw c w :
  mutexes_free w -> wp (invoke draw c) (fun _ => mutexes_free) w.
Proof.
  intros HI. destruct c as [o|src f]; [destruct o|]; wp_unfold; wp_all.
  all: let H0 := fresh "Hfin" in
       intros ? ? H0; split_lookup H0; first [reflexivity | by eapply HI].
Qed.

Lemma disposed_is_bare_invoke draw c w :
  disposed_is_bare w -> wp (invoke draw c) (fun _ => disposed_is_bare) w.
Proof.
  intros HI. destruct c as [o|src f]; [destruct o|]; wp_unfold; wp_all.
  all: let H0 := fresh "Hfin" in let Hd := fresh "Hdisp" in
       intros ? ? H0 Hd; split_lookup H0; cbn in Hd |- *;
    try discriminate; try congruence;
    try (by eapply HI);
    try (repeat split; reflexivity);
    try match goal with
        | Hl : heap _ !! ?j = Some ?s |- _ =>
            destruct (HI j s Hl) as (? & ? & ?); [congruence|];
            repeat split; congruence
        end.
Qed.

Ltac world_fields :=
  cbn [heap device loop_running finalizers trace log with_trace with_device
       with_finalizers update_image with_heap image disposed width height
       filter pixels baseColor drawImageHistory volatile screen m set_image
       set_disposed set_pixels set_baseColor set_drawImageHistory set_m].

Lemma finalizers_of_the_live_invoke draw c w :
  finalizers_of_the_live w ->
  wp (invoke draw c) (fun _ => finalizers_of_the_live) w.
Proof.
  intros HI. destruct c as [o|src f]; [destruct o|]; wp_unfold; wp_all.
  all: let H0 := fresh "Hfin" in
       intros ? ? H0; split_lookup H0; world_fields;
       try (by apply HI);
       try match goal with
           | Hl : heap _ !! ?j = Some ?s |- ?j ∈ _ <-> _ =>
               pose proof (HI j s Hl)
           | H0 : heap _ !! ?i = Some ?s |- ?i ∈ _ <-> _ =>
               pose proof (HI i s H0)
           end;
       try (rewrite ?elem_of_difference, ?elem_of_union, ?elem_of_singleton;
            intuition congruence).
Qed.

Lemma sources_are_others_invoke draw c w :
  sources_are_others w -> wp (invoke draw c) (fun _ => sources_are_others) w.
Proof.
  intros HI. destruct c as [o|src f]; [destruct o|]; wp_unfold; wp_all.
  all: let H0 := fresh "Hfin" in let Hin := fresh "Hin" in
       intros ? ? ? H0 Hin; split_lookup H0; world_fields;
       cbn in Hin; try (destruct Hin; fail);
       rewrite ?lookup_insert_is_Some';
       try (apply in_app_or in Hin as [Hin|[<-|[]]]);
       try match goal with
           | Hl : heap _ !! ?j = Some ?s, Hin : In ?c (drawImageHistory ?s)
             |- _ =>
               destruct (HI j s c Hl Hin); split; [done | tauto]
           end;
       try (cbn [item_image]; split;
            [ match goal with
              | E : (_ =? _)%nat = false |- _ =>
                  apply Nat.eqb_neq in E; congruence
              end
            | repeat right; eauto ]).
Qed.

(** An image that no call of the run is made on. *)
Lemma untouched_invoke draw c w i s :
  called_on c <> Some i -> heap w !! i = Some s ->
  wp (invoke draw c) (fun _ w' => heap w' !! i = Some s) w.
Proof.
  intros Hc Hi.
  assert (fresh (dom (heap w)) <> i) as Hfresh.
  { intros E. apply (is_fresh (dom (heap w))). rewrite E.
    apply elem_of_dom. by exists s. }
  destruct c as [o|src f]; [destruct o|]; cbn [called_on receiver] in Hc;
    wp_unfold; wp_all.
  all: world_fields; rewrite ?lookup_insert_ne by congruence; exact Hi.
Qed.

Lemma stable_invoke draw J i c :
  stable J -> preserves (holds_at J i) (invoke draw c).
Proof.
  intros HJ. destruct c as [o|src f]; cbn [invoke].
  - by apply stable_perform.
  - unfold newImageImplFromImage, gpu_NewImageFromImage.
    pres ltac:(stable_side HJ).
Qed.

Lemma stable_invoke_all draw J i cs :
  stable J -> preserves (holds_at J i) (invoke_all draw cs).
Proof.
  intros HJ. induction cs as [|c cs IH]; cbn [invoke_all].
  - apply preserves_ret.
  - apply preserves_bind; [by apply stable_invoke | intros; exact IH].
Qed.

(** X17. No call returns with a mutex held: when every mutex is free, it is
    so again after any sequence of calls of the constructors and methods,
    on the paths that return early as on the others, and also for the
    mutexes of the sources that [restore] asks for their history. *)
Theorem mutexes_are_released draw cs w w' :
  mutexes_free w -> invoke_all draw cs w = Returns tt w' -> mutexes_free w'.
Proof. apply invoke_all_keeps. apply mutexes_free_invoke. Qed.

(** X18. A disposed image has no texture, no base colour and no history,
    after any sequence of calls: [Fill], [DrawImage], [clearIfVolatile],
    [resetHistoryIfNeeded] and [restore] leave a disposed image alone, and
    [ReplacePixels], which does not, touches the pixel cache only. *)
Theorem disposed_images_are_bare draw cs w w' :
  disposed_is_bare w -> invoke_all draw cs w = Returns tt w' ->
  disposed_is_bare w'.
Proof. apply invoke_all_keeps. apply disposed_is_bare_invoke. Qed.

(** X19. The source of every item of every history is another image than
    the one that has the history, and it exists, after any sequence of
    calls: [DrawImage] is the only call that records an item, and it reads
    its source and refuses the receiver itself before it records. *)
Theorem histories_name_other_images draw cs w w' :
  sources_are_others w -> invoke_all draw cs w = Returns tt w' ->
  sources_are_others w'.
Proof. apply invoke_all_keeps. apply sources_are_others_invoke. Qed.

(** X20. An image has a finalizer exactly while it is not disposed, after
    any sequence of calls: the constructors set it on the image they
    return, and [Dispose] removes it when, and only when, it marks the
    image disposed. *)
Theorem finalizers_are_of_the_live draw cs w w' :
  finalizers_of_the_live w -> invoke_all draw cs w = Returns tt w' ->
  finalizers_of_the_live w'.
Proof. apply invoke_all_keeps. apply finalizers_of_the_live_invoke. Qed.

(** X21. No call removes an image or changes what it was made as: its
    width, height and filter and whether it is volatile and the screen are,
    after any sequence of calls, what they were. *)
Theorem made_as_is_kept draw cs w w' i s :
  heap w !! i = Some s -> invoke_all draw cs w = Returns tt w' ->
  exists s', heap w' !! i = Some s' /\ made_as s' = made_as s.
Proof.
  intros Hi Hrun.
  apply (stable_invoke_all draw (fun s' => made_as s' = made_as s) i cs)
    with (w := w) (a := tt); [|by exists s|exact Hrun].
  unfold stable, made_as; simpl; auto 10.
Qed.

(** X22. A call changes no image but the one it is made on: an image is,
    after any sequence of calls on other images, exactly as it was, also
    when they draw from it, and when their [restore] asks for its history
    and draws from it. *)
Theorem other_images_are_untouched draw cs w w' i s :
  Forall (fun c => called_on c <> Some i) cs ->
  heap w !! i = Some s -> invoke_all draw cs w = Returns tt w' ->
  heap w' !! i = Some s.
Proof.
  intros Hcs. revert w. induction Hcs as [|c cs Hc Hcs IH]; intros w Hi Hrun.
  - injection Hrun as <-. exact Hi.
  - cbn [invoke_all] in Hrun.
    apply bind_inv in Hrun as ([] & w1 & H1 & H2).
    apply (IH w1); [|exact H2].
    exact (wp_returns _ _ _ _ _ (untouched_invoke draw c w i s Hc Hi) H1).
Qed.
End Proofs.

(** ** Instances on the software platform *)

Lemma ReplacePixels_size_mismatch_witness :
  ReplacePixels O [1; 2; 3] Scenario.one_image
  = Returns (Some (ErrLength 16)) Scenario.one_image.
Proof.
  apply (ReplacePixels_size_mismatch (P := soft) Scenario.one_image O
           Scenario.blank_2x2 [1; 2; 3]).
  - reflexivity.
  - vm_compute. discriminate.
Defined.

Lemma DrawImage_no_vertices_witness :
  DrawImage O O (Some Scenario.no_parts) Scenario.one_disposed
  = Returns None Scenario.one_disposed.
Proof.
  apply (DrawImage_no_vertices (P := soft) Scenario.one_disposed O O
           (Some Scenario.no_parts) Scenario.disposed_2x2 []);
    reflexivity.
Defined.

Lemma DrawImage_self_rejected_witness :
  DrawImage O O None Scenario.one_image
  = Returns (Some ErrSameImage) Scenario.one_image.
Proof.
  apply (DrawImage_self_rejected (P := soft) Scenario.one_image O None
           Scenario.blank_2x2
           [0; 0; 0; 0; 2; 0; 2; 0; 0; 2; 0; 2; 2; 2; 2; 2] 1).
  - reflexivity.
  - reflexivity.
  - discriminate.
Defined.

(** C4, as stated, fails: a self-draw that selects no part returns nil, not
    the same-image error. *)
Lemma DrawImage_self_no_parts_returns_nil :
  Scenario.result (DrawImage O O (Some Scenario.no_parts) Scenario.one_image)
  = Some None
  /\ Scenario.result (DrawImage O O (Some Scenario.no_parts) Scenario.one_image)
     <> Some (Some ErrSameImage).
Proof. split; [reflexivity | discriminate]. Qed.

Lemma ReplacePixels_disposed_witness :
  exists cache,
    ReplacePixels O (repeat 7 16) Scenario.one_disposed
    = Returns (Some ErrAlreadyDisposed)
        (log [ev_Lock O; ev_Unlock O]
           (update_image O
              (set_drawImageHistory []
                 (set_baseColor None
                    (set_pixels (Some cache) Scenario.disposed_2x2)))
              Scenario.one_disposed))
    /\ cache = GoSlice.copy
                 (default (repeat 0 (length (repeat 7 16)))
                    (pixels Scenario.disposed_2x2))
                 (repeat 7 16)
    /\ (pixels Scenario.disposed_2x2 = None -> cache = repeat 7 16).
Proof.
  apply (ReplacePixels_disposed (P := soft) Scenario.one_disposed O
           Scenario.disposed_2x2 (repeat 7 16));
    reflexivity.
Defined.

Lemma Dispose_once_only_witness :
  exists w1,
    Dispose O Scenario.one_image = Returns None w1
    /\ heap w1 !! O = Some Scenario.disposed_2x2
    /\ SoftGPU.textures (device Scenario.one_image) !! O
       = Some (Scenario.texture_of 2 2 (solid 4 0 0 0 0))
    /\ SoftGPU.textures (device w1) !! O = None
    /\ Dispose O w1
       = Returns (Some ErrAlreadyDisposed) (log [ev_Lock O; ev_Unlock O] w1).
Proof.
  destruct (Dispose_once_only (P := soft) Scenario.one_image O
              Scenario.blank_2x2 eq_refl eq_refl eq_refl)
    as (w1 & Hrun & Hheap & _ & _ & Hdev & _ & _ & _ & Hlater).
  - intros _. exists O. split; reflexivity.
  - exists w1. split; [exact Hrun|]. split; [exact Hheap|].
    split; [reflexivity|]. split; [rewrite Hdev; reflexivity|].
    exact (proj2 (Hlater [] w1 eq_refl)).
Defined.

Lemma At_samples_witness :
  At O 0 0 Scenario.one_disposed
  = Returns color_Transparent (log [ev_Lock O; ev_Unlock O] Scenario.one_disposed)
  /\ Scenario.result (At O 1 1 Scenario.filled) = Some Scenario.opaque_red
  /\ At O 1 1 Scenario.one_image
     = Returns (color_RGBA 0 0 0 0)
         (log [ev_Lock O; ev_Unlock O] Scenario.one_image).
Proof.
  split; [|split].
  - apply (At_samples (P := soft) Scenario.one_disposed O
             Scenario.disposed_2x2 0 0 eq_refl eq_refl eq_refl).
    reflexivity.
  - pose proof (At_samples (P := soft) Scenario.filled O
                  (Scenario.image_at O Scenario.filled) 1 1
                  eq_refl eq_refl eq_refl) as (_ & Hread & _).
    rewrite (Hread eq_refl (or_introl eq_refl) O
               (solid 4 255 0 0 255) (device Scenario.filled)
               Scenario.opaque_red eq_refl eq_refl);
      [reflexivity | vm_compute; reflexivity | vm_compute; discriminate
      | vm_compute; reflexivity | reflexivity].
  - pose proof (At_samples (P := soft) Scenario.one_image O
                  Scenario.blank_2x2 1 1 eq_refl eq_refl eq_refl)
      as (_ & _ & Hcached).
    apply (Hcached eq_refl (repeat 0 16) (color_RGBA 0 0 0 0) eq_refl eq_refl);
      [vm_compute; reflexivity | vm_compute; discriminate
      | vm_compute; reflexivity | reflexivity].
Defined.

Lemma resetHistoryIfNeeded_flattens_witness :
  resetHistoryIfNeeded O 1%nat Scenario.drawn
  = Returns None (log [ev_Lock O; ev_Unlock O] Scenario.drawn)
  /\ Scenario.result (resetHistoryIfNeeded 1%nat O Scenario.drawn) = Some None
  /\ bookkeeping
       (Scenario.image_at 1%nat
          (Scenario.after (resetHistoryIfNeeded 1%nat O) Scenario.drawn))
     = (Some (solid 4 255 0 0 255), None, []).
Proof.
  pose proof (resetHistoryIfNeeded_flattens (P := soft) Scenario.drawn 1%nat
                (Scenario.image_at 1%nat Scenario.drawn) O eq_refl eq_refl)
    as [_ Hflat].
  split; [|split].
  - apply (resetHistoryIfNeeded_flattens (P := soft) Scenario.drawn O
             (Scenario.image_at O Scenario.drawn) 1%nat eq_refl eq_refl).
    right; left; reflexivity.
  - rewrite (Hflat eq_refl) with (t := 1%nat)
        (px := Some (solid 4 255 0 0 255)) (err := None)
        (g' := device Scenario.drawn); [reflexivity | | reflexivity | reflexivity].
    eexists. split; [left; reflexivity | reflexivity].
  - unfold Scenario.after.
    rewrite (Hflat eq_refl) with (t := 1%nat)
        (px := Some (solid 4 255 0 0 255)) (err := None)
        (g' := device Scenario.drawn); [reflexivity | | reflexivity | reflexivity].
    eexists. split; [left; reflexivity | reflexivity].
Defined.

Lemma restore_rebuilds_witness :
  Scenario.result (restore O tt Scenario.drawn_lost) = Some None
  /\ bookkeeping
       (Scenario.image_at 1%nat
          (Scenario.after (restore 1%nat tt) Scenario.drawn_A_restored))
     = (Some (solid 4 255 0 0 255), None, [])
  /\ restore 2%nat tt Scenario.chained_lost = Panics "not reach".
Proof.
  split; [|split].
  - destruct (restore_rebuilds (P := soft) Scenario.drawn_lost O
                (Scenario.image_at O Scenario.drawn_lost) tt
                eq_refl eq_refl eq_refl eq_refl eq_refl)
      as (img & Himg & _ & _ & _ & _ & Hrest);
      [vm_compute; split; congruence | vm_compute; split; congruence
      | reflexivity | intros px Hpx; vm_compute in Hpx; discriminate |].
    vm_compute in Himg. injection Himg as <-.
    destruct (Hrest 2%nat
                (snd (SoftGPU.NewImageFromImage
                        {| Pix := solid 4 255 0 0 255; Stride := 8;
                           Dx := 2; Dy := 2 |}
                        FilterNearest (device Scenario.drawn_lost))))
      as (Hempty & _ & _); [vm_compute; reflexivity|].
    rewrite (Hempty eq_refl). reflexivity.
  - destruct (restore_rebuilds (P := soft) Scenario.drawn_A_restored 1%nat
                (Scenario.image_at 1%nat Scenario.drawn_A_restored) tt
                eq_refl eq_refl eq_refl eq_refl eq_refl)
      as (img & Himg & _ & _ & _ & _ & Hrest);
      [vm_compute; split; congruence | vm_compute; split; congruence
      | reflexivity
      | intros px Hpx; vm_compute in Hpx; injection Hpx as <-; reflexivity |].
    vm_compute in Himg. injection Himg as <-.
    set (g1 := snd (SoftGPU.NewImageFromImage
                      {| Pix := repeat 0 16; Stride := 8; Dx := 2; Dy := 2 |}
                      FilterNearest (device Scenario.drawn_A_restored))).
    destruct (Hrest 3%nat g1) as (_ & Hreplay & _); [vm_compute; reflexivity|].
    set (g2 := snd (SoftGPU.DrawImage 3%nat 2%nat
                      [0; 0; 0; 0; 2; 0; 2; 0; 0; 2; 0; 2; 2; 2; 2; 2]
                      tt tt 0 g1)).
    unfold Scenario.after.
    rewrite (Hreplay ltac:(discriminate) g2 (Some (solid 4 255 0 0 255)) g2).
    + vm_compute. reflexivity.
    + apply flat_sourceb_spec. vm_compute. reflexivity.
    + vm_compute. reflexivity.
    + vm_compute. reflexivity.
  - destruct (restore_rebuilds (P := soft) Scenario.chained_lost 2%nat
                (Scenario.image_at 2%nat Scenario.chained_lost) tt
                eq_refl eq_refl eq_refl eq_refl eq_refl)
      as (img & Himg & _ & _ & _ & _ & Hrest);
      [vm_compute; split; congruence | vm_compute; split; congruence
      | reflexivity
      | intros px Hpx; vm_compute in Hpx; injection Hpx as <-; reflexivity |].
    vm_compute in Himg. injection Himg as <-.
    destruct (Hrest 3%nat
                (snd (SoftGPU.NewImageFromImage
                        {| Pix := repeat 0 16; Stride := 8; Dx := 2; Dy := 2 |}
                        FilterNearest (device Scenario.chained_lost))))
      as (_ & _ & Hpanic); [vm_compute; reflexivity|].
    apply (Hpanic []
             (Scenario.first_item (Scenario.image_at 2%nat Scenario.chained_lost))
             [] (Scenario.image_at 1%nat Scenario.chained_lost)).
    + vm_compute. reflexivity.
    + constructor.
    + eexists. reflexivity.
    + vm_compute. reflexivity.
    + vm_compute. reflexivity.
    + vm_compute. discriminate.
    + intros E. vm_compute in E. discriminate E.
Defined.

(** C2, at an image filled with a colour that is not a [color.RGBA]: for
    the base colour, [restore] writes the low byte of each 16-bit channel
    into its buffer, not the colour's byte, which is the high one.  The
    image filled with [color.Alpha16{0x8000}] shows (128, 128, 128, 128);
    after the loss of the context its bookkeeping holds that colour alone,
    the buffer of [restore] is all zeros, and the restored image shows
    (0, 0, 0, 0).  Filled with [color.NRGBA{200, 0, 0, 100}] it shows
    (78, 0, 0, 100), the buffer holds (188, 0, 0, 100) in every pixel, and
    the restored image shows (188, 0, 0, 100). *)
Theorem restore_truncates_base_colour :
  (RGBA_of Cases.half_alpha = (32768, 32768, 32768, 32768)
   /\ Scenario.result (Cases.fill_sample Cases.half_alpha Scenario.start)
      = Some (color_RGBA 128 128 128 128)
   /\ bookkeeping
        (Scenario.image_at O
           (Scenario.after (Cases.fill_lose Cases.half_alpha) Scenario.start))
      = (None, Some Cases.half_alpha, [])
   /\ restore_buffer
        (Scenario.image_at O
           (Scenario.after (Cases.fill_lose Cases.half_alpha) Scenario.start))
      = Some {| Pix := solid 4 0 0 0 0; Stride := 8; Dx := 2; Dy := 2 |}
   /\ Scenario.result
        (Cases.fill_restore_sample Cases.half_alpha Scenario.start)
      = Some (color_RGBA 0 0 0 0))
  /\ (RGBA_of Cases.nrgba_200_0_0_100 = (20156, 0, 0, 25700)
      /\ Scenario.result
           (Cases.fill_sample Cases.nrgba_200_0_0_100 Scenario.start)
         = Some (color_RGBA 78 0 0 100)
      /\ bookkeeping
           (Scenario.image_at O
              (Scenario.after (Cases.fill_lose Cases.nrgba_200_0_0_100)
                 Scenario.start))
         = (None, Some Cases.nrgba_200_0_0_100, [])
      /\ restore_buffer
           (Scenario.image_at O
              (Scenario.after (Cases.fill_lose Cases.nrgba_200_0_0_100)
                 Scenario.start))
         = Some {| Pix := solid 4 188 0 0 100; Stride := 8; Dx := 2; Dy := 2 |}
      /\ Scenario.result
           (Cases.fill_restore_sample Cases.nrgba_200_0_0_100 Scenario.start)
         = Some (color_RGBA 188 0 0 100)).
Proof. repeat split; vm_compute; reflexivity. Qed.

(** C3, at a filled image: [restore] clears the base colour although it
    replayed nothing and read nothing back, so nothing is left to rebuild
    the image from.  After one loss of the context the image is still red;
    after a second one it is transparent. *)
Lemma restore_forgets_fill :
  bookkeeping (Scenario.image_at O Scenario.drawn_lost)
  = (None, Some Scenario.opaque_red, [])
  /\ bookkeeping
       (Scenario.image_at O (Scenario.after (restore O tt) Scenario.drawn_lost))
     = (None, None, [])
  /\ Scenario.result (Scenario.fill_restore_once Scenario.start)
     = Some Scenario.opaque_red
  /\ Scenario.result (Scenario.fill_restore_twice Scenario.start)
     = Some (color_RGBA 0 0 0 0).
Proof. repeat split; vm_compute; reflexivity. Qed.

(** ** The scenario of section 8, for every size *)

Import Scenario.

Lemma bind_returns {T A B} (c : @Proc T A) (k : A -> @Proc T B) w a w' :
  c w = Returns a w' -> bind c k w = k a w'.
Proof. intros E. unfold bind. by rewrite E. Qed.

Lemma soft_Fill_next t c g :
  SoftGPU.next (snd (SoftGPU.Fill t c g)) = SoftGPU.next g.
Proof.
  unfold SoftGPU.Fill. destruct (RGBA_of c) as [[[r gr] b] a].
  unfold SoftGPU.update. by destruct (SoftGPU.textures g !! t).
Qed.

Lemma soft_DrawImage_next d s vs a b md g :
  SoftGPU.next (snd (SoftGPU.DrawImage d s vs a b md g)) = SoftGPU.next g.
Proof.
  unfold SoftGPU.DrawImage.
  destruct (SoftGPU.textures g !! d); [|reflexivity].
  destruct (SoftGPU.textures g !! s); [|reflexivity].
  destruct (md =? 0); [|reflexivity].
  by destruct (SoftGPU.draw_quads _ _ _ _).
Qed.

Lemma soft_vertices (w h : Z) (s : @imageImpl soft_types) :
  0 < w -> 0 < h -> width s = w -> height s = h ->
  DrawImage_vertices zero_DrawImageOptions s
  = Some (SoftGPU.quad (0, 0, w, h) (0, 0, w, h), 1).
Proof.
  intros Hw Hh <- <-. unfold DrawImage_vertices, DrawImage_parts.
  destruct (width s) as [|p|p]; try lia.
  destruct (height s) as [|q|q]; try lia.
  reflexivity.
Qed.

Lemma solid_lookup n r g b a k :
  (k < n)%nat ->
  solid n r g b a !! (4 * k)%nat = Some r
  /\ solid n r g b a !! (4 * k + 1)%nat = Some g
  /\ solid n r g b a !! (4 * k + 2)%nat = Some b
  /\ solid n r g b a !! (4 * k + 3)%nat = Some a.
Proof.
  revert n. induction k as [|k IH]; intros [|n] Hk; try lia.
  - by repeat split.
  - replace (4 * S k)%nat with (S (S (S (S (4 * k))))) by lia.
    cbn [solid]. apply IH. lia.
Qed.

Lemma rgba_at_solid n r g b a z :
  0 <= z < Z.of_nat n ->
  rgba_at (solid n r g b a) (4 * z) = Some (color_RGBA r g b a).
Proof.
  intros Hz. unfold rgba_at.
  destruct (solid_lookup n r g b a (Z.to_nat z)) as (Hr & Hg & Hb & Ha); [lia|].
  replace (Z.to_nat (4 * z)) with (4 * Z.to_nat z)%nat by lia.
  replace (Z.to_nat (4 * z + 1)) with (4 * Z.to_nat z + 1)%nat by lia.
  replace (Z.to_nat (4 * z + 2)) with (4 * Z.to_nat z + 2)%nat by lia.
  replace (Z.to_nat (4 * z + 3)) with (4 * Z.to_nat z + 3)%nat by lia.
  by rewrite Hr, Hg, Hb, Ha.
Qed.

(** An opaque source replaces what it is drawn over. *)
Lemma source_over_opaque n r g b (dst : list Z) :
  length dst = (4 * n)%nat ->
  SoftGPU.source_over dst (solid n r g b 255) = solid n r g b 255.
Proof.
  revert dst. induction n as [|n IH]; intros dst Hlen.
  - destruct dst; [reflexivity | discriminate].
  - destruct dst as [|d0 [|d1 [|d2 [|d3 dst]]]]; simpl in Hlen; try lia.
    cbn [solid SoftGPU.source_over].
    change (255 - 255) with 0. rewrite !Z.mul_0_r.
    change (0 / 255) with 0. rewrite !Z.add_0_r.
    rewrite IH by lia. reflexivity.
Qed.

Lemma soft_draw_whole (w h : Z) n r g b pd d s gpu :
  0 < w -> 0 < h ->
  SoftGPU.textures gpu !! d = Some (texture_of w h pd) ->
  SoftGPU.textures gpu !! s = Some (texture_of w h (solid n r g b 255)) ->
  length pd = (4 * n)%nat ->
  SoftGPU.DrawImage d s (SoftGPU.quad (0, 0, w, h) (0, 0, w, h)) tt tt 0 gpu
  = (None,
     {| SoftGPU.textures :=
          <[d := texture_of w h (solid n r g b 255)]> (SoftGPU.textures gpu);
        SoftGPU.next := SoftGPU.next gpu |}).
Proof.
  intros Hw Hh Hd Hs Hlen. unfold SoftGPU.DrawImage. rewrite Hd, Hs.
  change (0 =? 0) with true. cbv iota.
  cbn [SoftGPU.quad length SoftGPU.draw_quads texture_of SoftGPU.tex_w
       SoftGPU.tex_h SoftGPU.tex_pix].
  change (0 =? 0) with true. rewrite !Z.eqb_refl.
  destruct (Z.eqb_spec 0 w); [lia|]. destruct (Z.eqb_spec 0 h); [lia|].
  cbn [orb andb]. rewrite source_over_opaque by exact Hlen. reflexivity.
Qed.

Ltac stage E := rewrite ?bind_bind; rewrite (bind_returns _ _ _ _ _ E).

Section Stages.

Variables (w h : Z).
Hypothesis Hw : 0 < w.
Hypothesis Hh : 0 < h.
Hypothesis Hb : 4 * w * h < 2 ^ 63.

Lemma stage_new_image W hp g p :
  looks W hp g -> fresh (dom hp) = p ->
  exists W',
    new_image w h W = Returns p W'
    /\ looks W'
         (<[p := image_of (SoftGPU.next g) w h
                   (Some (repeat 0 (Z.to_nat (w * h * 4)))) None []]> hp)
         (with_texture
            (texture_of w h (solid (Z.to_nat (w * h)) 0 0 0 0)) g).
Proof.
  intros (<- & <- & Hrun) <-. unfold new_image.
  erewrite (bind_returns (newImageImpl w h FilterNearest false));
    [|apply newImageImpl_ok; [reflexivity|nia|lia]].
  eexists. split; [reflexivity|]. repeat split. exact Hrun.
Qed.

Lemma stage_Fill W hp g i t px bc hist c :
  looks W hp g ->
  hp !! i = Some (image_of t w h px bc hist) ->
  exists W' g' e,
    Fill i c W = Returns e W'
    /\ looks W' (<[i := image_of t w h None (Some c) []]> hp) g'
    /\ SoftGPU.next g' = SoftGPU.next g.
Proof.
  intros (<- & <- & Hrun) Hi.
  do 3 eexists. split; [eapply Fill_ok; [exact Hi|reflexivity..]|].
  split; [repeat split; exact Hrun|]. apply soft_Fill_next.
Qed.

Lemma stage_DrawImage W hp g i j t tj px bc hist pxj bcj histj :
  looks W hp g ->
  hp !! i = Some (image_of t w h px bc hist) ->
  hp !! j = Some (image_of tj w h pxj bcj histj) ->
  i <> j ->
  exists W' g' e,
    DrawImage i j None W = Returns e W'
    /\ looks W'
         (<[i := image_of t w h px bc
                   (hist ++ [{| item_image := j;
                                item_vertices :=
                                  SoftGPU.quad (0, 0, w, h) (0, 0, w, h);
                                item_geom := tt; item_colorm := tt;
                                item_mode := 0 |}])]> hp) g'
    /\ SoftGPU.next g' = SoftGPU.next g.
Proof.
  intros (<- & <- & Hrun) Hi Hj Hij.
  do 3 eexists. split.
  - eapply DrawImage_ok;
      [exact Hi | exact Hj | exact Hij | reflexivity | reflexivity
      | apply (soft_vertices w h); [lia | lia | reflexivity | reflexivity]
      | discriminate | reflexivity | reflexivity].
  - split; [repeat split; exact Hrun|]. apply soft_DrawImage_next.
Qed.

Lemma stage_lose_context W hp g :
  looks W hp g ->
  exists W',
    lose_context W = Returns tt W'
    /\ looks W' hp {| SoftGPU.textures := ∅; SoftGPU.next := SoftGPU.next g |}.
Proof.
  intros (<- & <- & Hrun). eexists. split; [reflexivity|].
  repeat split. exact Hrun.
Qed.

Let n : nat := Z.to_nat (w * h).

Lemma zeros_length : length (repeat 0 (Z.to_nat (w * h * 4))) = (4 * n)%nat.
Proof. rewrite repeat_length. unfold n. nia. Qed.

Lemma stage_restore_filled W hp g i t :
  looks W hp g ->
  hp !! i = Some (image_of t w h None (Some opaque_red) []) ->
  exists W',
    restore i tt W = Returns None W'
    /\ looks W' (<[i := image_of (SoftGPU.next g) w h None None []]> hp)
         (with_texture (texture_of w h (solid n 255 0 0 255)) g).
Proof.
  intros (<- & <- & Hrun) Hi.
  destruct (restore_buffer_spec (image_of t w h None (Some opaque_red) []))
    as (_ & Hcol & _); [cbn; nia | cbn; nia | cbn; lia |].
  eexists. split.
  - eapply restore_without_history;
      [ exact Hi | reflexivity | reflexivity | reflexivity | reflexivity
      | eapply Hcol; reflexivity | reflexivity | reflexivity ].
  - repeat split. exact Hrun.
Qed.

Lemma stage_restore_drawn W hp g t tA pxA bcA :
  looks W hp g ->
  hp !! 1%nat
  = Some (image_of t w h (Some (repeat 0 (Z.to_nat (w * h * 4)))) None
            [whole_item w h]) ->
  hp !! O = Some (image_of tA w h pxA bcA []) ->
  SoftGPU.textures g !! tA = Some (texture_of w h (solid n 255 0 0 255)) ->
  tA <> SoftGPU.next g ->
  exists W' g',
    restore 1%nat tt W = Returns None W'
    /\ looks W'
         (<[1%nat := image_of (SoftGPU.next g) w h
                       (Some (solid n 255 0 0 255)) None []]> hp) g'.
Proof.
  intros (<- & <- & Hrun) HB HA HtA Hne.
  destruct (restore_buffer_spec
              (image_of t w h (Some (repeat 0 (Z.to_nat (w * h * 4)))) None
                 [whole_item w h]))
    as (Hpx & _ & _); [cbn; nia | cbn; nia | cbn; lia |].
  do 2 eexists. split.
  - eapply restore_with_history.
    + exact HB.
    + reflexivity.
    + reflexivity.
    + reflexivity.
    + reflexivity.
    + eapply Hpx; [reflexivity|]. cbn. unfold GoSlice.len.
      rewrite repeat_length. nia.
    + reflexivity.
    + discriminate.
    + constructor; [|constructor].
      exists (image_of tA w h pxA bcA []). repeat split; [exact HA|discriminate].
    + eapply (draws_one _ _ (whole_item w h)); [exact HA | reflexivity |].
      apply (soft_draw_whole w h n 255 0 0
               (repeat 0 (Z.to_nat (w * h * 4))));
        [ exact Hw | exact Hh
        | apply lookup_insert_eq
        | cbn; rewrite lookup_insert_ne by done; exact HtA
        | apply zeros_length ].
    + cbn [graphics_Pixels soft]. unfold SoftGPU.Pixels.
      cbn [SoftGPU.textures]. rewrite lookup_insert_eq. reflexivity.
  - repeat split. exact Hrun.
Qed.

Lemma stage_At_cached W hp g i t r gr b a bc x y :
  looks W hp g ->
  hp !! i = Some (image_of t w h (Some (solid n r gr b a)) bc []) ->
  0 <= x < w -> 0 <= y < h ->
  result (At i x y W) = Some (color_RGBA r gr b a).
Proof.
  intros (<- & <- & Hrun) Hi Hx Hy.
  assert (0 <= x + y * w < w * h) by nia.
  erewrite At_cached;
    [ reflexivity | exact Hrun | exact Hi | reflexivity | reflexivity
    | reflexivity | reflexivity | | | | ].
  - unfold GoSlice.len. rewrite solid_length. unfold n. lia.
  - unfold pixel_offset. cbn. lia.
  - unfold pixel_offset, GoSlice.len. cbn. rewrite solid_length. unfold n. lia.
  - unfold pixel_offset. cbn [width image_of].
    apply rgba_at_solid. unfold n. lia.
Qed.

Lemma soft_draw_lost d s vs md gpu :
  SoftGPU.textures gpu !! s = None ->
  SoftGPU.DrawImage d s vs tt tt md gpu = (Some SoftGPU.ErrLost, gpu).
Proof.
  intros Hs. unfold SoftGPU.DrawImage. rewrite Hs.
  by destruct (SoftGPU.textures gpu !! d).
Qed.

Lemma stage_restore_drawn_lost W hp g t tA pxA bcA :
  looks W hp g ->
  hp !! 1%nat
  = Some (image_of t w h (Some (repeat 0 (Z.to_nat (w * h * 4)))) None
            [whole_item w h]) ->
  hp !! O = Some (image_of tA w h pxA bcA []) ->
  SoftGPU.textures g !! tA = None ->
  tA <> SoftGPU.next g ->
  exists W',
    restore 1%nat tt W = Returns (Some SoftGPU.ErrLost) W'
    /\ looks W'
         (<[1%nat := image_of (SoftGPU.next g) w h
                       (Some (repeat 0 (Z.to_nat (w * h * 4)))) None
                       [whole_item w h]]> hp)
         (with_texture
            (texture_of w h (repeat 0 (Z.to_nat (w * h * 4)))) g).
Proof.
  intros (<- & <- & Hrun) HB HA HtA Hne.
  destruct (restore_buffer_spec
              (image_of t w h (Some (repeat 0 (Z.to_nat (w * h * 4)))) None
                 [whole_item w h]))
    as (Hpx & _ & _); [cbn; nia | cbn; nia | cbn; lia |].
  eexists. split.
  - eapply (restore_first_draw_fails _ _ _ _ _ _ _ (whole_item w h) []).
    + exact HB.
    + reflexivity.
    + reflexivity.
    + reflexivity.
    + reflexivity.
    + eapply Hpx; [reflexivity|]. cbn. unfold GoSlice.len.
      rewrite repeat_length. nia.
    + reflexivity.
    + reflexivity.
    + exact HA.
    + reflexivity.
    + reflexivity.
    + discriminate.
    + reflexivity.
    + apply soft_draw_lost. cbn. rewrite lookup_insert_ne by done. exact HtA.
  - repeat split. exact Hrun.
Qed.

Lemma stage_At_readback W hp g i t px bc c cs x y :
  looks W hp g ->
  hp !! i = Some (image_of t w h px bc (c :: cs)) ->
  SoftGPU.textures g !! t
  = Some (texture_of w h (repeat 0 (Z.to_nat (w * h * 4)))) ->
  0 <= x < w -> 0 <= y < h ->
  result (At i x y W) = Some (color_RGBA 0 0 0 0).
Proof.
  intros (<- & <- & Hrun) Hi Ht Hx Hy.
  assert (0 <= x + y * w < w * h) by nia.
  assert (repeat 0 (Z.to_nat (w * h * 4)) = solid n 0 0 0 0) as Ez.
  { rewrite solid_zero. f_equal. unfold n. lia. }
  erewrite (At_readback _ _ _ _ _ Hrun Hi eq_refl t
              (repeat 0 (Z.to_nat (w * h * 4))) (device W)
              (color_RGBA 0 0 0 0));
    [ reflexivity | reflexivity | right; discriminate | reflexivity | | | | | ].
  - cbn [graphics_Pixels soft]. unfold SoftGPU.Pixels. by rewrite Ht.
  - unfold GoSlice.len. rewrite repeat_length. lia.
  - unfold pixel_offset. cbn. lia.
  - unfold pixel_offset, GoSlice.len. cbn. rewrite repeat_length. lia.
  - unfold pixel_offset. cbn [width image_of]. rewrite Ez.
    apply rgba_at_solid. unfold n. lia.
Qed.

Lemma start_looks : looks start ∅ SoftGPU.empty.
Proof. by repeat split. Qed.

(** After the setup: A is filled and B has the draw of A in its history. *)
Lemma setup_runs :
  exists W g,
    setup w h start = Returns (O, 1%nat) W
    /\ looks W
         (<[1%nat := image_of 1 w h (Some (repeat 0 (Z.to_nat (w * h * 4))))
                       None [whole_item w h]]>
            (<[O := image_of 0 w h None (Some opaque_red) []]> ∅)) g
    /\ SoftGPU.next g = 2%nat.
Proof.
  unfold setup.
  destruct (stage_new_image start ∅ SoftGPU.empty O start_looks eq_refl)
    as (W1 & E1 & L1).
  stage E1.
  destruct (stage_Fill W1 _ _ O _ _ _ _ opaque_red L1 eq_refl)
    as (W2 & g2 & e2 & E2 & L2 & N2).
  stage E2.
  destruct (stage_new_image W2 _ _ 1%nat L2 eq_refl) as (W3 & E3 & L3).
  stage E3.
  destruct (stage_DrawImage W3 _ _ 1%nat O _ _ _ _ _ _ _ _ L3 eq_refl eq_refl
              ltac:(discriminate))
    as (W4 & g4 & e4 & E4 & L4 & N4).
  stage E4.
  exists W4, g4. split; [reflexivity|].
  destruct L4 as (H4 & D4 & R4). split; [repeat split; [|exact D4|exact R4]|].
  - rewrite H4, N2. apply map_eq. intros p.
    destruct p as [|[|p]]; reflexivity.
  - rewrite N4. cbn. by rewrite N2.
Qed.

End Stages.

(** C1 (amended).  For every size: when A is restored before B, B samples
    opaque red at every point of the footprint of A. *)
Theorem restore_A_then_B_red (w h x y : Z) :
  0 < w -> 0 < h -> 4 * w * h < 2 ^ 63 ->
  0 <= x < w -> 0 <= y < h ->
  result (sample_B (restore_A_then_B w h) x y start) = Some opaque_red.
Proof.
  intros Hw Hh Hb Hx Hy. unfold sample_B, restore_A_then_B.
  destruct (setup_runs w h Hw Hh Hb) as (W0 & g0 & E0 & L0 & N0).
  stage E0.
  destruct (stage_lose_context W0 _ _ L0) as (W1 & E1 & L1).
  stage E1. rewrite N0 in L1. cbn [fst snd].
  destruct (stage_restore_filled w h Hw Hh Hb W1 _ _ O O L1 eq_refl)
    as (W2 & E2 & L2).
  stage E2.
  destruct (stage_restore_drawn w h Hw Hh Hb W2 _ _ 1%nat 2%nat None None L2
              eq_refl eq_refl eq_refl ltac:(discriminate))
    as (W3 & g3 & E3 & L3).
  stage E3. rewrite bind_ret. cbn [snd].
  apply (stage_At_cached w h Hw Hh Hb W3 _ _ 1%nat 3%nat 255 0 0 255 None
           x y L3);
    [reflexivity | exact Hx | exact Hy].
Qed.

(** For every size: when B is restored before A, B samples transparent. *)
Lemma restore_B_then_A_transparent (w h x y : Z) :
  0 < w -> 0 < h -> 4 * w * h < 2 ^ 63 ->
  0 <= x < w -> 0 <= y < h ->
  result (sample_B (restore_B_then_A w h) x y start) = Some (color_RGBA 0 0 0 0).
Proof.
  intros Hw Hh Hb Hx Hy. unfold sample_B, restore_B_then_A.
  destruct (setup_runs w h Hw Hh Hb) as (W0 & g0 & E0 & L0 & N0).
  stage E0.
  destruct (stage_lose_context W0 _ _ L0) as (W1 & E1 & L1).
  stage E1. rewrite N0 in L1. cbn [fst snd].
  destruct (stage_restore_drawn_lost w h Hw Hh Hb W1 _ _ 1%nat O None
              (Some opaque_red) L1 eq_refl eq_refl eq_refl ltac:(discriminate))
    as (W2 & E2 & L2).
  stage E2.
  destruct (stage_restore_filled w h Hw Hh Hb W2 _ _ O O L2 eq_refl)
    as (W3 & E3 & L3).
  stage E3. rewrite bind_ret. cbn [snd].
  apply (stage_At_readback w h Hw Hh Hb W3 _ _ 1%nat 2%nat
           (Some (repeat 0 (Z.to_nat (w * h * 4)))) None (whole_item w h) []
           x y L3);
    [reflexivity | reflexivity | exact Hx | exact Hy].
Qed.

(** C1, as stated, fails: when B is restored before A, the replay draws from
    the texture that A had before the context was lost, the draw fails, and
    B samples transparent instead of red. *)
Lemma restore_B_then_A_not_red :
  result (sample_B (restore_B_then_A 64 64) 0 0 start)
  = Some (color_RGBA 0 0 0 0)
  /\ result (sample_B (restore_B_then_A 64 64) 0 0 start) <> Some opaque_red.
Proof.
  assert (result (sample_B (restore_B_then_A 64 64) 0 0 start)
          = Some (color_RGBA 0 0 0 0)) as E.
  { apply restore_B_then_A_transparent; [reflexivity | reflexivity
    | reflexivity | lia | lia]. }
  split; [exact E | rewrite E; discriminate].
Qed.

Lemma restore_A_then_B_red_witness :
  result (sample_B (restore_A_then_B 64 64) 63 17 start) = Some opaque_red.
Proof.
  apply (restore_A_then_B_red 64 64 63 17);
    [reflexivity | reflexivity | reflexivity | lia | lia].
Defined.

(** ** Instances of the further properties *)

Lemma Fill_resets_bookkeeping_witness :
  Fill O Scenario.opaque_red Scenario.one_disposed
  = Returns (Some ErrAlreadyDisposed)
      (log [ev_Lock O; ev_Unlock O] Scenario.one_disposed)
  /\ bookkeeping
       (Scenario.image_at O
          (Scenario.after (Fill O Scenario.opaque_red) Scenario.one_image))
     = (None, Some Scenario.opaque_red, []).
Proof.
  split.
  - apply (Fill_resets_bookkeeping (P := soft) Scenario.one_disposed O
             Scenario.disposed_2x2 Scenario.opaque_red eq_refl eq_refl).
    reflexivity.
  - pose proof (Fill_resets_bookkeeping (P := soft) Scenario.one_image O
                  Scenario.blank_2x2 Scenario.opaque_red eq_refl eq_refl)
      as [_ Hlive].
    unfold Scenario.after. rewrite (Hlive eq_refl O eq_refl). reflexivity.
Defined.

Lemma clearIfVolatile_only_volatile_witness :
  clearIfVolatile O Scenario.one_image
  = Returns None (log [ev_Lock O; ev_Unlock O] Scenario.one_image)
  /\ bookkeeping
       (Scenario.image_at O
          (Scenario.after (clearIfVolatile O) Cases.one_volatile))
     = (None, None, []).
Proof.
  split.
  - apply (clearIfVolatile_only_volatile (P := soft) Scenario.one_image O
             Scenario.blank_2x2 eq_refl eq_refl).
    right. reflexivity.
  - pose proof (clearIfVolatile_only_volatile (P := soft) Cases.one_volatile O
                  Cases.volatile_2x2 eq_refl eq_refl) as [_ Hvol].
    unfold Scenario.after. rewrite (Hvol eq_refl eq_refl O eq_refl).
    reflexivity.
Defined.

Lemma DrawImage_disposed_witness :
  DrawImage 1%nat O None Cases.drawn_B_disposed
  = Returns (Some ErrAlreadyDisposed)
      (log [ev_Lock 1%nat; ev_Unlock 1%nat] Cases.drawn_B_disposed).
Proof.
  apply (DrawImage_disposed (P := soft) Cases.drawn_B_disposed 1%nat O None
           (Scenario.image_at 1%nat Cases.drawn_B_disposed)
           (Scenario.image_at O Cases.drawn_B_disposed)
           Cases.whole_2x2 1);
    [reflexivity | reflexivity | discriminate | reflexivity | reflexivity
    | reflexivity | discriminate].
Defined.

Lemma DrawImage_records_witness :
  exists w1 s1,
    DrawImage 1%nat O None Cases.two_images = Returns None w1
    /\ heap w1 = <[1%nat := s1]> (heap Cases.two_images)
    /\ drawImageHistory s1 = [Scenario.whole_item 2 2]
    /\ pixels s1 = Some (repeat 0 16).
Proof.
  destruct (DrawImage_records (P := soft) Cases.two_images 1%nat O None
              (Scenario.image_at 1%nat Cases.two_images)
              (Scenario.image_at O Cases.two_images)
              Cases.whole_2x2 1 1%nat O)
    as (w1 & s1 & Hrun & Hheap & Hhist & Hpx & _);
    [reflexivity | reflexivity | discriminate | reflexivity | reflexivity
    | reflexivity | discriminate | reflexivity | reflexivity |].
  exists w1, s1. split; [exact Hrun|]. split; [exact Hheap|].
  split; [exact Hhist | exact Hpx].
Defined.

Lemma At_ignores_the_width_witness :
  exists c,
    At O 2 0 Scenario.one_image
    = Returns c (log [ev_Lock O; ev_Unlock O] Scenario.one_image)
    /\ At O 0 1 Scenario.one_image
       = Returns c (log [ev_Lock O; ev_Unlock O] Scenario.one_image).
Proof.
  destruct (At_ignores_the_width (P := soft) Scenario.one_image O
              Scenario.blank_2x2 (repeat 0 16) 0 0
              eq_refl eq_refl eq_refl eq_refl eq_refl eq_refl)
    as (c & _ & Hright & Hbelow);
    [vm_compute; reflexivity | vm_compute; discriminate
    | vm_compute; reflexivity |].
  exists c. split; [exact Hright | exact Hbelow].
Defined.

Lemma At_out_of_range_witness :
  At O 2 1 Scenario.one_image = Panics out_of_range.
Proof.
  apply (At_out_of_range (P := soft) Scenario.one_image O Scenario.blank_2x2
           (repeat 0 16) 2 1 eq_refl eq_refl eq_refl eq_refl eq_refl eq_refl).
  - vm_compute. discriminate.
  - vm_compute. reflexivity.
  - right. vm_compute. discriminate.
Defined.

Lemma At_keeps_the_readback_witness :
  exists w1,
    At O 0 0 Scenario.filled = Returns Scenario.opaque_red w1
    /\ trace w1
       = trace Scenario.filled
         ++ [ev_Lock O; ev_gpu (call_Pixels O); ev_Unlock O]
    /\ At O 1 1 w1
       = Returns Scenario.opaque_red (log [ev_Lock O; ev_Unlock O] w1).
Proof.
  apply (At_keeps_the_readback (P := soft) Scenario.filled O
           (Scenario.image_at O Scenario.filled) O (solid 4 255 0 0 255)
           (device Scenario.filled) 0 0 Scenario.opaque_red 1 1
           Scenario.opaque_red eq_refl eq_refl eq_refl eq_refl
           (or_introl eq_refl) eq_refl eq_refl).
  - vm_compute. reflexivity.
  - vm_compute. discriminate.
  - vm_compute. reflexivity.
  - reflexivity.
  - vm_compute. discriminate.
  - vm_compute. reflexivity.
  - reflexivity.
Defined.

Lemma restore_recreates_only_witness :
  restore O tt Scenario.one_disposed
  = Returns None (log [ev_Lock O; ev_Unlock O] Scenario.one_disposed)
  /\ bookkeeping
       (Scenario.image_at O (Scenario.after (restore O tt) Cases.one_screen))
     = (Some (repeat 0 16), None, [])
  /\ bookkeeping
       (Scenario.image_at O (Scenario.after (restore O tt) Cases.one_volatile))
     = (Some (repeat 0 16), None, []).
Proof.
  split; [|split].
  - apply (restore_recreates_only (P := soft) Scenario.one_disposed O
             Scenario.disposed_2x2 tt eq_refl eq_refl).
    reflexivity.
  - pose proof (restore_recreates_only (P := soft) Cases.one_screen O
                  Cases.screen_2x2 tt eq_refl eq_refl) as (_ & Hscreen & _).
    unfold Scenario.after. rewrite (Hscreen eq_refl eq_refl). reflexivity.
  - pose proof (restore_recreates_only (P := soft) Cases.one_volatile O
                  Cases.volatile_2x2 tt eq_refl eq_refl) as (_ & _ & Hvol).
    unfold Scenario.after. rewrite (Hvol eq_refl eq_refl eq_refl).
    reflexivity.
Defined.

Lemma restore_failure_keeps_basis_witness :
  Scenario.result
    (restore (P := Cases.faulty Cases.fault_create) O tt Scenario.one_image)
  = Some (Some Cases.ErrFault)
  /\ (Scenario.result (restore 1%nat tt Scenario.drawn_lost)
      = Some (Some SoftGPU.ErrLost)
      /\ bookkeeping
           (Scenario.image_at 1%nat
              (Scenario.after (restore 1%nat tt) Scenario.drawn_lost))
         = (Some (repeat 0 16), None, [Scenario.whole_item 2 2]))
  /\ (Scenario.result
        (restore (P := Cases.faulty Cases.fault_readback) 1%nat tt
           Scenario.drawn_A_restored)
      = Some (Some Cases.ErrFault)
      /\ bookkeeping
           (Scenario.image_at 1%nat
              (Scenario.after
                 (restore (P := Cases.faulty Cases.fault_readback) 1%nat tt)
                 Scenario.drawn_A_restored))
         = (None, None, [Scenario.whole_item 2 2])).
Proof.
  set (blank := {| Pix := repeat 0 16; Stride := 8; Dx := 2; Dy := 2 |}).
  split; [|split].
  - pose proof (restore_failure_keeps_basis
                  (P := Cases.faulty Cases.fault_create) Scenario.one_image O
                  Scenario.blank_2x2 tt blank
                  eq_refl eq_refl eq_refl eq_refl eq_refl eq_refl)
      as (Hupload & _ & _).
    rewrite (Hupload None Cases.ErrFault (device Scenario.one_image) eq_refl).
    reflexivity.
  - pose proof (restore_failure_keeps_basis (P := soft) Scenario.drawn_lost
                  1%nat (Scenario.image_at 1%nat Scenario.drawn_lost) tt blank
                  eq_refl eq_refl eq_refl eq_refl eq_refl eq_refl)
      as (_ & Hdraw & _).
    set (g1 := snd (SoftGPU.NewImageFromImage blank FilterNearest
                      (device Scenario.drawn_lost))).
    assert (restore 1%nat tt Scenario.drawn_lost
            = Returns (Some SoftGPU.ErrLost)
                (log ([ev_Lock 1%nat;
                       ev_gpu (call_NewImageFromImage blank FilterNearest)]
                      ++ flat_map
                           (replay_events (heap Scenario.drawn_lost) 2%nat)
                           ([] ++ [Scenario.whole_item 2 2])
                      ++ [ev_Unlock 1%nat])
                   (with_device g1
                      (update_image 1%nat
                         (set_image (Some 2%nat)
                            (Scenario.image_at 1%nat Scenario.drawn_lost))
                         Scenario.drawn_lost)))) as E.
    { apply (Hdraw 2%nat g1 [] (Scenario.whole_item 2 2) []
               (Scenario.image_at O Scenario.drawn_lost) O g1
               SoftGPU.ErrLost g1);
        [ reflexivity | reflexivity
        | apply flat_sourceb_spec; vm_compute; reflexivity
        | reflexivity | reflexivity | reflexivity | vm_compute; reflexivity ]. }
    unfold Scenario.after. rewrite E. split; reflexivity.
  - pose proof (restore_failure_keeps_basis
                  (P := Cases.faulty Cases.fault_readback)
                  Scenario.drawn_A_restored 1%nat
                  (Scenario.image_at 1%nat Scenario.drawn_A_restored) tt blank
                  eq_refl eq_refl eq_refl eq_refl eq_refl eq_refl)
      as (_ & _ & Hread).
    set (g1 := snd (SoftGPU.NewImageFromImage blank FilterNearest
                      (device Scenario.drawn_A_restored))).
    set (g2 := snd (SoftGPU.DrawImage 3%nat 2%nat Cases.whole_2x2 tt tt 0 g1)).
    assert (restore (P := Cases.faulty Cases.fault_readback) 1%nat tt
              Scenario.drawn_A_restored
            = Returns (Some Cases.ErrFault)
                (log ([ev_Lock 1%nat;
                       ev_gpu (call_NewImageFromImage blank FilterNearest)]
                      ++ flat_map
                           (replay_events (heap Scenario.drawn_A_restored)
                              3%nat)
                           (drawImageHistory
                              (Scenario.image_at 1%nat
                                 Scenario.drawn_A_restored))
                      ++ [ev_gpu (call_Pixels 3%nat); ev_Unlock 1%nat])
                   (with_device g2
                      (update_image 1%nat
                         (set_pixels None
                            (set_image (Some 3%nat)
                               (Scenario.image_at 1%nat
                                  Scenario.drawn_A_restored)))
                         Scenario.drawn_A_restored)))) as E.
    { apply (Hread 3%nat g1 g2 None Cases.ErrFault g2);
        [ reflexivity | discriminate
        | apply flat_sourceb_spec; vm_compute; reflexivity
        | vm_compute; reflexivity | reflexivity ]. }
    unfold Scenario.after. rewrite E. split; reflexivity.
Defined.

Lemma Dispose_backend_error_witness :
  Dispose (P := Cases.faulty Cases.fault_release) O Scenario.one_image
  = Returns (Some Cases.ErrFault)
      (log [ev_Lock O; ev_gpu (call_Dispose O); ev_Unlock O]
         (with_device (device Scenario.one_image) Scenario.one_image)).
Proof.
  apply (Dispose_backend_error (P := Cases.faulty Cases.fault_release)
           Scenario.one_image O Scenario.blank_2x2 O Cases.ErrFault
           (device Scenario.one_image));
    reflexivity.
Defined.

Lemma ReplacePixels_then_At_witness :
  exists w1,
    ReplacePixels O (repeat 7 16) Scenario.one_image = Returns None w1
    /\ At O 1 1 w1
       = Returns (color_RGBA 7 7 7 7) (log [ev_Lock O; ev_Unlock O] w1).
Proof.
  destruct (ReplacePixels_then_At (P := soft) Scenario.one_image O
              Scenario.blank_2x2 (repeat 7 16) O 1 1 (color_RGBA 7 7 7 7)
              eq_refl eq_refl eq_refl eq_refl eq_refl eq_refl)
    as (w1 & Hrun & _ & Hat).
  - intros px [= <-]. reflexivity.
  - vm_compute. reflexivity.
  - vm_compute. discriminate.
  - vm_compute. reflexivity.
  - reflexivity.
  - exists w1. split; [exact Hrun | exact Hat].
Defined.

Lemma constructors_fail_clean_witness :
  newImageImpl (P := Cases.faulty Cases.fault_create) 2 2 FilterNearest false
    Scenario.start
  = Returns (None, Some Cases.ErrFault)
      (log [ev_gpu (call_NewImage 2 2 FilterNearest)]
         (with_device (device Scenario.start) Scenario.start))
  /\ newScreenImageImpl (P := Cases.faulty Cases.fault_create) 2 2
       Scenario.start
     = Returns (None, Some Cases.ErrFault)
         (log [ev_gpu (call_NewScreenFramebufferImage 2 2)]
            (with_device (device Scenario.start) Scenario.start)).
Proof.
  pose proof (constructors_fail_clean (P := Cases.faulty Cases.fault_create)
                Scenario.start 2 2 FilterNearest false None Cases.ErrFault
                (device Scenario.start)) as [Hnew Hscreen].
  split; [exact (Hnew eq_refl) | exact (Hscreen eq_refl)].
Defined.

Lemma newImageImpl_then_At_witness :
  exists i w1,
    newImageImpl 2 2 FilterNearest false Scenario.start
    = Returns (Some i, None) w1
    /\ At i 1 1 w1
       = Returns (color_RGBA 0 0 0 0) (log [ev_Lock i; ev_Unlock i] w1).
Proof.
  destruct (newImageImpl_then_At (P := soft) Scenario.start 2 2 FilterNearest
              false (Some O)
              (snd (SoftGPU.NewImage 2 2 FilterNearest
                      (device Scenario.start)))
              1 1 eq_refl eq_refl)
    as (i & w1 & Hnew & _ & _ & Hat); try lia.
  exists i, w1. split; [exact Hnew | exact Hat].
Defined.

Lemma queries_change_nothing_witness :
  hasHistory 1%nat Scenario.drawn
  = Returns true (log [ev_Lock 1%nat; ev_Unlock 1%nat] Scenario.drawn)
  /\ isDisposed 1%nat Scenario.drawn
     = Returns false (log [ev_Lock 1%nat; ev_Unlock 1%nat] Scenario.drawn)
  /\ isInvalidated 1%nat tt Scenario.drawn_lost
     = Returns true (log [ev_Lock 1%nat; ev_Unlock 1%nat] Scenario.drawn_lost).
Proof.
  pose proof (queries_change_nothing (P := soft) Scenario.drawn 1%nat
                (Scenario.image_at 1%nat Scenario.drawn) eq_refl eq_refl)
    as (Hhist & Hdisp & _).
  pose proof (queries_change_nothing (P := soft) Scenario.drawn_lost 1%nat
                (Scenario.image_at 1%nat Scenario.drawn_lost) eq_refl eq_refl)
    as (_ & _ & Hinv).
  split; [exact Hhist|]. split; [exact Hdisp|].
  exact (Hinv 1%nat tt eq_refl).
Defined.

Lemma newImageImplFromImage_packs_rows_witness :
  Scenario.result
    (newImageImplFromImage Cases.draw_nothing Cases.padded FilterNearest
       Scenario.start)
  = Some (Some O, None)
  /\ pixels
       (Scenario.image_at O
          (Scenario.after
             (newImageImplFromImage Cases.draw_nothing Cases.padded
                FilterNearest)
             Scenario.start))
     = Some [1; 2; 3; 4; 5; 6; 7; 8; 11; 12; 13; 14; 15; 16; 17; 18]
  /\ rgba_at (packed Cases.padded_pix 12 2 2) (4 * (1 + 1 * 2))
     = rgba_at Cases.padded_pix (1 * 12 + 4 * 1).
Proof.
  pose proof (newImageImplFromImage_packs_rows (P := soft) Cases.draw_nothing
                Scenario.start Cases.padded_pix 12 2 2 FilterNearest)
    as Hpack.
  cbv zeta in Hpack.
  destruct Hpack as (_ & Hok & Hat); try lia.
  - vm_compute. reflexivity.
  - intros k Hk. unfold GoSlice.len. simpl. lia.
  - specialize (Hok (Some O)
                  (snd (SoftGPU.NewImageFromImage
                          {| Pix := Cases.padded_pix; Stride := 12;
                             Dx := 2; Dy := 2 |}
                          FilterNearest (device Scenario.start)))
                  eq_refl).
    split; [|split].
    + unfold Cases.padded. rewrite Hok. reflexivity.
    + unfold Scenario.after, Cases.padded. rewrite Hok. reflexivity.
    + apply (Hat 1 1); lia.
Defined.

Lemma newImageImplFromImage_then_At_witness :
  exists i w1,
    newImageImplFromImage Cases.draw_nothing Cases.padded FilterNearest
      Scenario.start
    = Returns (Some i, None) w1
    /\ At i 1 1 w1
       = Returns (color_RGBA 15 16 17 18) (log [ev_Lock i; ev_Unlock i] w1).
Proof.
  destruct (newImageImplFromImage_then_At (P := soft) Cases.draw_nothing
              Scenario.start Cases.padded_pix 12 2 2 FilterNearest (Some O)
              (snd (SoftGPU.NewImageFromImage
                      {| Pix := Cases.padded_pix; Stride := 12;
                         Dx := 2; Dy := 2 |}
                      FilterNearest (device Scenario.start)))
              1 1 (color_RGBA 15 16 17 18) eq_refl)
    as (i & w1 & Hnew & _ & Hat); try lia.
  - vm_compute. reflexivity.
  - intros k Hk. unfold GoSlice.len. simpl. lia.
  - reflexivity.
  - reflexivity.
  - exists i, w1. split; [exact Hnew | exact Hat].
Defined.

Lemma session_runs :
  invoke_all Cases.draw_nothing Cases.session Scenario.start
  = Returns tt Cases.after_session.
Proof. vm_compute. reflexivity. Qed.

Lemma on_B_runs :
  invoke_all Cases.draw_nothing Cases.on_B Scenario.drawn_A_restored
  = Returns tt Cases.after_on_B.
Proof. vm_compute. reflexivity. Qed.

Lemma mutexes_are_released_witness : mutexes_free Cases.after_session.
Proof.
  apply (mutexes_are_released (P := soft) Cases.draw_nothing Cases.session
           Scenario.start Cases.after_session).
  - intros i s H. simpl in H. rewrite lookup_empty in H. discriminate.
  - exact session_runs.
Defined.

Lemma disposed_images_are_bare_witness :
  disposed_is_bare Cases.after_session
  /\ bookkeeping (Scenario.image_at O Cases.after_session)
     = (Some (repeat 7 16), None, [])
  /\ disposed (Scenario.image_at O Cases.after_session) = true.
Proof.
  split; [|split; reflexivity].
  apply (disposed_images_are_bare (P := soft) Cases.draw_nothing Cases.session
           Scenario.start Cases.after_session).
  - intros i s H. simpl in H. rewrite lookup_empty in H. discriminate.
  - exact session_runs.
Defined.

Lemma histories_name_other_images_witness :
  sources_are_others Cases.after_session
  /\ length (drawImageHistory (Scenario.image_at 2%nat Cases.after_session))
     = 1%nat.
Proof.
  split; [|reflexivity].
  apply (histories_name_other_images (P := soft) Cases.draw_nothing
           Cases.session Scenario.start Cases.after_session).
  - intros i s c H. simpl in H. rewrite lookup_empty in H. discriminate.
  - exact session_runs.
Defined.

Lemma finalizers_are_of_the_live_witness :
  finalizers_of_the_live Cases.after_session
  /\ finalizers Cases.after_session = {[1%nat; 2%nat]}.
Proof.
  split; [|vm_compute; reflexivity].
  apply (finalizers_are_of_the_live (P := soft) Cases.draw_nothing
           Cases.session Scenario.start Cases.after_session).
  - intros i s H. simpl in H. rewrite lookup_empty in H. discriminate.
  - exact session_runs.
Defined.

Lemma made_as_is_kept_witness :
  exists s',
    heap Cases.after_on_B !! 1%nat = Some s'
    /\ made_as s' = (2, 2, FilterNearest, false, false).
Proof.
  apply (made_as_is_kept (P := soft) Cases.draw_nothing Cases.on_B
           Scenario.drawn_A_restored Cases.after_on_B 1%nat
           (Scenario.image_at 1%nat Scenario.drawn_A_restored)).
  - reflexivity.
  - exact on_B_runs.
Defined.

Lemma other_images_are_untouched_witness :
  heap Cases.after_on_B !! O
  = Some (Scenario.image_at O Scenario.drawn_A_restored).
Proof.
  apply (other_images_are_untouched (P := soft) Cases.draw_nothing Cases.on_B
           Scenario.drawn_A_restored Cases.after_on_B O
           (Scenario.image_at O Scenario.drawn_A_restored)).
  - repeat constructor; discriminate.
  - reflexivity.
  - exact on_B_runs.
Defined.

Lemma newImageImplFromImage_converts_witness :
  Scenario.result
    (newImageImplFromImage Cases.draw_corner Cases.plain FilterNearest
       Scenario.start)
  = Some (Some O, None)
  /\ pixels
       (Scenario.image_at O
          (Scenario.after
             (newImageImplFromImage Cases.draw_corner Cases.plain
                FilterNearest)
             Scenario.start))
     = Some (solid 4 255 0 0 255).
Proof.
  pose proof (newImageImplFromImage_converts (P := soft) Cases.draw_corner
                Scenario.start Cases.plain 2 2 FilterNearest
                eq_refl eq_refl) as Hconv.
  cbv zeta in Hconv.
  assert (0 <= 4 * 2 < 2 ^ 63) as H1 by lia.
  assert (0 <= 2 < 2 ^ 63) as H2 by lia.
  assert (4 * 2 * 2 < 2 ^ 63) as H3 by lia.
  specialize (Hconv H1 H2 H3 eq_refl (Some O)
                (snd (SoftGPU.NewImageFromImage
                        {| Pix := solid 4 255 0 0 255; Stride := 8;
                           Dx := 2; Dy := 2 |}
                        FilterNearest (device Scenario.start)))
                eq_refl).
  unfold Scenario.after. rewrite Hconv. split; reflexivity.
Defined.

Lemma resetHistoryIfNeeded_then_restore_witness :
  exists w1,
    resetHistoryIfNeeded 1%nat O Scenario.drawn = Returns None w1
    /\ bookkeeping (Scenario.image_at 1%nat w1)
       = (Some (solid 4 255 0 0 255), None, [])
    /\ Scenario.result (restore 1%nat tt w1) = Some None
    /\ trace (Scenario.after (restore 1%nat tt) w1)
       = trace w1
         ++ [ev_Lock 1%nat;
             ev_gpu (call_NewImageFromImage
                       {| Pix := solid 4 255 0 0 255; Stride := 8;
                          Dx := 2; Dy := 2 |} FilterNearest);
             ev_Unlock 1%nat].
Proof.
  destruct (resetHistoryIfNeeded_then_restore (P := soft) Scenario.drawn 1%nat
              (Scenario.image_at 1%nat Scenario.drawn) O 1%nat
              (solid 4 255 0 0 255) (device Scenario.drawn) tt 2%nat
              (snd (SoftGPU.NewImageFromImage
                      {| Pix := solid 4 255 0 0 255; Stride := 8;
                         Dx := 2; Dy := 2 |}
                      FilterNearest (device Scenario.drawn)))
              eq_refl eq_refl eq_refl eq_refl eq_refl)
    as (w1 & Hreset & Hheap & Hrestore).
  - eexists. split; [left; reflexivity | reflexivity].
  - reflexivity.
  - reflexivity.
  - vm_compute. split; congruence.
  - vm_compute. split; congruence.
  - reflexivity.
  - reflexivity.
  - reflexivity.
  - exists w1. split; [exact Hreset|]. split; [|split].
    + unfold Scenario.image_at. rewrite Hheap. reflexivity.
    + rewrite Hrestore. reflexivity.
    + unfold Scenario.after. rewrite Hrestore. reflexivity.
Defined.

Lemma newScreenImageImpl_makes_the_screen_witness :
  exists i w1 s1,
    newScreenImageImpl 2 2 Scenario.start = Returns (Some i, None) w1
    /\ heap w1 !! i = Some s1
    /\ volatile s1 = true /\ screen s1 = true
    /\ exists w2,
         Dispose i w1 = Returns None w2
         /\ trace w2
            = trace w1 ++ [ev_Lock i; ev_SetFinalizer i false; ev_Unlock i].
Proof.
  destruct (newScreenImageImpl_makes_the_screen (P := soft) Scenario.start
              2 2 O
              (snd (SoftGPU.NewScreenFramebufferImage 2 2
                      (device Scenario.start)))
              eq_refl)
    as (i & w1 & s1 & Hnew & _ & Hheap & Hvol & Hscr & _ & _ & w2 & Hdisp
        & _ & Htrace); try lia.
  exists i, w1, s1. split; [exact Hnew|]. split; [exact Hheap|].
  split; [exact Hvol|]. split; [exact Hscr|].
  exists w2. split; [exact Hdisp | exact Htrace].
Defined.
